(** * Matrices: the dot-matrix rendering core

    A shallow embedding of the algorithmic core of the Matrices image
    suite (Glass Dots, Value Aliasing, Glyph Mirror, Photo Widget) and
    the properties its specification states about it.

    JavaScript numbers are IEEE-754 binary64 values; they are modelled
    by Rocq's primitive [float], so every arithmetic step below rounds
    exactly as the TypeScript source does.  Array indices, loop counters
    and sizes, which the source only ever holds as small non-negative
    integers, are [nat]; bytes read from an [ImageData] buffer and the
    integer slider settings are [Z]. *)

From Stdlib Require Import ZArith List Bool Lia Floats Uint63 QArith Permutation Sorted.
Import ListNotations.

Set Warnings "-inexact-float".

Open Scope nat_scope.

(** ** JavaScript number helpers *)

Module JS.

(** An integer as a JavaScript number: exact below 2^53 in absolute
    value, rounded to the nearest number below 2^63.  The integers of
    the program are bytes, slider values and sizes; from 2^63 on an
    integer is outside what this conversion models. *)
Definition ofZ (z : Z) : float :=
  match z with
  | Zneg p => PrimFloat.opp (PrimFloat.of_uint63 (Uint63.of_Z (Zpos p)))
  | _ => PrimFloat.of_uint63 (Uint63.of_Z z)
  end.

Definition ofNat (n : nat) : float := ofZ (Z.of_nat n).

(** [a > b] and [a >= b] on numbers. *)
Definition gtb (a b : float) : bool := PrimFloat.ltb b a.
Definition geb (a b : float) : bool := PrimFloat.leb b a.

(** [Math.max(a, b)]: NaN is contagious and [+0] is larger than [-0]. *)
Definition max (a b : float) : float :=
  if PrimFloat.is_nan a || PrimFloat.is_nan b then PrimFloat.nan
  else if PrimFloat.ltb a b then b
  else if PrimFloat.ltb b a then a
  else if PrimFloat.get_sign a then b else a.

(** [Math.min(a, b)]: NaN is contagious and [-0] is smaller than [+0]. *)
Definition min (a b : float) : float :=
  if PrimFloat.is_nan a || PrimFloat.is_nan b then PrimFloat.nan
  else if PrimFloat.ltb a b then a
  else if PrimFloat.ltb b a then b
  else if PrimFloat.get_sign a then a else b.

(** The exact value of a finite number is [sm * 2^e]; the three
    roundings to an integer are computed on that exact value, a
    division by a power of two being a right shift.  They are
    undefined ([None]) on NaN and the infinities, where the JavaScript
    functions return a non-integer. *)
Definition signed (s : bool) (m : positive) : Z :=
  if s then Zneg m else Zpos m.

(** [Math.floor]: floor(sm * 2^e). *)
Definition floor (v : float) : option Z :=
  match Prim2SF v with
  | S754_zero _ => Some 0%Z
  | S754_finite s m e =>
      Some (if (0 <=? e)%Z then Z.shiftl (signed s m) e
            else Z.shiftr (signed s m) (- e))
  | _ => None
  end.

(** [Math.ceil]: - floor(- sm * 2^e). *)
Definition ceil (v : float) : option Z :=
  match Prim2SF v with
  | S754_zero _ => Some 0%Z
  | S754_finite s m e =>
      Some (if (0 <=? e)%Z then Z.shiftl (signed s m) e
            else (- Z.shiftr (- signed s m) (- e))%Z)
  | _ => None
  end.

(** [Math.round]: the nearest integer, ties towards +infinity, that is
    floor(sm * 2^e + 1/2) = floor((2 * sm + 2^-e) / 2^(1 - e)). *)
Definition round (v : float) : option Z :=
  match Prim2SF v with
  | S754_zero _ => Some 0%Z
  | S754_finite s m e =>
      Some (if (0 <=? e)%Z then Z.shiftl (signed s m) e
            else Z.shiftr (2 * signed s m + Z.shiftl 1 (- e)) (1 - e))
  | _ => None
  end.

(** [Math.pow(v, 2)]: the product [v * v], which is exact on the
    integer differences the source squares. *)
Definition sq (v : float) : float := PrimFloat.mul v v.

End JS.

(** Sequencing of computations that may leave the integers. *)
Definition obind {A B : Type} (o : option A) (k : A -> option B) : option B :=
  match o with
  | Some a => k a
  | None => None
  end.

Notation "'do' x <- o ; k" := (obind o (fun x => k))
  (at level 10, x name, o at level 100, k at level 200).

(** ** Two-dimensional arrays

    [visited], [localVisited], [colorGrid], [mask] and [matrix] are
    arrays of rows.  The source indexes them as [m[y][x]] and only at
    indices it has bounds-checked first; reads outside the array give
    the default here, writes outside leave the array unchanged. *)

Definition get2 {A : Type} (d : A) (m : list (list A)) (y x : nat) : A :=
  nth x (nth y m []) d.

Fixpoint upd {A : Type} (i : nat) (v : A) (l : list A) : list A :=
  match l, i with
  | [], _ => []
  | _ :: t, O => v :: t
  | h :: t, S j => h :: upd j v t
  end.

Definition set2 {A : Type} (m : list (list A)) (y x : nat) (v : A) : list (list A) :=
  upd y (upd x v (nth y m [])) m.

(** [Array.from({length: h}, () => Array(w).fill(v))]. *)
Definition filled {A : Type} (h w : nat) (v : A) : list (list A) :=
  repeat (repeat v w) h.

(** The index pairs [(x, y)] of [for y < h: for x < w:] in visiting order. *)
Definition rowMajor (w h : nat) : list (nat * nat) :=
  flat_map (fun y => map (fun x => (x, y)) (seq 0 w)) (seq 0 h).

(** [for j < size: for i < size: m[y + j][x + i] = true]. *)
Definition markSquare (m : list (list bool)) (x y size : nat) : list (list bool) :=
  fold_left
    (fun m' j => fold_left (fun m'' i => set2 m'' (y + j) (x + i) true) (seq 0 size) m')
    (seq 0 size) m.

(** ** Glass Dots: the Blob-Merge engine

    [drawGlassDots] of GlassDots.tsx (src/unnamed/part_002). *)

Record rgb : Type := mkRgb { r : Z; g : Z; b : Z }.

Definition ColorGrid : Type := list (list (option rgb)).

Module Blob.
Record t : Type := mk { x : nat; y : nat; size : nat }.

Definition eqb (a b : t) : bool :=
  Nat.eqb (x a) (x b) && Nat.eqb (y a) (y b) && Nat.eqb (size a) (size b).

(** The grid cell [(cx, cy)] lies in the square of the blob. *)
Definition covers (a : t) (cx cy : nat) : Prop :=
  x a <= cx < x a + size a /\ y a <= cy < y a + size a.

Definition coversb (a : t) (cx cy : nat) : bool :=
  Nat.leb (x a) cx && Nat.ltb cx (x a + size a) &&
  Nat.leb (y a) cy && Nat.ltb cy (y a + size a).

(** The square of [a] lies inside the square of [p]. *)
Definition inside (a p : t) : Prop :=
  x p <= x a /\ x a + size a <= x p + size p /\
  y p <= y a /\ y a + size a <= y p + size p.

Definition disjoint (a c : t) : Prop :=
  forall cx cy, ~ (covers a cx cy /\ covers c cx cy).
End Blob.

(** The settings of the Glass Dots panel that blob detection reads.
    They are slider positions: integers. *)
Record GlassDotsState : Type := mkGlassDotsState {
  resolution : Z;
  pixelGap : Z;
  similaritySensitivity : Z;
  lowerLimit : Z
}.

Definition colorDistance (c1 c2 : option rgb) : float :=
  match c1, c2 with
  | Some c1, Some c2 =>
      let dr := (JS.ofZ (r c1) - JS.ofZ (r c2))%float in
      let dg := (JS.ofZ (g c1) - JS.ofZ (g c2))%float in
      let db := (JS.ofZ (b c1) - JS.ofZ (b c2))%float in
      PrimFloat.sqrt (dr * dr + dg * dg + db * db)%float
  | _, _ => PrimFloat.infinity
  end.

(** [const similarityThreshold = (similaritySensitivity / 100) * 160]. *)
Definition similarityThreshold (settings : GlassDotsState) : float :=
  (JS.ofZ (similaritySensitivity settings) / 100 * 160)%float.

(** Both square-growing loops of the source have the shape
    [[
      let currentSize = 1;
      while (true) {
        const nextSize = currentSize + 1;
        if (startY + nextSize > limitY || startX + nextSize > limitX) break;
        if (!canExpand) break;
        currentSize = nextSize;
      }
    ]]
    The loop is unrolled [fuel] times; [growSquare_fuel] shows that the
    fuel the callers pass is never exhausted. *)
Fixpoint growSquare (canExpand : nat -> bool) (startX startY limitX limitY : nat)
    (fuel currentSize : nat) : nat :=
  match fuel with
  | O => currentSize
  | S fuel' =>
      let nextSize := currentSize + 1 in
      if Nat.ltb limitY (startY + nextSize) || Nat.ltb limitX (startX + nextSize)
      then currentSize
      else if canExpand currentSize
           then growSquare canExpand startX startY limitX limitY fuel' nextSize
           else currentSize
  end.

Section BlobDetection.

Variable settings : GlassDotsState.
Variable colorGrid : ColorGrid.

(** One cell of the newly exposed column or row may join the square. *)
Definition cellJoins (visited : list (list bool)) (anchorColor : option rgb)
    (checkSimilarity : bool) (cx cy : nat) : bool :=
  negb (get2 false visited cy cx) &&
  negb (checkSimilarity &&
        JS.gtb (colorDistance anchorColor (get2 None colorGrid cy cx))
               (similarityThreshold settings)).

(** The two [for] loops of one growth attempt: the new column on the
    right ([i < nextSize]) and the new row on the bottom
    ([i < currentSize]). *)
Definition canExpand (visited : list (list bool)) (anchorColor : option rgb)
    (checkSimilarity : bool) (startX startY currentSize : nat) : bool :=
  let nextSize := currentSize + 1 in
  forallb (fun i => cellJoins visited anchorColor checkSimilarity
                      (startX + currentSize) (startY + i)) (seq 0 nextSize) &&
  forallb (fun i => cellJoins visited anchorColor checkSimilarity
                      (startX + i) (startY + currentSize)) (seq 0 currentSize).

Definition findMaxBlobSize (visited : list (list bool))
    (startX startY limitX limitY : nat) (checkSimilarity : bool) : nat :=
  if (similaritySensitivity settings =? 0)%Z then 1
  else
    let anchorColor := get2 None colorGrid startY startX in
    growSquare (canExpand visited anchorColor checkSimilarity startX startY)
               startX startY limitX limitY limitX 1.

(** *** The gap-filling pass inside one blob *)

(** The circle-rectangle intersection test for local cell [(lx, ly)]
    of a blob of edge [size]. *)
Definition circleTouches (size lx ly : nat) : bool :=
  let recalibratedPixelGap := (JS.ofZ (pixelGap settings) * 16 / 100)%float in
  let effectiveGapPercent := (recalibratedPixelGap / 100)%float in
  let visualRadius := ((JS.ofNat size - effectiveGapPercent) / 2)%float in
  let centerX := (JS.ofNat size / 2)%float in
  let centerY := (JS.ofNat size / 2)%float in
  let closestX := JS.max (JS.ofNat lx) (JS.min centerX (JS.ofNat lx + 1)%float) in
  let closestY := JS.max (JS.ofNat ly) (JS.min centerY (JS.ofNat ly + 1)%float) in
  let dx := (centerX - closestX)%float in
  let dy := (centerY - closestY)%float in
  PrimFloat.ltb (dx * dx + dy * dy)%float
                (visualRadius * visualRadius - 0.001)%float.

(** [localVisited] once the circle area has been marked. *)
Definition circleMask (size : nat) : list (list bool) :=
  map (fun ly => map (fun lx => circleTouches size lx ly) (seq 0 size)) (seq 0 size).

Definition localCanExpand (localVisited : list (list bool)) (lx ly subSize : nat) : bool :=
  let nextSize := subSize + 1 in
  forallb (fun i => negb (get2 false localVisited (ly + i) (lx + subSize))) (seq 0 nextSize) &&
  forallb (fun i => negb (get2 false localVisited (ly + subSize) (lx + i))) (seq 0 subSize).

(** One iteration of "find and fill empty spots" at local cell
    [(lx, ly)] of the blob anchored at [(x, y)]. *)
Definition fillStep (x y size : nat) (st : list (list bool) * list Blob.t)
    (p : nat * nat) : list (list bool) * list Blob.t :=
  let '(localVisited, fillers) := st in
  let '(lx, ly) := p in
  if get2 false localVisited ly lx then st
  else
    let subSize := growSquare (localCanExpand localVisited lx ly) lx ly size size size 1 in
    (markSquare localVisited lx ly subSize,
     fillers ++ [Blob.mk (x + lx) (y + ly) subSize]).

(** The filler blobs pushed for the blob [{x, y, size}], in push order. *)
Definition cornerFillers (x y size : nat) : list Blob.t :=
  snd (fold_left (fillStep x y size) (rowMajor size size) (circleMask size, [])).

(** *** The row-major anchor scan *)

(** Where a blob of the output array came from.  The source pushes
    anchor blobs and corner fillers into the one array [blobs]; the
    tag is kept beside each blob so that properties can tell them
    apart, and is erased by [blobsOf]. *)
Inductive Origin : Type :=
| AnchorScan
| CornerFiller (parent : Blob.t).

Definition scanStep (gridWidth gridHeight : nat)
    (st : list (list bool) * list (Origin * Blob.t)) (p : nat * nat)
    : list (list bool) * list (Origin * Blob.t) :=
  let '(visited, blobs) := st in
  let '(x, y) := p in
  if get2 false visited y x then st
  else
    let size := findMaxBlobSize visited x y gridWidth gridHeight true in
    let blob := Blob.mk x y size in
    let visited' := markSquare visited x y size in
    let fillers := if Nat.ltb 1 size then cornerFillers x y size else [] in
    (visited', blobs ++ (AnchorScan, blob) :: map (pair (CornerFiller blob)) fillers).

Definition scanFrom (gridWidth gridHeight : nat)
    (st : list (list bool) * list (Origin * Blob.t)) (cells : list (nat * nat)) :=
  fold_left (scanStep gridWidth gridHeight) cells st.

(** Step 2 of [drawGlassDots]: the whole pass over a grid. *)
Definition detectBlobs (gridWidth gridHeight : nat) : list (Origin * Blob.t) :=
  snd (scanFrom gridWidth gridHeight
         (filled gridHeight gridWidth false, [])
         (rowMajor gridWidth gridHeight)).

End BlobDetection.

(** The array [blobs] as the source holds it. *)
Definition blobsOf (tagged : list (Origin * Blob.t)) : list Blob.t := map snd tagged.

Definition isAnchor (e : Origin * Blob.t) : bool :=
  match fst e with AnchorScan => true | CornerFiller _ => false end.

Definition anchorBlobs (tagged : list (Origin * Blob.t)) : list Blob.t :=
  blobsOf (filter isAnchor tagged).

Definition fillerBlobs (tagged : list (Origin * Blob.t)) : list Blob.t :=
  blobsOf (filter (fun e => negb (isAnchor e)) tagged).

Definition sumSquares (bs : list Blob.t) : nat :=
  fold_right (fun a acc => Blob.size a * Blob.size a + acc) 0 bs.

Definition sumSizes (bs : list Blob.t) : nat :=
  fold_right (fun a acc => Blob.size a + acc) 0 bs.

(** *** Step 1 of [drawGlassDots]: the sampled grid *)

Definition glassGridWidth (settings : GlassDotsState) : option Z :=
  JS.floor (10 + JS.ofZ (resolution settings) / 100 * 100)%float.

Definition glassGridHeight (gridWidth canvasWidth canvasHeight : Z) : option Z :=
  JS.round (JS.ofZ gridWidth * (JS.ofZ canvasHeight / JS.ofZ canvasWidth))%float.

(** [imageData] is the RGBA byte buffer of the down-sampled canvas; the
    alpha byte at [i + 3] is not read. *)
Definition sampleColorGrid (imageData : list Z) (gridWidth gridHeight : nat) : ColorGrid :=
  map (fun y =>
         map (fun x =>
                let i := (y * gridWidth + x) * 4 in
                Some (mkRgb (nth i imageData 0%Z) (nth (i + 1) imageData 0%Z)
                            (nth (i + 2) imageData 0%Z)))
             (seq 0 gridWidth))
      (seq 0 gridHeight).

(** Steps 1 and 2 together; [imageData] maps the grid dimensions to the
    buffer the canvas returns for them.  An invalid grid draws the
    background only: no blobs. *)
Definition glassDotsBlobs (settings : GlassDotsState) (canvasWidth canvasHeight : Z)
    (imageData : nat -> nat -> list Z) : option (list (Origin * Blob.t)) :=
  do gridWidth <- glassGridWidth settings;
  do gridHeight <- glassGridHeight gridWidth canvasWidth canvasHeight;
  if (gridWidth <=? 0)%Z || (gridHeight <=? 0)%Z then Some []
  else
    let w := Z.to_nat gridWidth in
    let h := Z.to_nat gridHeight in
    Some (detectBlobs settings (sampleColorGrid (imageData w h) w h) w h).

(** *** Step 3: marker selection, and the size filter of step 4 *)

(** [[...blobs].sort((a, b) => b.size - a.size)]: a stable sort by
    decreasing size.  Blobs are objects, compared by identity in the
    marker [Set]; each one carries its index in [blobs]. *)
Fixpoint insertBySize (e : nat * Blob.t) (l : list (nat * Blob.t)) : list (nat * Blob.t) :=
  match l with
  | [] => [e]
  | h :: t =>
      if Nat.ltb (Blob.size (snd e)) (Blob.size (snd h))
      then h :: insertBySize e t
      else e :: l
  end.

Definition sortedAllBlobs (blobs : list Blob.t) : list (nat * Blob.t) :=
  fold_right insertBySize [] (combine (seq 0 (length blobs)) blobs).

(** [Math.min(Math.ceil(n * 0.04), 5)] for an array of length [n]. *)
Definition markerCount (n : Z) : option Z :=
  do top4PercentIndex <- JS.ceil (JS.ofZ n * 0.04)%float;
  Some (Z.min top4PercentIndex 5).

(** [l.slice(0, k)]; a negative [k] counts from the end. *)
Definition slice0 {A : Type} (l : list A) (k : Z) : list A :=
  if (k <? 0)%Z then firstn (Z.to_nat (Z.max (Z.of_nat (length l) + k) 0)) l
  else firstn (Z.to_nat k) l.

Definition topBlobsForMarkers (blobs : list Blob.t) : option (list (nat * Blob.t)) :=
  do k <- markerCount (Z.of_nat (length blobs));
  Some (slice0 (sortedAllBlobs blobs) k).

(** [blobs.reduce((max, b) => Math.max(max, b.size), 1)]. *)
Definition maxBlobSize (blobs : list Blob.t) : nat :=
  fold_left (fun m a => Nat.max m (Blob.size a)) blobs 1.

Definition sizeThreshold (settings : GlassDotsState) (blobs : list Blob.t) : float :=
  (JS.ofZ (lowerLimit settings) / 100 * JS.ofNat (maxBlobSize blobs))%float.

Definition passesSizeFilter (settings : GlassDotsState) (blobs : list Blob.t)
    (a : Blob.t) : bool :=
  JS.geb (JS.ofNat (Blob.size a)) (sizeThreshold settings blobs).

Definition filteredBlobs (settings : GlassDotsState) (blobs : list Blob.t) : list Blob.t :=
  filter (passesSizeFilter settings blobs) blobs.

(** The average blob size, as an exact fraction. *)
Definition averageSize (blobs : list Blob.t) : Q :=
  Qmake (Z.of_nat (sumSizes blobs)) (Pos.of_nat (length blobs)).

(** ** Value Aliasing (ValueAliasing.tsx) *)

Definition rgbToCmyk (r g b : float) : float * float * float * float :=
  let r_ := (r / 255)%float in
  let g_ := (g / 255)%float in
  let b_ := (b / 255)%float in
  let k := (1 - JS.max (JS.max r_ g_) b_)%float in
  if PrimFloat.eqb k 1 then (0, 0, 0, 1)%float
  else
    let c := ((1 - r_ - k) / (1 - k))%float in
    let m := ((1 - g_ - k) / (1 - k))%float in
    let y := ((1 - b_ - k) / (1 - k))%float in
    (c, m, y, k).

Definition cmykToRgb (c m y k : float) : option (Z * Z * Z) :=
  let r := (255 * (1 - c) * (1 - k))%float in
  let g := (255 * (1 - m) * (1 - k))%float in
  let b := (255 * (1 - y) * (1 - k))%float in
  do r' <- JS.round r;
  do g' <- JS.round g;
  do b' <- JS.round b;
  Some (r', g', b').

Definition simulateCmyk (r g b : float) : option (Z * Z * Z) :=
  let '(c, m, y, k) := rgbToCmyk r g b in
  cmykToRgb c m y k.

(** [(exposure - 50) * 2]. *)
Definition calculatedExposure (exposure : Z) : float :=
  ((JS.ofZ exposure - 50) * 2)%float.

(** [contrast <= 50 ? contrast / 50 : 1 + ((contrast - 50) / 50) * 2]. *)
Definition calculatedContrast (contrast : Z) : float :=
  if PrimFloat.leb (JS.ofZ contrast) 50 then (JS.ofZ contrast / 50)%float
  else (1 + (JS.ofZ contrast - 50) / 50 * 2)%float.

(** The exposure and contrast remap of a luminance, then
    [Math.round(Math.max(0, Math.min(255, adjusted)))]. *)
Definition remapGray (exposure contrast : Z) (gray : float) : option Z :=
  let adjusted :=
    (((gray / 255 - 0.5) * calculatedContrast contrast + 0.5) * 255
     + calculatedExposure exposure)%float in
  JS.round (JS.max 0 (JS.min 255 adjusted)).

Definition originalGray (r_pixel g_pixel b_pixel : Z) : float :=
  (0.299 * JS.ofZ r_pixel + 0.587 * JS.ofZ g_pixel + 0.114 * JS.ofZ b_pixel)%float.

(** [finalGray] of [drawValueAliasingMatrix] for one monochrome cell. *)
Definition valueAliasingFinalGray (exposure contrast : Z) (r_pixel g_pixel b_pixel : Z)
    : option Z :=
  remapGray exposure contrast (originalGray r_pixel g_pixel b_pixel).

Inductive OutputType : Type := wallpaper | print.
Inductive ValueAliasingType : Type := phone | desktop.

Definition VALUE_ALIASING_RESOLUTION_MULTIPLIER : float := 71.8848%float.

Definition valueAliasingGridWidth (outputType : OutputType)
    (valueAliasingType : ValueAliasingType) (resolution : Z) : option Z :=
  let res := JS.ofZ resolution in
  let scaled :=
    match outputType with
    | print => (res * 4)%float
    | wallpaper =>
        match valueAliasingType with
        | desktop => (res * 4)%float
        | phone => (res * 1.2)%float
        end
    end in
  JS.floor (10 + scaled / 100 * VALUE_ALIASING_RESOLUTION_MULTIPLIER)%float.


(** ** The callers' clamps (components.tsx, drag handlers) *)




(** ** Glyph Mirror (Pfp.tsx) *)

(** [Math.floor((0.32 * resolution + 9) / 2) * 2 + 1]. *)
Definition pfpDiameter (resolution : Z) : option Z :=
  do half <- JS.floor ((0.32 * JS.ofZ resolution + 9) / 2)%float;
  Some (half * 2 + 1)%Z.

Section MatrixMask.

Variable diameter : nat.

Definition radius : float := (JS.ofNat diameter / 2)%float.
Definition center : float := (radius - 0.5)%float.

(** The distance of the cell centre [(x, y)] from the circle centre. *)
Definition centerDistance (x y : nat) : float :=
  PrimFloat.sqrt (JS.sq (JS.ofNat x - center) + JS.sq (JS.ofNat y - center))%float.

Definition isOriginalPixel (x y : nat) : bool :=
  PrimFloat.leb (centerDistance x y) radius.

Definition ssFactor : nat := 5.
Definition subPixelStep : float := (1 / JS.ofNat ssFactor)%float.
Definition totalSubPixels : nat := ssFactor * ssFactor.

(** One sub-sample of the 5 x 5 sub-grid of cell [(x, y)] is inside. *)
Definition subSampleInside (x y subX subY : nat) : bool :=
  let currentX :=
    (JS.ofNat x - 0.5 + subPixelStep * (JS.ofNat subX + 0.5) - center)%float in
  let currentY :=
    (JS.ofNat y - 0.5 + subPixelStep * (JS.ofNat subY + 0.5) - center)%float in
  PrimFloat.leb (PrimFloat.sqrt (currentX * currentX + currentY * currentY)%float) radius.

(** The two sub-sample loops: [pointsInside]. *)
Definition pointsInside (x y : nat) : nat :=
  fold_left
    (fun acc subY =>
       fold_left (fun acc' subX => if subSampleInside x y subX subY then S acc' else acc')
                 (seq 0 ssFactor) acc)
    (seq 0 ssFactor) 0.

(** The value [mask[y][x]] ends with. *)
Definition maskCell (isAntiAliased : bool) (x y : nat) : float :=
  if negb isAntiAliased then (if isOriginalPixel x y then 1 else 0)%float
  else if isOriginalPixel x y then 1%float
  else if PrimFloat.ltb (centerDistance x y) (radius + 1.5)%float then
    let p := pointsInside x y in
    if Nat.ltb 0 p then (JS.ofNat p / JS.ofNat totalSubPixels)%float else 0%float
  else 0%float.

Definition matrixMask (isAntiAliased : bool) : list (list float) :=
  map (fun y => map (fun x => maskCell isAntiAliased x y) (seq 0 diameter))
      (seq 0 diameter).

(** Coverage by full supersampling, as the specification describes it:
    the fraction of the 25 sub-samples of the cell that lie within the
    radius, computed for the cell whatever its centre distance. *)
Definition supersampledCoverage (x y : nat) : float :=
  (JS.ofNat (pointsInside x y) / JS.ofNat totalSubPixels)%float.

End MatrixMask.

Inductive RawPixel : Type :=
| GrayValue (v : Z)
| ColorValue (r g b : Z).

(** One cell of [gridColors]: [finalGray] of a non-null raw pixel. *)
Definition pfpFinalGray (hasImageSrc : bool) (exposure contrast : Z) (pixel : RawPixel)
    : option Z :=
  let val :=
    match pixel with
    | GrayValue v => JS.ofZ v
    | ColorValue r g b => (JS.ofZ r * 0.299 + JS.ofZ g * 0.587 + JS.ofZ b * 0.114)%float
    end in
  if hasImageSrc then remapGray exposure contrast val
  else JS.round (JS.max 0 (JS.min 255 val)).

(** ** Photo Widget (PhotoWidget.tsx) *)

Record Pixel : Type := mkPixel { pr : Z; pg : Z; pb : Z; pa : Z }.

Definition PhotoWidgetColorMatrix : Type := list (list (option Pixel)).

Definition alphaAt (imageData : list Z) (gridWidth x y : nat) : Z :=
  nth ((y * gridWidth + x) * 4 + 3) imageData 0%Z.

(** The transparency threshold of the sampler: [imageData[i + 3] <= 10]. *)
Definition ALPHA_THRESHOLD : Z := 10.

(** [fullMatrix]; on bytes, [Math.round(Math.max(0, Math.min(255, v)))]
    is integer arithmetic. *)
Definition fullMatrix (imageData : list Z) (gridWidth gridHeight : nat)
    : PhotoWidgetColorMatrix :=
  map (fun y =>
         map (fun x =>
                let i := (y * gridWidth + x) * 4 in
                if (nth (i + 3) imageData 0 <=? ALPHA_THRESHOLD)%Z then None
                else
                  let r := nth i imageData 0%Z in
                  let g := nth (i + 1) imageData 0%Z in
                  let b := nth (i + 2) imageData 0%Z in
                  Some (mkPixel (Z.max 0 (Z.min 255 r)) (Z.max 0 (Z.min 255 g))
                                (Z.max 0 (Z.min 255 b)) (nth (i + 3) imageData 0%Z)))
             (seq 0 gridWidth))
      (seq 0 gridHeight).

(** The bounding box [(minX, minY, maxX, maxY)] of the non-null cells. *)
Definition boundsStep (m : PhotoWidgetColorMatrix) (bb : Z * Z * Z * Z) (p : nat * nat)
    : Z * Z * Z * Z :=
  let '(minX, minY, maxX, maxY) := bb in
  let '(x, y) := p in
  match get2 None m y x with
  | Some _ =>
      let x' := Z.of_nat x in
      let y' := Z.of_nat y in
      ((if x' <? minX then x' else minX), (if y' <? minY then y' else minY),
       (if maxX <? x' then x' else maxX), (if maxY <? y' then y' else maxY))%Z
  | None => bb
  end.

Definition contentBounds (m : PhotoWidgetColorMatrix) (gridWidth gridHeight : nat)
    : Z * Z * Z * Z :=
  fold_left (boundsStep m) (rowMajor gridWidth gridHeight)
            (Z.of_nat gridWidth, Z.of_nat gridHeight, -1, -1)%Z.

(** [colorMatrix]: the full matrix cropped to its content, or null. *)
Definition colorMatrix (imageData : list Z) (gridWidth gridHeight : nat)
    : option PhotoWidgetColorMatrix :=
  let full := fullMatrix imageData gridWidth gridHeight in
  let '(minX, minY, maxX, maxY) := contentBounds full gridWidth gridHeight in
  if (maxX =? -1)%Z then None
  else
    let contentWidth := Z.to_nat (maxX - minX + 1) in
    let contentHeight := Z.to_nat (maxY - minY + 1) in
    Some (map (fun y =>
                 map (fun x => get2 None full (y + Z.to_nat minY) (x + Z.to_nat minX))
                     (seq 0 contentWidth))
              (seq 0 contentHeight)).

Inductive Shape : Type :=
| Arc (cx cy radius : float)
| Rect (x y w h : float).

(** One [ctx.fill()] or [ctx.fillRect] of the cell loop, with the
    [fillStyle] in force and the matrix cell it was issued for. *)
Record Dot : Type := mkDot {
  cellX : nat;
  cellY : nat;
  fillStyle : Z * Z * Z;
  shape : Shape
}.

Definition PADDING : float := 50%float.

Section DrawPhotoWidget.

Variables (width height : float) (pixelGap : Z) (isCircular isAntiAliased : bool).
Variable matrix : PhotoWidgetColorMatrix.

Definition pwGridHeight : nat := length matrix.
Definition pwGridWidth : nat := length (nth 0 matrix []).

Definition drawCell (p : nat * nat) : list Dot :=
  let '(x, y) := p in
  let gridHeight := JS.ofNat pwGridHeight in
  let gridWidth := JS.ofNat pwGridWidth in
  let drawableWidth := (width - PADDING * 2)%float in
  let drawableHeight := (height - PADDING * 2)%float in
  let matrixAspect := (gridWidth / gridHeight)%float in
  let fits := PrimFloat.leb (drawableWidth / matrixAspect)%float drawableHeight in
  let renderAreaWidth :=
    if fits then drawableWidth else (drawableHeight * matrixAspect)%float in
  let renderAreaHeight :=
    if fits then (drawableWidth / matrixAspect)%float else drawableHeight in
  let offsetX := (PADDING + (drawableWidth - renderAreaWidth) / 2)%float in
  let offsetY := (PADDING + (drawableHeight - renderAreaHeight) / 2)%float in
  let cellWidth := (renderAreaWidth / gridWidth)%float in
  let cellHeight := (renderAreaHeight / gridHeight)%float in
  let scaledPixelGap := (JS.ofZ pixelGap * 0.84)%float in
  let gapRatio := (0.28 * (scaledPixelGap * 5) / 100 * 0.2765)%float in
  let pixelWidth := (cellWidth * (1 - gapRatio))%float in
  let pixelHeight := (cellHeight * (1 - gapRatio))%float in
  match get2 None matrix y x with
  | None => []
  | Some pixel =>
      let coverage := (JS.ofZ (pa pixel) / 255)%float in
      let sizeMultiplier := PrimFloat.sqrt coverage in
      let finalPixelWidth :=
        if isAntiAliased then (pixelWidth * sizeMultiplier)%float else pixelWidth in
      let finalPixelHeight :=
        if isAntiAliased then (pixelHeight * sizeMultiplier)%float else pixelHeight in
      let fill := (pr pixel, pg pixel, pb pixel) in
      let cellX' := (offsetX + JS.ofNat x * cellWidth)%float in
      let cellY' := (offsetY + JS.ofNat y * cellHeight)%float in
      if isCircular then
        let radius := (JS.min finalPixelWidth finalPixelHeight / 2)%float in
        if JS.gtb radius 0.1%float
        then [mkDot x y fill
                (Arc (cellX' + cellWidth / 2)%float (cellY' + cellHeight / 2)%float radius)]
        else []
      else
        if JS.gtb finalPixelWidth 0.1%float && JS.gtb finalPixelHeight 0.1%float
        then [mkDot x y fill
                (Rect (cellX' + (cellWidth - finalPixelWidth) / 2)%float
                      (cellY' + (cellHeight - finalPixelHeight) / 2)%float
                      finalPixelWidth finalPixelHeight)]
        else []
  end.

(** The dots [drawPhotoWidgetMatrix] paints over the background. *)
Definition drawPhotoWidgetMatrix : list Dot :=
  if Nat.eqb pwGridHeight 0 || Nat.eqb pwGridWidth 0 then []
  else flat_map drawCell (rowMajor pwGridWidth pwGridHeight).

End DrawPhotoWidget.

(** The Photo Widget from the sampled buffer to the painted dots; a null
    [colorMatrix] paints nothing. *)
Definition renderPhotoWidget (width height : float) (pixelGap : Z)
    (isCircular isAntiAliased : bool) (imageData : list Z) (gridWidth gridHeight : nat)
    : list Dot :=
  match colorMatrix imageData gridWidth gridHeight with
  | None => []
  | Some m => drawPhotoWidgetMatrix width height pixelGap isCircular isAntiAliased m
  end.

(** ** Vocabulary of the properties *)

(** An array of [h] rows of [w] cells each. *)
Definition hasShape {A : Type} (m : list (list A)) (w h : nat) : Prop :=
  length m = h /\ Forall (fun row => length row = w) m.

(** All cells of the square of edge [s] at [(x0, y0)] are unvisited. *)
Definition unvisitedSquare (visited : list (list bool)) (x0 y0 s : nat) : Prop :=
  forall i j, i < s -> j < s -> get2 false visited (y0 + j) (x0 + i) = false.

(** A blob lies in a [w] x [h] grid and is not empty. *)
Definition inGrid (w h : nat) (a : Blob.t) : Prop :=
  1 <= Blob.size a /\ Blob.x a + Blob.size a <= w /\ Blob.y a + Blob.size a <= h.

(** What holds of the state [(visited, blobs)] between two iterations of
    the scan over a [w] x [h] grid. *)
Record ScanInv (w h : nat) (visited : list (list bool))
    (out : list (Origin * Blob.t)) : Prop := {
  inv_shape : hasShape visited w h;
  inv_inGrid : Forall (inGrid w h) (blobsOf out);
  inv_visited : forall cx cy,
    get2 false visited cy cx = true <->
    exists a, In a (anchorBlobs out) /\ Blob.covers a cx cy;
  inv_disjoint : ForallOrdPairs Blob.disjoint (anchorBlobs out);
  inv_fillers : forall p f,
    In (CornerFiller p, f) out -> In (AnchorScan, p) out /\ Blob.inside f p
}.

(** [f] holds on [lo, lo + 1, ..., lo + p - 1]. *)
Fixpoint forall_range (p : positive) (f : Z -> bool) (lo : Z) : bool :=
  match p with
  | xH => f lo
  | xO q => forall_range q f lo && forall_range q f (lo + Zpos q)
  | xI q => f lo && forall_range q f (lo + 1) && forall_range q f (lo + 1 + Zpos q)
  end.

Fixpoint blobs_eqb (l1 l2 : list Blob.t) : bool :=
  match l1, l2 with
  | [], [] => true
  | a :: l1', c :: l2' => Blob.eqb a c && blobs_eqb l1' l2'
  | _, _ => false
  end.

(** The channels of a sampled colour are bytes. *)
Definition isByte (v : Z) : Prop := (0 <= v <= 255)%Z.

Definition byteColor (c : rgb) : Prop := isByte (r c) /\ isByte (g c) /\ isByte (b c).

Definition subSelfOk (v : Z) : bool :=
  PrimFloat.Leibniz.eqb (JS.ofZ v - JS.ofZ v)%float 0%float.

Definition red : option rgb := Some (mkRgb 255 0 0).

(** The blobs of a call of [drawGlassDots], none when it stops early. *)
Definition blobsDrawn (o : option (list (Origin * Blob.t))) : list (Origin * Blob.t) :=
  match o with
  | Some out => out
  | None => []
  end.

(** The phone wallpaper (1260 x 2800) at resolution 0, a 10 x 22 grid,
    on a solid red image, at full sensitivity and no gap. *)
Definition solidImage : list Z := concat (repeat [255; 0; 0; 255]%Z 220).

Definition solidPass : list (Origin * Blob.t) :=
  blobsDrawn (glassDotsBlobs (mkGlassDotsState 0 0 100 0) 1260 2800 (fun _ _ => solidImage)).

(** Two positive finite numbers, given by mantissa and exponent, in
    increasing order. *)
Definition keyLe (e1 : Z) (m1 : positive) (e2 : Z) (m2 : positive) : Prop :=
  (e1 < e2)%Z \/ (e1 = e2 /\ (m1 <= m2)%positive).

(** The threshold of an integer sensitivity [s] is a positive finite
    number and the threshold of [s + 1] is not below it. *)
Definition thresholdOf (s : Z) : float :=
  similarityThreshold (mkGlassDotsState 0 0 s 0).

Definition thresholdStepOk (s : Z) : bool :=
  match Prim2SF (thresholdOf s), Prim2SF (thresholdOf (s + 1)) with
  | S754_finite false m1 e1, S754_finite false m2 e2 =>
      (e1 <? e2)%Z || ((e1 =? e2)%Z && (m1 <=? m2)%positive)
  | _, _ => false
  end.

(** The desktop wallpaper (3840 x 2160) at resolution 0, a 10 x 6 grid:
    four 2 x 2 patches of close reds on the left, black and full red
    alternating everywhere else. *)
Definition patchImage : list Z :=
  flat_map (fun v => [v; 0; 0; 255]%Z)
    (concat
       [[0; 0; 30; 40; 255; 0; 255; 0; 255; 0];
        [0; 0; 30; 40; 0; 255; 0; 255; 0; 255];
        [30; 30; 30; 40; 255; 0; 255; 0; 255; 0];
        [30; 30; 30; 40; 0; 255; 0; 255; 0; 255];
        [255; 0; 255; 0; 255; 0; 255; 0; 255; 0];
        [0; 255; 0; 255; 0; 255; 0; 255; 0; 255]]%Z).

Definition patchGrid : ColorGrid := sampleColorGrid patchImage 10 6.

Definition patchPass (sens : Z) : list Blob.t :=
  blobsOf (blobsDrawn (glassDotsBlobs (mkGlassDotsState 0 0 sens 0) 3840 2160
                                      (fun _ _ => patchImage))).

(** The desktop wallpaper at resolution 0 on a fully transparent image:
    every byte of the buffer is 0. *)
Definition clearImage : list Z := repeat 0%Z 240.

Definition isSome (o : option Z) (v : Z) : bool :=
  match o with
  | Some z => (z =? v)%Z
  | None => false
  end.

(** A byte as a fraction of 255: [v / 255]. *)
Definition unit255 (v : Z) : float := (JS.ofZ v / 255)%float.

(** Dividing by 255 keeps bytes in order and never gives NaN. *)
Definition unit255Ok (a c : Z) : bool :=
  Bool.eqb (PrimFloat.ltb (unit255 a) (unit255 c)) (a <? c)%Z &&
  negb (PrimFloat.is_nan (unit255 a)).

(** One channel of [simulateCmyk] when the largest channel is [M]. *)
Definition channelRoundTrip (v M : Z) : option Z :=
  let k := (1 - unit255 M)%float in
  if PrimFloat.eqb k 1 then JS.round (255 * (1 - 0) * (1 - 1))%float
  else JS.round (255 * (1 - (1 - unit255 v - k) / (1 - k)) * (1 - k))%float.

(** Every channel not above the largest comes back unchanged. *)
Definition channelOk (M v : Z) : bool :=
  if (M <? v)%Z then true else isSome (channelRoundTrip v M) v.

(** At the neutral sliders the remap leaves a luminance unchanged, in
    Value Aliasing and in Glyph Mirror. *)
Definition neutralOk (luma : Z) : bool :=
  isSome (remapGray 50 50 (JS.ofZ luma)) luma &&
  isSome (pfpFinalGray true 50 50 (GrayValue luma)) luma.

Definition pfpDiameters : list nat :=
  [9; 11; 13; 15; 17; 19; 21; 23; 25; 27; 29; 31; 33; 35; 37; 39; 41].

Definition diameterOk (resolution : Z) : bool :=
  match pfpDiameter resolution with
  | Some d => existsb (fun d' => (Z.of_nat d' =? d)%Z) pfpDiameters
  | None => false
  end.

(** What full supersampling gives on a cell the shortcut sets to 1. *)
Definition shortcutCellOk (d x y : nat) : bool :=
  implb (isOriginalPixel d x y)
    (let p := pointsInside d x y in
     Nat.leb 13 p && Nat.leb p 25 &&
     implb (PrimFloat.leb (centerDistance d x y) (radius d - 0.6)%float) (Nat.eqb p 25)).

Definition shortcutMaskOk (d : nat) : bool :=
  forallb (fun y => forallb (fun x => shortcutCellOk d x y) (seq 0 d)) (seq 0 d).

Definition twoByTwo : list Z :=
  [255; 0; 0; 255;  0; 255; 0; 5;  0; 0; 255; 11;  9; 9; 9; 10]%Z.

(** The order of [sortedAllBlobs]: decreasing size and, the sort being
    stable, increasing index in [blobs] among blobs of one size. *)
Definition ranksBefore (e1 e2 : nat * Blob.t) : Prop :=
  Blob.size (snd e2) < Blob.size (snd e1) \/
  (Blob.size (snd e1) = Blob.size (snd e2) /\ fst e1 < fst e2).

(** On every array length up to 100000 the count computed in doubles is
    the exact [min(ceil(n / 25), 5)]. *)
Definition markerCountOk (n : Z) : bool :=
  isSome (markerCount n) (Z.min ((n + 24) / 25) 5).

(** The core uses the sliders as given: the Glass Dots grid is
    [10 + resolution] cells wide on the whole slider range. *)
Definition gridWidthOk (resolution : Z) : bool :=
  isSome (glassGridWidth (mkGlassDotsState resolution 0 0 0)) (10 + resolution).

(** * The panels around the core

    The state the panels keep and the parts of the drawing functions
    that the sections above leave out. *)

(** ** Undo history (hooks.ts)

    [useHistory] keeps the committed settings of every panel: an array
    [history] of states and the [index] of the current one.  A callback
    reads the pair of the render it was created in and schedules the
    next pair.  The functions [setState], [undo], [redo], [reset] and
    [resetHistory] below give the pair that one call schedules from the
    pair it reads; [render] composes the calls made with the callbacks
    of one render, which all read the same pair.  [state] is
    [history[index]], [undefined] outside the array. *)

Module History.

Section UseHistory.

(** [T] is the state type, [P] the type of [Partial<T>] overrides and
    [spread initial override] the object [{...initial, ...override}].
    [sameJson a b] is [JSON.stringify(a) === JSON.stringify(b)]. *)
Variables T P : Type.
Variable spread : T -> option P -> T.
Variable sameJson : T -> T -> bool.
Variable initialState : T.

Record t : Type := mk { history : list T; index : nat }.

(** [useState([initialState])], [useState(0)]. *)
Definition init : t := mk [initialState] 0.

Definition state (h : t) : option T := nth_error (history h) (index h).

(** [React.SetStateAction<T>]: a new state, or a function of the
    current one. *)
Inductive SetStateAction : Type :=
| Value (v : T)
| Updater (f : T -> T).

(** [history.slice(0, index + 1)] followed by [push]. *)
Definition pushState (newState : T) (h : t) : t :=
  let newHistory := firstn (index h + 1) (history h) ++ [newState] in
  mk newHistory (length newHistory - 1).

(** [setState]; nothing is said ([None]) when [history[index]] is
    undefined. *)
Definition setState (action : SetStateAction) (h : t) : option t :=
  do current <- state h;
  let resolvedState :=
    match action with
    | Value v => v
    | Updater f => f current
    end in
  if sameJson resolvedState current then Some h
  else Some (pushState resolvedState h).

Definition undo (h : t) : t :=
  if Nat.ltb 0 (index h) then mk (history h) (index h - 1) else h.

Definition redo (h : t) : t :=
  if Nat.ltb (index h) (length (history h) - 1) then mk (history h) (index h + 1) else h.

Definition reset (overrideState : option P) (h : t) : t :=
  pushState (spread initialState overrideState) h.

Definition resetHistory (newState : T) (h : t) : t := mk [newState] 0.

Definition canUndo (h : t) : bool := Nat.ltb 0 (index h).
Definition canRedo (h : t) : bool := Nat.ltb (index h) (length (history h) - 1).

(** The callbacks a panel can invoke, and one call in a render of its
    own. *)
Inductive Op : Type :=
| OpSetState (action : SetStateAction)
| OpUndo
| OpRedo
| OpReset (overrideState : option P)
| OpResetHistory (newState : T).

Definition step (h : t) (op : Op) : option t :=
  match op with
  | OpSetState action => setState action h
  | OpUndo => Some (undo h)
  | OpRedo => Some (redo h)
  | OpReset o => Some (reset o h)
  | OpResetHistory s => Some (resetHistory s h)
  end.

(** What a callback hands to [setHistory] and to [setIndex]: both are
    called with a value, never with an updater; [None] where the
    callback does not call the setter. *)
Record Writes : Type := mkWrites {
  toHistory : option (list T);
  toIndex : option nat
}.

(** [setHistory(newHistory); setIndex(newHistory.length - 1)]. *)
Definition writeBoth (h : t) : Writes := mkWrites (Some (history h)) (Some (index h)).

(** The setters a callback calls, and with what: the callback reads the
    [history] and the [index] of the render that created it. *)
Definition writesOf (rendered : t) (op : Op) : option Writes :=
  match op with
  | OpSetState action =>
      do current <- state rendered;
      let resolvedState :=
        match action with
        | Value v => v
        | Updater f => f current
        end in
      if sameJson resolvedState current then Some (mkWrites None None)
      else Some (writeBoth (pushState resolvedState rendered))
  | OpUndo =>
      Some (if Nat.ltb 0 (index rendered)
            then mkWrites None (Some (index rendered - 1))
            else mkWrites None None)
  | OpRedo =>
      Some (if Nat.ltb (index rendered) (length (history rendered) - 1)
            then mkWrites None (Some (index rendered + 1))
            else mkWrites None None)
  | OpReset o => Some (writeBoth (pushState (spread initialState o) rendered))
  | OpResetHistory s => Some (mkWrites (Some [s]) (Some 0))
  end.

(** React applies the queued values in order: the last value handed to
    a setter is the next state. *)
Definition commit (w : Writes) (pending : t) : t :=
  mk (match toHistory w with Some l => l | None => history pending end)
     (match toIndex w with Some i => i | None => index pending end).

(** The calls made with the callbacks of one render, in order, and the
    state of the next render. *)
Fixpoint calls (rendered : t) (ops : list Op) (pending : t) : option t :=
  match ops with
  | [] => Some pending
  | op :: ops' => do w <- writesOf rendered op; calls rendered ops' (commit w pending)
  end.

Definition render (ops : list Op) (h : t) : option t := calls h ops h.

(** A sequence of renders, each with the calls made before the next. *)
Fixpoint renders (batches : list (list Op)) (h : t) : option t :=
  match batches with
  | [] => Some h
  | ops :: batches' => do h' <- render ops h; renders batches' h'
  end.

(** The current index points into the array. *)
Definition wellFormed (h : t) : Prop := index h < length (history h).

End UseHistory.

Arguments mk {T} history index.
Arguments history {T} _.
Arguments index {T} _.
Arguments init {T} initialState.
Arguments state {T} h.
Arguments Value {T} v.
Arguments Updater {T} f.
Arguments pushState {T} newState h.
Arguments setState {T} sameJson action h.
Arguments undo {T} h.
Arguments redo {T} h.
Arguments reset {T P} spread initialState overrideState h.
Arguments resetHistory {T} newState h.
Arguments canUndo {T} h.
Arguments canRedo {T} h.
Arguments OpSetState {T P} action.
Arguments OpUndo {T P}.
Arguments OpRedo {T P}.
Arguments OpReset {T P} overrideState.
Arguments OpResetHistory {T P} newState.
Arguments step {T P} spread sameJson initialState h op.
Arguments mkWrites {T} toHistory toIndex.
Arguments toHistory {T} _.
Arguments toIndex {T} _.
Arguments writeBoth {T} h.
Arguments writesOf {T P} spread sameJson initialState rendered op.
Arguments commit {T} w pending.
Arguments calls {T P} spread sameJson initialState rendered ops pending.
Arguments render {T P} spread sameJson initialState ops h.
Arguments renders {T P} spread sameJson initialState batches h.
Arguments wellFormed {T} h.

End History.

(** ** The Glass Dots panel: presets and reset (GlassDots.tsx)

    The panel keeps one [GlassDotsState] per device in a
    [GlassDotsSettingsContainer].  Objects are records; a
    [Partial<GlassDotsState>] is a record of optional fields and the
    spread [{...s, ...p}] overrides the fields that [p] has. *)

Module GlassDotsPanel.

Record State : Type := mkState {
  resolution : Z;
  pixelGap : Z;
  blurAmount : Z;
  isMonochrome : bool;
  cropOffsetX : float;
  cropOffsetY : float;
  isGrainEnabled : bool;
  grainAmount : Z;
  grainSize : Z;
  ior : Z;
  similaritySensitivity : Z;
  isBackgroundBlurEnabled : bool;
  lowerLimit : Z;
  isMarkerEnabled : bool
}.

Record Partial : Type := mkPartial {
  resolution_ : option Z;
  pixelGap_ : option Z;
  blurAmount_ : option Z;
  isMonochrome_ : option bool;
  cropOffsetX_ : option float;
  cropOffsetY_ : option float;
  isGrainEnabled_ : option bool;
  grainAmount_ : option Z;
  grainSize_ : option Z;
  ior_ : option Z;
  similaritySensitivity_ : option Z;
  isBackgroundBlurEnabled_ : option bool;
  lowerLimit_ : option Z;
  isMarkerEnabled_ : option bool
}.

Definition override {A : Type} (v : A) (o : option A) : A :=
  match o with
  | Some v' => v'
  | None => v
  end.

(** [{...s, ...p}]. *)
Definition spread (s : State) (p : Partial) : State :=
  mkState
    (override (resolution s) (resolution_ p))
    (override (pixelGap s) (pixelGap_ p))
    (override (blurAmount s) (blurAmount_ p))
    (override (isMonochrome s) (isMonochrome_ p))
    (override (cropOffsetX s) (cropOffsetX_ p))
    (override (cropOffsetY s) (cropOffsetY_ p))
    (override (isGrainEnabled s) (isGrainEnabled_ p))
    (override (grainAmount s) (grainAmount_ p))
    (override (grainSize s) (grainSize_ p))
    (override (ior s) (ior_ p))
    (override (similaritySensitivity s) (similaritySensitivity_ p))
    (override (isBackgroundBlurEnabled s) (isBackgroundBlurEnabled_ p))
    (override (lowerLimit s) (lowerLimit_ p))
    (override (isMarkerEnabled s) (isMarkerEnabled_ p)).

Definition DEFAULT_SLIDER_VALUE : Z := 50.

Definition GLASSDOTS_INITIAL_STATE : State :=
  mkState DEFAULT_SLIDER_VALUE DEFAULT_SLIDER_VALUE 50 false 0.5 0.5 true
          DEFAULT_SLIDER_VALUE 0 50 50 false 0 false.

(** [GlassDotsSettingsContainer]: the settings of the two devices. *)
Record Container : Type := mkContainer { forPhone : State; forDesktop : State }.

(** [s[wallpaperType]] and [{...s, [wallpaperType]: v}]. *)
Definition lookup (s : Container) (wallpaperType : ValueAliasingType) : State :=
  match wallpaperType with
  | phone => forPhone s
  | desktop => forDesktop s
  end.

Definition update (s : Container) (wallpaperType : ValueAliasingType) (v : State)
    : Container :=
  match wallpaperType with
  | phone => mkContainer v (forDesktop s)
  | desktop => mkContainer (forPhone s) v
  end.

Definition FULL_GLASSDOTS_INITIAL_STATE : Container :=
  mkContainer GLASSDOTS_INITIAL_STATE GLASSDOTS_INITIAL_STATE.

(** A preset; its [code] and [label] are only displayed and are left
    out. *)
Record PresetDefinition : Type := mkPreset {
  id : Z;
  desktopPreset : Partial;
  phonePreset : Partial
}.

(** The object literal of a preset, in the order the source writes its
    fields. *)
Definition preset (resolution pixelGap lowerLimit similaritySensitivity blurAmount ior
    grainSize grainAmount : Z) (isMarkerEnabled isBackgroundBlurEnabled isMonochrome : bool)
    : Partial :=
  mkPartial (Some resolution) (Some pixelGap) (Some blurAmount) (Some isMonochrome)
            None None None (Some grainAmount) (Some grainSize) (Some ior)
            (Some similaritySensitivity) (Some isBackgroundBlurEnabled)
            (Some lowerLimit) (Some isMarkerEnabled).

Definition PRESETS_DATA : list PresetDefinition :=
  [ mkPreset 1 (preset 24 32 0 90 20 64 0 64 true true false)
               (preset 8 36 0 90 24 64 0 40 true true false);
    mkPreset 2 (preset 96 50 0 0 24 12 0 42 false false false)
               (preset 36 36 0 0 20 12 0 28 false false false);
    mkPreset 3 (preset 52 32 0 100 84 100 8 60 true true false)
               (preset 6 32 0 100 84 100 0 48 true true false);
    mkPreset 4 (preset 20 36 0 96 12 28 21 72 true false true)
               (preset 3 64 20 96 16 24 10 60 true false true);
    mkPreset 5 (preset 96 64 0 0 6 100 0 36 false true false)
               (preset 52 64 0 0 6 100 0 20 false true false);
    mkPreset 6 (preset 0 67 36 100 16 32 0 50 true false false)
               (preset 0 56 21 100 25 36 0 36 true false false);
    mkPreset 7 (preset 82 64 0 78 12 80 0 40 false false false)
               (preset 32 36 0 90 24 56 0 50 false false false);
    mkPreset 8 (preset 7 50 40 92 25 80 10 64 false true false)
               (preset 4 50 32 67 24 87 4 64 false true false);
    mkPreset 9 (preset 40 60 0 92 18 75 0 20 true false false)
               (preset 8 0 14 67 17 84 0 20 true false false) ]%Z.

(** [{ cropOffsetX: s.cropOffsetX, cropOffsetY: s.cropOffsetY }]. *)
Definition currentCrop (s : State) : Partial :=
  mkPartial None None None None (Some (cropOffsetX s)) (Some (cropOffsetY s))
            None None None None None None None None.

(** [{ isGrainEnabled: true }]. *)
Definition grainEnabled : Partial :=
  mkPartial None None None None None None (Some true) None None None None None None None.

(** [targetType === 'phone' ? preset.phone : preset.desktop]. *)
Definition presetSettings (p : PresetDefinition) (targetType : ValueAliasingType) : Partial :=
  match targetType with
  | phone => phonePreset p
  | desktop => desktopPreset p
  end.

(** The updater [applyPreset] hands to [setGlassDotsSettings]. *)
Definition applyPreset (p : PresetDefinition) (targetType : ValueAliasingType)
    (s : Container) : Container :=
  let finalSettings :=
    spread (spread (spread (lookup FULL_GLASSDOTS_INITIAL_STATE targetType)
                           (currentCrop (lookup s targetType)))
                   (presetSettings p targetType))
           grainEnabled in
  update s targetType finalSettings.

(** [PRESETS_DATA.find(p => p.id === id)]. *)
Definition findPreset (presetId : Z) : option PresetDefinition :=
  find (fun p => (id p =? presetId)%Z) PRESETS_DATA.

(** [activePresetId ? PRESETS_DATA.find(...) : null]: the number 0 and
    [null] are falsy. *)
Definition presetToRestore (activePresetId : option Z) : option PresetDefinition :=
  match activePresetId with
  | Some presetId => if (presetId =? 0)%Z then None else findPreset presetId
  | None => None
  end.

(** [handleResetCurrent]: the new settings and the new [activePresetId]. *)
Definition handleResetCurrent (wallpaperType : ValueAliasingType)
    (activePresetId : option Z) (s : Container) : Container * option Z :=
  let newSettings := lookup FULL_GLASSDOTS_INITIAL_STATE wallpaperType in
  let newSettings' :=
    match presetToRestore activePresetId with
    | Some p => spread (spread newSettings (presetSettings p wallpaperType)) grainEnabled
    | None => newSettings
    end in
  (update s wallpaperType (spread newSettings' (currentCrop (lookup s wallpaperType))),
   match presetToRestore activePresetId with
   | Some _ => activePresetId
   | None => None
   end).

End GlassDotsPanel.

(** ** The paths from the controls to the core (components.tsx, GlassDots.tsx)

    [drawGlassDots] is called with the live settings of the panel for
    the preview and with the committed settings, the current state of
    [useHistory], for the download.  The Resolution slider writes the
    live settings at every change of its range input and calls
    [handleCommit], which clamps, on mouse-up and touch-end only. *)

Module GlassDotsControls.

Section Controls.

(** [JSON.stringify(a) === JSON.stringify(b)] of [useHistory]. *)
Variable sameJson : GlassDotsPanel.Container -> GlassDotsPanel.Container -> bool.















End Controls.


End GlassDotsControls.

(** ** Value Aliasing: the dots (ValueAliasing.tsx) *)

(** [adjusted] of the luminance remap, before it is clamped. *)
Definition adjustedGray (exposure contrast : Z) (gray : float) : float :=
  (((gray / 255 - 0.5) * calculatedContrast contrast + 0.5) * 255
   + calculatedExposure exposure)%float.

(** *** The dots of [drawValueAliasingMatrix] *)

Inductive WallpaperBgKey : Type := black | white.

(** One [ctx.arc(centerX, centerY, finalRadius, 0, 2 * Math.PI)] and
    [ctx.fill()], with the [fillStyle] assigned just before; the colour
    is [None] when a channel of the [rgb(...)] string is not a number
    and the canvas ignores the assignment. *)
Record Disc : Type := mkDisc {
  discFill : option (Z * Z * Z);
  discCenterX : float;
  discCenterY : float;
  discRadius : float
}.

Section ValueAliasingCell.

Variable outputType : OutputType.
Variables isEasterEggActive isMonochrome isPureValue : bool.
Variable background : WallpaperBgKey.
Variables exposure contrast lowerLimit : Z.
Variables pxRenderW pxRenderH calculatedValueAliasingPixelGap : float.

Definition shouldSimulateCmyk : bool :=
  match outputType with
  | print => true
  | wallpaper => false
  end.

Definition useEffectivePureValue : bool := isEasterEggActive || isPureValue.

(** The colour the source puts into [ctx.fillStyle] for [r, g, b]. *)
Definition dotFill (r g b : Z) : option (Z * Z * Z) :=
  if shouldSimulateCmyk then simulateCmyk (JS.ofZ r) (JS.ofZ g) (JS.ofZ b)
  else Some (r, g, b).

(** The disc of cell [(x, y)], drawn if [finalRadius > 0.1]. *)
Definition drawDisc (x y : nat) (sizeMultiplier : float) (fill : option (Z * Z * Z))
    : list Disc :=
  let baseRadius := (JS.min pxRenderW pxRenderH / 2)%float in
  let finalRadius := (baseRadius * sizeMultiplier)%float in
  if JS.gtb finalRadius 0.1%float then
    let drawX := (JS.ofNat x * (pxRenderW + calculatedValueAliasingPixelGap))%float in
    let drawY := (JS.ofNat y * (pxRenderH + calculatedValueAliasingPixelGap))%float in
    [mkDisc fill (drawX + pxRenderW / 2)%float (drawY + pxRenderH / 2)%float finalRadius]
  else [].

(** The body of the cell loop for the pixel [(r_pixel, g_pixel,
    b_pixel)].  When [finalGray] is NaN every comparison with it is
    false and nothing is drawn. *)
Definition valueAliasingCell (x y : nat) (r_pixel g_pixel b_pixel : Z) : list Disc :=
  if isMonochrome then
    match valueAliasingFinalGray exposure contrast r_pixel g_pixel b_pixel with
    | None => []
    | Some finalGray =>
        let threshold := (JS.ofZ lowerLimit / 100)%float in
        if isEasterEggActive then
          let sizeMultiplier := ((255 - JS.ofZ finalGray) / 255)%float in
          if JS.gtb sizeMultiplier threshold
          then drawDisc x y sizeMultiplier (dotFill 0 0 0)
          else []
        else
          let isLightMode := match background with white => true | black => false end in
          let sizeMultiplier :=
            if isLightMode then ((255 - JS.ofZ finalGray) / 255)%float
            else (JS.ofZ finalGray / 255)%float in
          if JS.gtb sizeMultiplier threshold then
            let '(r, g, b) :=
              if useEffectivePureValue
              then (if isLightMode then (0, 0, 0) else (255, 255, 255))%Z
              else (finalGray, finalGray, finalGray) in
            drawDisc x y sizeMultiplier (dotFill r g b)
          else []
    end
  else [].

(** The two loops over the sampled buffer [data]. *)
Definition valueAliasingDots (data : list Z) (valueAliasingGridWidth valueAliasingGridHeight : nat)
    : list Disc :=
  flat_map
    (fun p =>
       let '(x, y) := p in
       let i := (y * valueAliasingGridWidth + x) * 4 in
       valueAliasingCell x y (nth i data 0%Z) (nth (i + 1) data 0%Z) (nth (i + 2) data 0%Z))
    (rowMajor valueAliasingGridWidth valueAliasingGridHeight).

End ValueAliasingCell.

(** At [lowerLimit] 100 the threshold is 1, which no size multiplier of
    a byte exceeds. *)
Definition fullLimitOk (finalGray : Z) : bool :=
  negb (JS.gtb ((255 - JS.ofZ finalGray) / 255)%float (JS.ofZ 100 / 100)%float) &&
  negb (JS.gtb (JS.ofZ finalGray / 255)%float (JS.ofZ 100 / 100)%float).

(** The grid width computed in doubles is the exact
    [10 + floor(resolution * 1.2 * 71.8848 / 100)] on the phone and
    [10 + floor(resolution * 4 * 71.8848 / 100)] elsewhere. *)
Definition exactValueAliasingGridWidth (outputType : OutputType)
    (valueAliasingType : ValueAliasingType) (resolution : Z) : Z :=
  match outputType, valueAliasingType with
  | wallpaper, phone => (10 + resolution * 8626176 / 10000000)%Z
  | _, _ => (10 + resolution * 2875392 / 1000000)%Z
  end.

Definition valueAliasingGridWidthOk (resolution : Z) : bool :=
  forallb (fun o => forallb (fun t =>
      isSome (valueAliasingGridWidth o t resolution)
             (exactValueAliasingGridWidth o t resolution))
    [phone; desktop]) [wallpaper; print].

(** ** Glyph Mirror and Photo Widget: the grids *)

(** *** The grid of Glyph Mirror without and with its colours *)

(** [generateDefaultGridData]: the gray 107 on every covered cell. *)
Definition generateDefaultGridData (mask : list (list float)) : list (list (option RawPixel)) :=
  map (map (fun coverage => if JS.gtb coverage 0 then Some (GrayValue 107) else None)) mask.

(** [gridColors]: [null] on a null cell, else the [finalGray] that the
    string [rgb(finalGray, finalGray, finalGray)] is built from. *)
Definition gridColors (hasImageSrc : bool) (exposure contrast : Z)
    (rawPixelGrid : list (list (option RawPixel))) : list (list (option (option Z))) :=
  map (map (fun pixel =>
              match pixel with
              | None => None
              | Some p => Some (pfpFinalGray hasImageSrc exposure contrast p)
              end))
      rawPixelGrid.

(** The diameter in exact arithmetic: [2 * floor((16 r + 450) / 100) + 1]. *)
Definition exactDiameter (resolution : Z) : Z :=
  (2 * ((16 * resolution + 450) / 100) + 1)%Z.

Definition exactDiameterOk (resolution : Z) : bool :=
  isSome (pfpDiameter resolution) (exactDiameter resolution).

(** The middle sub-sample of a cell is its centre:
    [x - 0.5 + subPixelStep * (2 + 0.5)] is [x]. *)
Definition middleSampleOk (x : Z) : bool :=
  PrimFloat.Leibniz.eqb
    (JS.ofZ x - 0.5 + subPixelStep * (JS.ofZ 2 + 0.5))%float (JS.ofZ x).

(** A count [k] of sub-samples as a coverage [k / 25]: within [0, 1],
    positive from 1 on and below 1 up to 24. *)
Definition coverageOk (k : Z) : bool :=
  let c := (JS.ofZ k / JS.ofNat totalSubPixels)%float in
  PrimFloat.leb 0 c && PrimFloat.leb c 1 &&
  implb (1 <=? k)%Z (PrimFloat.ltb 0 c) &&
  implb (k <=? 24)%Z (PrimFloat.ltb c 1).

(** *** The grid of the Photo Widget *)

(** [resValue]: [20 + Math.floor(((resolution * 0.6592) / 100) * 130)]. *)
Definition photoWidgetGridWidth (resolution : Z) : option Z :=
  do scaled <- JS.floor (JS.ofZ resolution * 0.6592 / 100 * 130)%float;
  Some (20 + scaled)%Z.

Definition photoWidgetGridWidthOk (resolution : Z) : bool :=
  isSome (photoWidgetGridWidth resolution) (20 + resolution * 85696 / 100000).

(** The cell [(x, y)] of a matrix is not null. *)
Definition opaqueAt (m : PhotoWidgetColorMatrix) (x y : nat) : Prop :=
  get2 None m y x <> None.

(** ** The grain layer and the colour components *)

(** *** The grain layer of [drawGlassDots] *)

(** [noiseW] and [noiseH]: [Math.ceil(canvasSize / scale)] with
    [scale = 1 + (recalibratedGrainSize / 100) * 7]. *)
Definition grainNoiseSize (canvasSize grainSize : Z) : option Z :=
  let recalibratedGrainSize := (JS.ofZ grainSize * 18 / 100)%float in
  let scale := (1 + recalibratedGrainSize / 100 * 7)%float in
  JS.ceil (JS.ofZ canvasSize / scale)%float.

(** [ctx.globalAlpha = recalibratedGrainAmount / 100]. *)
Definition grainAlpha (grainAmount : Z) : float :=
  (JS.ofZ grainAmount * 35 / 100 / 100)%float.

(** The noise size in exact arithmetic:
    [ceil(canvasSize * 10000 / (10000 + 126 * grainSize))]. *)
Definition exactNoiseSize (canvasSize grainSize : Z) : Z :=
  ((canvasSize * 10000 + (10000 + 126 * grainSize) - 1) / (10000 + 126 * grainSize))%Z.

Definition grainOk (v : Z) : bool :=
  forallb (fun c => isSome (grainNoiseSize c v) (exactNoiseSize c v))
          [1260; 2800; 3840; 2160]%Z &&
  PrimFloat.leb 0 (grainAlpha v) && PrimFloat.leb (grainAlpha v) 0.35.

(** *** The components of [rgbToCmyk] *)

(** The component of a channel [v] when the largest channel is [M]. *)
Definition cmykChannel (v M : Z) : float :=
  let k := (1 - unit255 M)%float in
  if PrimFloat.eqb k 1 then 0%float else ((1 - unit255 v - k) / (1 - k))%float.

(** The key (black) component when the largest channel is [M]. *)
Definition cmykKey (M : Z) : float :=
  let k := (1 - unit255 M)%float in
  if PrimFloat.eqb k 1 then 1%float else k.

(** A number of the unit interval. *)
Definition inUnit (c : float) : Prop :=
  PrimFloat.leb 0 c = true /\ PrimFloat.leb c 1 = true.

Definition cmykChannelOk (M v : Z) : bool :=
  if (M <? v)%Z then true
  else
    PrimFloat.leb 0 (cmykChannel v M) && PrimFloat.leb (cmykChannel v M) 1 &&
    PrimFloat.eqb (cmykChannel M M) 0 &&
    PrimFloat.leb 0 (cmykKey M) && PrimFloat.leb (cmykKey M) 1.

(** ** Vocabulary for the Blob-Merge engine *)

(** What holds of [(localVisited, fillers)] between two iterations of
    the gap-filling pass inside the blob of edge [size] at [(x0, y0)]. *)
Record FillInv (settings : GlassDotsState) (x0 y0 size : nat)
    (localVisited : list (list bool)) (fillers : list Blob.t) : Prop := {
  fill_shape : hasShape localVisited size size;
  fill_inside :
    Forall (fun f => 1 <= Blob.size f /\ Blob.inside f (Blob.mk x0 y0 size)) fillers;
  fill_visited : forall cx cy,
    get2 false localVisited cy cx = true <->
    get2 false (circleMask settings size) cy cx = true \/
    exists f, In f fillers /\ Blob.covers f (x0 + cx) (y0 + cy);
  fill_disjoint : ForallOrdPairs Blob.disjoint fillers;
  fill_clear : forall f cx cy,
    In f fillers -> Blob.covers f (x0 + cx) (y0 + cy) ->
    get2 false (circleMask settings size) cy cx = false
}.

(** The blob of one cell that the scan pushes at [(x, y)] when merging
    is switched off. *)
Definition unitBlob (p : nat * nat) : Origin * Blob.t :=
  (AnchorScan, Blob.mk (fst p) (snd p) 1).

(** The largest blob passes the size filter: [m >= (l / 100) * m]. *)
Definition largestPassesOk (l : Z) : bool :=
  forall_range 256 (fun m => JS.geb (JS.ofZ m) (JS.ofZ l / 100 * JS.ofZ m)%float) 1.

(** At [lowerLimit] 0 the threshold is 0 and no size is below it. *)
Definition zeroLimitOk (m : Z) : bool :=
  PrimFloat.Leibniz.eqb (JS.ofZ 0 / 100 * JS.ofZ m)%float 0%float &&
  JS.geb (JS.ofZ m) 0%float.

(** [fullCanvasWidth, fullCanvasHeight] of the Glass Dots panel. *)
Definition glassDotsCanvas (wallpaperType : ValueAliasingType) : Z * Z :=
  match wallpaperType with
  | desktop => (3840, 2160)%Z
  | phone => (1260, 2800)%Z
  end.

(** The grid height on the two canvases, in exact arithmetic: the
    nearest integer to [gridWidth * 20 / 9] and to [gridWidth * 9 / 16],
    ties upwards. *)
Definition exactGridHeight (wallpaperType : ValueAliasingType) (gridWidth : Z) : Z :=
  match wallpaperType with
  | desktop => ((9 * gridWidth + 8) / 16)%Z
  | phone => ((40 * gridWidth + 9) / 18)%Z
  end.

Definition gridHeightOk (resolution : Z) : bool :=
  isSome (glassGridHeight (10 + resolution) 1260 2800) (exactGridHeight phone (10 + resolution)) &&
  isSome (glassGridHeight (10 + resolution) 3840 2160) (exactGridHeight desktop (10 + resolution)).

(** The cell [(cx, cy)] is within the similarity threshold of the
    colour [anchorColor]. *)
Definition similarCell (settings : GlassDotsState) (colorGrid : ColorGrid)
    (anchorColor : option rgb) (cx cy : nat) : Prop :=
  JS.gtb (colorDistance anchorColor (get2 None colorGrid cy cx))
         (similarityThreshold settings) = false.

(** Every cell of the blob but its anchor cell is similar to the anchor
    cell. *)
Definition homogeneous (settings : GlassDotsState) (colorGrid : ColorGrid) (a : Blob.t)
    : Prop :=
  forall cx cy, Blob.covers a cx cy -> (cx, cy) <> (Blob.x a, Blob.y a) ->
    similarCell settings colorGrid (get2 None colorGrid (Blob.y a) (Blob.x a)) cx cy.

(** A cell that stops the growth of a square: visited, or too far from
    the anchor colour. *)
Definition blocksGrowth (settings : GlassDotsState) (colorGrid : ColorGrid)
    (visited : list (list bool)) (anchorColor : option rgb) (cx cy : nat) : Prop :=
  get2 false visited cy cx = true \/ ~ similarCell settings colorGrid anchorColor cx cy.

(** Every cell of the blob, its anchor cell included, is similar to the
    anchor cell. *)
Definition allSimilar (settings : GlassDotsState) (colorGrid : ColorGrid) (a : Blob.t)
    : Prop :=
  forall cx cy, Blob.covers a cx cy ->
    similarCell settings colorGrid (get2 None colorGrid (Blob.y a) (Blob.x a)) cx cy.

(** A grid as [sampleColorGrid] builds it from the bytes of an image:
    every cell holds a colour of three bytes. *)
Definition byteGrid (colorGrid : ColorGrid) (w h : nat) : Prop :=
  forall cx cy, cx < w -> cy < h ->
    exists c, get2 None colorGrid cy cx = Some c /\ byteColor c.

(** The distance 0 is not above the threshold. *)
Definition zeroWithinOk (s : Z) : bool := negb (JS.gtb 0 (thresholdOf s)).

From Stdlib Require String Ascii.

(** ** The code word of the App (App.tsx, src/unnamed/part_001)

    The [keydown] listener that primes the community theme of the Value
    Aliasing panel.  The effect installs the listener anew after every
    render, so each key press meets the [userInput] left by the one
    before.  Strings are texts of ASCII characters, for which
    [toLowerCase] is the map of [A]..[Z] to [a]..[z] and [length] counts
    characters. *)
Module EasterEgg.
Import Ascii String.

Inductive Tab := pfp | wallpaper | photoWidget | valueAliasing | glassDots.

Record KeyboardEvent := mkKey {
  key : String.string;
  metaKey : bool;
  ctrlKey : bool;
  altKey : bool
}.

(** What the effect reads of the App and of the Value Aliasing panel at
    the render before the key press. *)
Record Props := mkProps {
  activeTab : Tab;
  imageSrc : option String.string;
  isEasterEggActive : bool;
  isEasterEggPermanentlyUnlocked : bool
}.

Record State := mkState {
  userInput : String.string;
  easterEggPrimed : bool
}.

Definition initialState : State := mkState String.EmptyString false.

Definition targetSequence : String.string := "feelingnothing"%string.

Definition lowerChar (c : Ascii.ascii) : Ascii.ascii :=
  let n := Ascii.nat_of_ascii c in
  if (65 <=? n) && (n <=? 90) then Ascii.ascii_of_nat (n + 32) else c.

Fixpoint toLowerCase (s : String.string) : String.string :=
  match s with
  | String.EmptyString => String.EmptyString
  | String.String c s' => String.String (lowerChar c) (toLowerCase s')
  end.

(** [s.startsWith(p)]. *)
Definition startsWith (s p : String.string) : bool := String.prefix p s.

Definition isValueAliasing (t : Tab) : bool :=
  match t with valueAliasing => true | _ => false end.

(** The truth value of [imageSrc]: [null] and the empty string are
    falsy. *)
Definition truthy (src : option String.string) : bool :=
  match src with
  | Some (String.String _ _) => true
  | _ => false
  end.

(** One key press: the effect returns before it installs the listener
    when the theme is primed, active or unlocked for good; else
    [handler] runs. *)
Definition keydown (p : Props) (e : KeyboardEvent) (st : State) : State :=
  if easterEggPrimed st || isEasterEggActive p || isEasterEggPermanentlyUnlocked p then st
  else if negb (isValueAliasing (activeTab p)) || negb (truthy (imageSrc p)) then
    mkState String.EmptyString (easterEggPrimed st)
  else if (1 <? String.length (key e)) || metaKey e || ctrlKey e || altKey e then
    mkState String.EmptyString (easterEggPrimed st)
  else
    let newSequence := String.append (userInput st) (toLowerCase (key e)) in
    if startsWith targetSequence newSequence then
      if String.eqb newSequence targetSequence then mkState String.EmptyString true
      else mkState newSequence (easterEggPrimed st)
    else
      let currentKey := toLowerCase (key e) in
      mkState (if startsWith targetSequence currentKey then currentKey
               else String.EmptyString)
              (easterEggPrimed st).

Definition run (events : list (Props * KeyboardEvent)) (st : State) : State :=
  fold_left (fun s pe => keydown (fst pe) (snd pe) s) events st.

(** The listener is installed as far as the panel is concerned. *)
Definition listening (pe : Props * KeyboardEvent) : Prop :=
  isEasterEggActive (fst pe) = false /\
  isEasterEggPermanentlyUnlocked (fst pe) = false.

(** A key press that the handler takes as text: in the Value Aliasing
    tab with an image, at most one character, no modifier. *)
Definition plain (pe : Props * KeyboardEvent) : Prop :=
  activeTab (fst pe) = valueAliasing /\
  truthy (imageSrc (fst pe)) = true /\
  String.length (key (snd pe)) <= 1 /\
  metaKey (snd pe) = false /\ ctrlKey (snd pe) = false /\ altKey (snd pe) = false.

(** The key is a text of ASCII characters. *)
Fixpoint isAscii (s : String.string) : bool :=
  match s with
  | String.EmptyString => true
  | String.String c s' => (Ascii.nat_of_ascii c <? 128) && isAscii s'
  end.

(** The text of a run of key presses, in lower case. *)
Definition typed (events : list (Props * KeyboardEvent)) : String.string :=
  fold_right (fun pe s => String.append (toLowerCase (key (snd pe))) s)
             String.EmptyString events.

(** The key press types the letter [c], in either case. *)
Definition types (pe : Props * KeyboardEvent) (c : Ascii.ascii) : Prop :=
  plain pe /\ toLowerCase (key (snd pe)) = String.String c String.EmptyString.

(** The prefixes of a text, by length. *)
Definition prefixes (t : String.string) : list String.string :=
  map (fun n => String.substring 0 n t) (seq 0 (S (String.length t))).

Fixpoint lastChar (s : String.string) : option Ascii.ascii :=
  match s with
  | String.EmptyString => None
  | String.String c s' =>
      match lastChar s' with
      | None => Some c
      | Some d => Some d
      end
  end.

(** A text that ends in [c] has one character. *)
Definition onlyFirstIs (c : Ascii.ascii) (s : String.string) : bool :=
  match lastChar s with
  | Some d => if Ascii.eqb d c then String.length s =? 1 else true
  | None => true
  end.

(** A way to type the code word: capitals count, and so does what was
    typed before. *)
Definition withImage : Props :=
  mkProps valueAliasing (Some "blob:image"%string) false false.

Definition press (k : string) : Props * KeyboardEvent :=
  (withImage, mkKey k false false false).

Definition codeWordExample : list (Props * KeyboardEvent) :=
  map press ["F"; "e"; "e"; "l"; "i"; "n"; "G"; "n"; "o"; "t"; "h"; "i"; "n"; "g"]%string.

Definition sessionExample : list (Props * KeyboardEvent) :=
  map press ["f"; "e"; "Shift"; "x"]%string ++ codeWordExample ++ [press "a"%string].

End EasterEgg.

(** ** The share toasts of the App (App.tsx, src/unnamed/part_001)

    [triggerShareToast], which the panels call when a download has
    produced its file.  [handleDownload] awaits the file between the
    click and that call, and the call is the [triggerShareToast] of the
    render in which the click was handled: it reads the state of that
    render and calls the setters with values. *)
Module ShareToast.

Record State : Type := mkState {
  downloadCount : Z;
  showShareToast : bool;
  hasShownShareToastInSession : bool;
  hasDownloadedSpecialTheme : bool;
  showSpecialShareToast : bool;
  justUnlockedSpecialTheme : bool
}.

Definition initialState : State := mkState 0 false false false false false.

(** The toast that a download raises: the special one, the one of the
    App, or the one of the full-screen preview that the panel passes as
    [showSpecificToast]. *)
Inductive Toast : Type := specialShareToast | shareToast | specificToast.

(** The setters that a call of [triggerShareToast] calls, each with a
    value; [None] where it does not call the setter. *)
Record Writes : Type := mkWrites {
  toDownloadCount : option Z;
  toShowShareToast : option bool;
  toHasShownShareToastInSession : option bool;
  toHasDownloadedSpecialTheme : option bool;
  toShowSpecialShareToast : option bool
}.

(** [triggerShareToast(showSpecificToast, isSpecial)] of the render with
    the state [st]; [showSpecificToast] tells whether the panel passed
    the callback. *)
Definition triggerShareToast (showSpecificToast isSpecial : bool) (st : State)
  : Writes * option Toast :=
  if isSpecial && justUnlockedSpecialTheme st && negb (hasDownloadedSpecialTheme st) then
    (mkWrites None None
              (if (downloadCount st + 1 =? 2)%Z && negb (hasShownShareToastInSession st)
               then Some true else None)
              (Some true) (Some true),
     Some specialShareToast)
  else if hasShownShareToastInSession st then
    (mkWrites None None None None None, None)
  else
    let newCount := (downloadCount st + 1)%Z in
    if (newCount =? 2)%Z then
      if showSpecificToast then
        (mkWrites (Some newCount) None (Some true) None None, Some specificToast)
      else
        (mkWrites (Some newCount) (Some true) (Some true) None None, Some shareToast)
    else
      (mkWrites (Some newCount) None None None None, None).

Definition written {A : Type} (w : option A) (old : A) : A :=
  match w with
  | Some v => v
  | None => old
  end.

(** The state after React has applied the values. *)
Definition commit (w : Writes) (st : State) : State :=
  mkState (written (toDownloadCount w) (downloadCount st))
          (written (toShowShareToast w) (showShareToast st))
          (written (toHasShownShareToastInSession w) (hasShownShareToastInSession st))
          (written (toHasDownloadedSpecialTheme w) (hasDownloadedSpecialTheme st))
          (written (toShowSpecialShareToast w) (showSpecialShareToast st))
          (justUnlockedSpecialTheme st).

(** A download in flight: [handleDownload] is awaiting the file; its
    [onSuccess] will call the [triggerShareToast] of the render in which
    the download was started, with the arguments of that render. *)
Record Download : Type := mkDownload {
  closure : State;
  passesSpecificToast : bool;
  special : bool
}.

Record App : Type := mkApp {
  state : State;
  inFlight : list Download
}.

Definition initialApp : App := mkApp initialState [].

(** What happens to the state of the toasts: a panel starts a download,
    the [n]-th download in flight gets its file, the two [onClose] of
    the toasts, and the unlocking of the community theme in the Value
    Aliasing panel. *)
Inductive Event : Type :=
| startDownload (showSpecificToast isSpecial : bool)
| finishDownload (n : nat)
| closeShareToast
| closeSpecialShareToast
| unlockSpecialTheme.

Definition step (e : Event) (app : App) : App * option Toast :=
  let st := state app in
  match e with
  | startDownload showSpecificToast isSpecial =>
      (mkApp st (inFlight app ++ [mkDownload st showSpecificToast isSpecial]), None)
  | finishDownload n =>
      match nth_error (inFlight app) n with
      | Some d =>
          let call := triggerShareToast (passesSpecificToast d) (special d) (closure d) in
          (mkApp (commit (fst call) st) (firstn n (inFlight app) ++ skipn (S n) (inFlight app)),
           snd call)
      | None => (app, None)
      end
  | closeShareToast =>
      (mkApp (mkState (downloadCount st) false (hasShownShareToastInSession st)
                      (hasDownloadedSpecialTheme st) (showSpecialShareToast st)
                      (justUnlockedSpecialTheme st))
             (inFlight app), None)
  | closeSpecialShareToast =>
      (mkApp (mkState (downloadCount st) (showShareToast st) (hasShownShareToastInSession st)
                      (hasDownloadedSpecialTheme st) false (justUnlockedSpecialTheme st))
             (inFlight app), None)
  | unlockSpecialTheme =>
      (mkApp (mkState (downloadCount st) (showShareToast st) (hasShownShareToastInSession st)
                      (hasDownloadedSpecialTheme st) (showSpecialShareToast st) true)
             (inFlight app), None)
  end.

(** The toasts raised by a run of events, one entry for each. *)
Fixpoint toasts (events : list Event) (app : App) : list (option Toast) :=
  match events with
  | [] => []
  | e :: events' => snd (step e app) :: toasts events' (fst (step e app))
  end.

(** Downloads one at a time: every download gets its file before
    anything else happens. *)
Fixpoint oneAtATime (events : list Event) : bool :=
  match events with
  | [] => true
  | startDownload _ _ :: events' =>
      match events' with
      | finishDownload 0 :: events'' => oneAtATime events''
      | _ => false
      end
  | finishDownload _ :: _ => false
  | _ :: events' => oneAtATime events'
  end.

(** A download that gets its file before anything else happens: the
    state it leaves and the toast it raises. *)
Definition download (showSpecificToast isSpecial : bool) (st : State)
  : State * option Toast :=
  let call := triggerShareToast showSpecificToast isSpecial st in
  (commit (fst call) st, snd call).

(** The events of a download of that kind. *)
Definition downloadOf (d : bool * bool) : list Event :=
  [startDownload (fst d) (snd d); finishDownload 0].

Definition isSpecialToast (t : option Toast) : bool :=
  match t with Some specialShareToast => true | _ => false end.

Definition isShareToast (t : option Toast) : bool :=
  match t with Some shareToast | Some specificToast => true | _ => false end.

(** The toast of the second download. *)
Definition secondDownload (showSpecificToast : bool) : option Toast :=
  Some (if showSpecificToast then specificToast else shareToast).

(** Two downloads started one after the other when one download has
    been counted, the first getting its file before the second. *)
Definition overlappingDownloads : list Event :=
  [startDownload false false; startDownload false false; finishDownload 0; finishDownload 0].

Definition oneCounted : App := mkApp (mkState 1 false false false false false) [].

End ShareToast.

(** * Properties *)

(** ** JavaScript numbers *)

(** The roundings on a few values: ties go up, also below zero. *)
Example rounding_samples :
  JS.round 2.5 = Some 3%Z /\ JS.round (-2.5) = Some (-2)%Z /\
  JS.round 0.49999999999999994 = Some 0%Z /\
  JS.floor (-0.5) = Some (-1)%Z /\ JS.floor 109.99999999999999 = Some 109%Z /\
  JS.ceil 0.04 = Some 1%Z /\ JS.ceil (-0.5) = Some 0%Z /\ JS.ceil 4 = Some 4%Z /\
  JS.round PrimFloat.nan = None /\ JS.floor PrimFloat.infinity = None.
Proof.
  repeat split; vm_compute; reflexivity.
Qed.

(** ** Two-dimensional arrays *)

Lemma upd_length {A : Type} (i : nat) (v : A) (l : list A) :
  length (upd i v l) = length l.
Proof.
  revert i; induction l as [|a l IH]; intros [|i]; simpl; auto.
Qed.

Lemma nth_upd {A : Type} (i j : nat) (v d : A) (l : list A) :
  nth j (upd i v l) d = if Nat.eqb i j && Nat.ltb i (length l) then v else nth j l d.
Proof.
  revert i j; induction l as [|a l IH]; intros i j.
  - replace (Nat.ltb i (length (@nil A))) with false by (destruct i; reflexivity).
    rewrite andb_false_r. destruct i; reflexivity.
  - destruct i as [|i], j as [|j]; simpl; auto.
Qed.

Lemma hasShape_row {A : Type} (m : list (list A)) (w h y : nat) :
  hasShape m w h -> y < h -> length (nth y m []) = w.
Proof.
  intros [Hlen Hrows] Hy.
  rewrite Forall_forall in Hrows. apply Hrows, nth_In. lia.
Qed.

Lemma hasShape_filled {A : Type} (w h : nat) (v : A) : hasShape (filled h w v) w h.
Proof.
  split.
  - apply repeat_length.
  - apply Forall_forall. intros row Hin.
    apply repeat_spec in Hin. subst row. apply repeat_length.
Qed.

Lemma get2_filled {A : Type} (w h : nat) (v : A) (y x : nat) :
  get2 v (filled h w v) y x = v.
Proof.
  unfold get2, filled.
  destruct (Nat.lt_ge_cases y h) as [Hy|Hy].
  - rewrite nth_repeat_lt by exact Hy.
    destruct (Nat.lt_ge_cases x w) as [Hx|Hx].
    + apply nth_repeat_lt; exact Hx.
    + apply nth_overflow. rewrite repeat_length. exact Hx.
  - rewrite (nth_overflow (repeat (repeat v w) h)) by (rewrite repeat_length; exact Hy).
    destruct x; reflexivity.
Qed.

Lemma hasShape_set2 {A : Type} (m : list (list A)) (w h y x : nat) (v : A) :
  hasShape m w h -> hasShape (set2 m y x v) w h.
Proof.
  intros [Hlen Hrows]. unfold set2. split.
  - rewrite upd_length. exact Hlen.
  - apply Forall_forall. intros row Hin.
    destruct (In_nth _ _ [] Hin) as [k [Hk Hrow]].
    rewrite upd_length in Hk. rewrite nth_upd in Hrow.
    rewrite Forall_forall in Hrows.
    destruct (Nat.eqb y k && Nat.ltb y (length m)) eqn:E.
    + subst row. rewrite upd_length.
      apply andb_true_iff in E. destruct E as [_ E]. apply Nat.ltb_lt in E.
      apply Hrows, nth_In, E.
    + subst row. apply Hrows, nth_In, Hk.
Qed.

(** Reading a cell after one in-range write. *)
Lemma get2_set2 {A : Type} (m : list (list A)) (w h y x cy cx : nat) (v d : A) :
  hasShape m w h -> y < h -> x < w ->
  get2 d (set2 m y x v) cy cx =
  if Nat.eqb y cy && Nat.eqb x cx then v else get2 d m cy cx.
Proof.
  intros Hm Hy Hx. unfold get2, set2.
  assert (Hlen : length m = h) by apply Hm.
  rewrite nth_upd.
  assert (Ey : Nat.ltb y (length m) = true) by (apply Nat.ltb_lt; lia).
  rewrite Ey, andb_true_r.
  destruct (Nat.eqb y cy) eqn:E; simpl; [|reflexivity].
  apply Nat.eqb_eq in E. subst cy.
  rewrite nth_upd.
  rewrite (hasShape_row _ _ _ _ Hm Hy).
  assert (Ex : Nat.ltb x w = true) by (apply Nat.ltb_lt; lia).
  rewrite Ex, andb_true_r. reflexivity.
Qed.

(** The inner loop of [markSquare] on one row. *)
Lemma markRow_spec (m : list (list bool)) (w h row x n : nat) :
  hasShape m w h -> row < h -> x + n <= w ->
  let m' := fold_left (fun m'' i => set2 m'' row (x + i) true) (seq 0 n) m in
  hasShape m' w h /\
  forall cy cx, get2 false m' cy cx =
    get2 false m cy cx || (Nat.eqb row cy && Nat.leb x cx && Nat.ltb cx (x + n)).
Proof.
  intros Hm Hrow. induction n as [|n IH]; intros Hn; cbv zeta.
  - simpl. split; [exact Hm|]. intros cy cx.
    replace (Nat.ltb cx (x + 0)) with (negb (Nat.leb x cx)).
    + destruct (Nat.eqb row cy), (Nat.leb x cx), (get2 false m cy cx); reflexivity.
    + rewrite Nat.add_0_r. destruct (Nat.leb_spec x cx), (Nat.ltb_spec cx x); simpl; auto; lia.
  - rewrite seq_S, fold_left_app. simpl.
    destruct IH as [Hm' Hget]; [lia|]. split.
    + apply hasShape_set2. exact Hm'.
    + intros cy cx. rewrite (get2_set2 _ w h); [|exact Hm'|exact Hrow|lia].
      rewrite Hget.
      destruct (Nat.eqb_spec row cy), (Nat.eqb_spec (x + n) cx), (Nat.leb_spec x cx),
        (Nat.ltb_spec cx (x + n)), (Nat.ltb_spec cx (x + S n)),
        (get2 false m cy cx); simpl; auto; lia.
Qed.

Lemma markRows_spec (m : list (list bool)) (w h x y size n : nat) :
  hasShape m w h -> x + size <= w -> y + n <= h ->
  let m' := fold_left
              (fun m1 j => fold_left (fun m2 i => set2 m2 (y + j) (x + i) true) (seq 0 size) m1)
              (seq 0 n) m in
  hasShape m' w h /\
  forall cy cx, get2 false m' cy cx =
    get2 false m cy cx ||
    (Nat.leb x cx && Nat.ltb cx (x + size) && Nat.leb y cy && Nat.ltb cy (y + n)).
Proof.
  intros Hm Hx. induction n as [|n IH]; intros Hn; cbv zeta.
  - simpl. split; [exact Hm|]. intros cy cx.
    replace (Nat.ltb cy (y + 0)) with (negb (Nat.leb y cy)).
    + destruct (Nat.leb x cx), (Nat.ltb cx (x + size)), (Nat.leb y cy),
        (get2 false m cy cx); reflexivity.
    + rewrite Nat.add_0_r. destruct (Nat.leb_spec y cy), (Nat.ltb_spec cy y); simpl; auto; lia.
  - rewrite seq_S, fold_left_app. simpl.
    destruct IH as [Hm' Hget]; [lia|].
    destruct (markRow_spec _ w h (y + n) x size Hm') as [Hm'' Hget'']; [lia|lia|].
    split; [exact Hm''|].
    intros cy cx. rewrite Hget'', Hget.
    destruct (Nat.eqb_spec (y + n) cy), (Nat.leb_spec x cx), (Nat.ltb_spec cx (x + size)),
      (Nat.leb_spec y cy), (Nat.ltb_spec cy (y + n)), (Nat.ltb_spec cy (y + S n)),
      (get2 false m cy cx); simpl; auto; lia.
Qed.

(** [markSquare] sets exactly the cells of the square, inside the array. *)
Lemma markSquare_spec (m : list (list bool)) (w h x y size : nat) :
  hasShape m w h -> x + size <= w -> y + size <= h ->
  hasShape (markSquare m x y size) w h /\
  forall cy cx, get2 false (markSquare m x y size) cy cx =
    get2 false m cy cx || Blob.coversb (Blob.mk x y size) cx cy.
Proof.
  intros Hm Hx Hy. unfold markSquare. apply markRows_spec; assumption.
Qed.

Lemma coversb_covers (a : Blob.t) (cx cy : nat) :
  Blob.coversb a cx cy = true <-> Blob.covers a cx cy.
Proof.
  unfold Blob.coversb, Blob.covers.
  rewrite !andb_true_iff, !Nat.leb_le, !Nat.ltb_lt. tauto.
Qed.

Lemma in_rowMajor (w h x y : nat) : In (x, y) (rowMajor w h) <-> x < w /\ y < h.
Proof.
  unfold rowMajor. rewrite in_flat_map. split.
  - intros [y' [Hy Hin]]. apply in_map_iff in Hin. destruct Hin as [x' [E Hx]].
    inversion E; subst. apply in_seq in Hy, Hx. lia.
  - intros [Hx Hy]. exists y. split; [apply in_seq; lia|].
    apply in_map_iff. exists x. split; [reflexivity|apply in_seq; lia].
Qed.

Lemma rowMajor_length (w h : nat) : length (rowMajor w h) = w * h.
Proof.
  unfold rowMajor. induction h as [|h IH].
  - simpl. lia.
  - rewrite seq_S, flat_map_app, length_app, IH. simpl.
    rewrite app_nil_r, length_map, length_seq. lia.
Qed.

(** ** The square-growing loop *)

Section GrowSquare.

Variable canGrow : nat -> bool.
Variables startX startY limitX limitY : nat.

Local Abbreviation grow := (growSquare canGrow startX startY limitX limitY).

Lemma growSquare_ge (fuel cur : nat) : cur <= grow fuel cur.
Proof.
  revert cur. induction fuel as [|fuel IH]; intros cur; simpl; [lia|].
  destruct (_ || _); [lia|].
  destruct (canGrow cur); [|lia].
  specialize (IH (cur + 1)). lia.
Qed.

(** The square never leaves the limits. *)
Lemma growSquare_limit (fuel cur : nat) :
  startX + cur <= limitX -> startY + cur <= limitY ->
  startX + grow fuel cur <= limitX /\ startY + grow fuel cur <= limitY.
Proof.
  revert cur. induction fuel as [|fuel IH]; intros cur Hx Hy; simpl; [lia|].
  destruct (Nat.ltb_spec limitY (startY + (cur + 1))); simpl; [lia|].
  destruct (Nat.ltb_spec limitX (startX + (cur + 1))); simpl; [lia|].
  destruct (canGrow cur); [|lia].
  apply IH; lia.
Qed.

(** A property kept by every successful growth attempt holds of the
    final size. *)
Lemma growSquare_invariant (P : nat -> Prop) (fuel cur : nat) :
  P cur -> (forall s, P s -> canGrow s = true -> P (s + 1)) -> P (grow fuel cur).
Proof.
  intros Hcur Hstep. revert cur Hcur.
  induction fuel as [|fuel IH]; intros cur Hcur; simpl; [exact Hcur|].
  destruct (_ || _); [exact Hcur|].
  destruct (canGrow cur) eqn:E; [|exact Hcur].
  apply IH, Hstep; assumption.
Qed.

(** The loop has left through one of its [break]s before the fuel is
    used up: more fuel gives the same size. *)
Lemma growSquare_fuel (fuel fuel' cur : nat) :
  limitX < startX + cur + fuel -> fuel <= fuel' -> grow fuel cur = grow fuel' cur.
Proof.
  revert fuel' cur. induction fuel as [|fuel IH]; intros fuel' cur Hlim Hle.
  - destruct fuel' as [|fuel']; simpl; [reflexivity|].
    destruct (Nat.ltb_spec limitX (startX + (cur + 1))); [|lia].
    rewrite orb_true_r. reflexivity.
  - destruct fuel' as [|fuel']; [lia|]. simpl.
    destruct (_ || _); [reflexivity|].
    destruct (canGrow cur); [|reflexivity].
    apply IH; lia.
Qed.

(** With enough fuel the final size is maximal: the next size leaves
    the limits or its growth attempt fails. *)
Lemma growSquare_stops (fuel cur : nat) :
  limitX < startX + cur + fuel ->
  (limitY < startY + (grow fuel cur + 1) \/ limitX < startX + (grow fuel cur + 1)) \/
  canGrow (grow fuel cur) = false.
Proof.
  revert cur. induction fuel as [|fuel IH]; intros cur Hlim; simpl.
  - left. right. lia.
  - destruct (Nat.ltb_spec limitY (startY + (cur + 1))); simpl; [left; left; lia|].
    destruct (Nat.ltb_spec limitX (startX + (cur + 1))); simpl; [left; right; lia|].
    destruct (canGrow cur) eqn:E; [|right; exact E].
    apply IH. lia.
Qed.

End GrowSquare.

(** A more permissive growth test never gives a smaller square. *)
Lemma growSquare_mono (c1 c2 : nat -> bool) (startX startY limitX limitY : nat) :
  (forall s, c1 s = true -> c2 s = true) ->
  forall fuel cur,
    growSquare c1 startX startY limitX limitY fuel cur <=
    growSquare c2 startX startY limitX limitY fuel cur.
Proof.
  intros Hc. induction fuel as [|fuel IH]; intros cur; simpl; [lia|].
  destruct (_ || _); [lia|].
  destruct (c1 cur) eqn:E1.
  - rewrite (Hc _ E1). apply IH.
  - destruct (c2 cur); [|lia].
    pose proof (growSquare_ge c2 startX startY limitX limitY fuel (cur + 1)). lia.
Qed.

(** ** One blob *)

Lemma unvisitedSquare_grow (visited : list (list bool)) (x0 y0 s : nat) :
  unvisitedSquare visited x0 y0 s ->
  (forall i, i < s + 1 -> get2 false visited (y0 + i) (x0 + s) = false) ->
  (forall i, i < s -> get2 false visited (y0 + s) (x0 + i) = false) ->
  unvisitedSquare visited x0 y0 (s + 1).
Proof.
  intros Hsq Hcol Hrow i j Hi Hj.
  destruct (Nat.eq_dec i s) as [->|Hi'].
  - apply Hcol. exact Hj.
  - destruct (Nat.eq_dec j s) as [->|Hj'].
    + apply Hrow. lia.
    + apply Hsq; lia.
Qed.

Section BlobFacts.

Variable settings : GlassDotsState.
Variable colorGrid : ColorGrid.

Lemma cellJoins_unvisited visited anchorColor chk cx cy :
  cellJoins settings colorGrid visited anchorColor chk cx cy = true ->
  get2 false visited cy cx = false.
Proof.
  unfold cellJoins. intros H. apply andb_true_iff in H. destruct H as [H _].
  apply negb_true_iff in H. exact H.
Qed.

Lemma canExpand_unvisited visited anchorColor chk x0 y0 s :
  unvisitedSquare visited x0 y0 s ->
  canExpand settings colorGrid visited anchorColor chk x0 y0 s = true ->
  unvisitedSquare visited x0 y0 (s + 1).
Proof.
  intros Hsq H. unfold canExpand in H.
  apply andb_true_iff in H. destruct H as [Hcol Hrow].
  rewrite forallb_forall in Hcol, Hrow.
  apply unvisitedSquare_grow; [exact Hsq| |]; intros i Hi.
  - eapply cellJoins_unvisited, Hcol, in_seq. lia.
  - eapply cellJoins_unvisited, Hrow, in_seq. lia.
Qed.

(** What [findMaxBlobSize] returns at an unvisited anchor. *)
Lemma findMaxBlobSize_spec visited x0 y0 w h chk :
  get2 false visited y0 x0 = false -> x0 < w -> y0 < h ->
  inGrid w h (Blob.mk x0 y0 (findMaxBlobSize settings colorGrid visited x0 y0 w h chk)) /\
  unvisitedSquare visited x0 y0 (findMaxBlobSize settings colorGrid visited x0 y0 w h chk).
Proof.
  intros Hanchor Hx Hy.
  assert (H1 : unvisitedSquare visited x0 y0 1).
  { intros i j Hi Hj. replace i with 0 by lia. replace j with 0 by lia.
    rewrite !Nat.add_0_r. exact Hanchor. }
  unfold findMaxBlobSize, inGrid. simpl.
  destruct (similaritySensitivity settings =? 0)%Z.
  - repeat split; try lia. exact H1.
  - set (ce := canExpand settings colorGrid visited (get2 None colorGrid y0 x0) chk x0 y0).
    pose proof (growSquare_ge ce x0 y0 w h w 1) as Hge.
    destruct (growSquare_limit ce x0 y0 w h w 1) as [Hlx Hly]; [lia|lia|].
    repeat split; try lia.
    apply growSquare_invariant; [exact H1|].
    intros s Hs Hce. eapply canExpand_unvisited; eassumption.
Qed.

(** The [while (true)] loop of [findMaxBlobSize] leaves through a
    [break] within [limitX] iterations: any larger unrolling gives the
    same size. *)
Lemma findMaxBlobSize_fuel visited anchorColor chk x0 y0 w h fuel :
  w <= fuel ->
  growSquare (canExpand settings colorGrid visited anchorColor chk x0 y0) x0 y0 w h w 1 =
  growSquare (canExpand settings colorGrid visited anchorColor chk x0 y0) x0 y0 w h fuel 1.
Proof.
  intros Hfuel. apply growSquare_fuel; lia.
Qed.

(** The size returned is maximal: unless merging is switched off, the
    square one cell larger leaves the grid or fails its growth test. *)
Lemma findMaxBlobSize_maximal visited x0 y0 w h chk :
  similaritySensitivity settings <> 0%Z ->
  let size := findMaxBlobSize settings colorGrid visited x0 y0 w h chk in
  (h < y0 + (size + 1) \/ w < x0 + (size + 1)) \/
  canExpand settings colorGrid visited (get2 None colorGrid y0 x0) chk x0 y0 size = false.
Proof.
  intros Hs. cbv zeta. unfold findMaxBlobSize.
  destruct (Z.eqb_spec (similaritySensitivity settings) 0) as [E|_]; [contradiction|].
  apply growSquare_stops. lia.
Qed.

(** The filler loop too leaves through a [break] within [size]
    iterations. *)
Lemma fillerSize_fuel localVisited lx ly size fuel :
  size <= fuel ->
  growSquare (localCanExpand localVisited lx ly) lx ly size size size 1 =
  growSquare (localCanExpand localVisited lx ly) lx ly size size fuel 1.
Proof.
  intros Hfuel. apply growSquare_fuel; lia.
Qed.

(** *** Corner fillers stay inside their parent *)

Lemma fillStep_inside x0 y0 size st lx ly :
  lx < size -> ly < size ->
  Forall (fun f => 1 <= Blob.size f /\ Blob.inside f (Blob.mk x0 y0 size)) (snd st) ->
  Forall (fun f => 1 <= Blob.size f /\ Blob.inside f (Blob.mk x0 y0 size))
         (snd (fillStep x0 y0 size st (lx, ly))).
Proof.
  intros Hlx Hly Hst. destruct st as [localVisited fillers]. simpl.
  destruct (get2 false localVisited ly lx); [exact Hst|]. simpl.
  apply Forall_app. split; [exact Hst|].
  constructor; [|constructor].
  set (ce := localCanExpand localVisited lx ly).
  pose proof (growSquare_ge ce lx ly size size size 1) as Hge.
  destruct (growSquare_limit ce lx ly size size size 1) as [Hx Hy]; [lia|lia|].
  unfold Blob.inside. simpl. lia.
Qed.

Lemma cornerFillers_inside x0 y0 size :
  Forall (fun f => 1 <= Blob.size f /\ Blob.inside f (Blob.mk x0 y0 size))
         (cornerFillers settings x0 y0 size).
Proof.
  unfold cornerFillers.
  assert (Hcells : forall p, In p (rowMajor size size) -> fst p < size /\ snd p < size).
  { intros [lx ly] Hin. apply in_rowMajor in Hin. exact Hin. }
  revert Hcells. generalize (rowMajor size size) as cells.
  assert (Hst : Forall (fun f => 1 <= Blob.size f /\ Blob.inside f (Blob.mk x0 y0 size))
                       (snd (circleMask settings size, @nil Blob.t))) by constructor.
  revert Hst. generalize (circleMask settings size, @nil Blob.t) as st.
  intros st Hst cells. revert st Hst.
  induction cells as [|[lx ly] cells IH]; intros st Hst Hcells; simpl; [exact Hst|].
  apply IH.
  - destruct (Hcells (lx, ly)) as [Hlx Hly]; [left; reflexivity|].
    apply fillStep_inside; assumption.
  - intros p Hp. apply Hcells. right. exact Hp.
Qed.

End BlobFacts.

(** ** The anchor scan *)

Lemma ForallOrdPairs_snoc {A : Type} (R : A -> A -> Prop) (l : list A) (c : A) :
  ForallOrdPairs R l -> Forall (fun a => R a c) l -> ForallOrdPairs R (l ++ [c]).
Proof.
  induction 1 as [|a l Ha Hl IH]; intros HF; simpl.
  - constructor; constructor.
  - inversion HF; subst. constructor.
    + apply Forall_app. split; [assumption|]. constructor; [assumption|constructor].
    + apply IH. assumption.
Qed.

Lemma blobsOf_app (l1 l2 : list (Origin * Blob.t)) :
  blobsOf (l1 ++ l2) = blobsOf l1 ++ blobsOf l2.
Proof. apply map_app. Qed.

Lemma blobsOf_fillers (p : Blob.t) (fs : list Blob.t) :
  blobsOf (map (pair (CornerFiller p)) fs) = fs.
Proof.
  unfold blobsOf. rewrite map_map. simpl. apply map_id.
Qed.

Lemma anchorBlobs_app (l1 l2 : list (Origin * Blob.t)) :
  anchorBlobs (l1 ++ l2) = anchorBlobs l1 ++ anchorBlobs l2.
Proof.
  unfold anchorBlobs, blobsOf. rewrite filter_app, map_app. reflexivity.
Qed.

Lemma anchorBlobs_fillers (p : Blob.t) (fs : list Blob.t) :
  anchorBlobs (map (pair (CornerFiller p)) fs) = [].
Proof.
  induction fs as [|f fs IH]; [reflexivity|]. exact IH.
Qed.

Lemma anchorBlobs_step (out : list (Origin * Blob.t)) (a : Blob.t) (fs : list Blob.t) :
  anchorBlobs (out ++ (AnchorScan, a) :: map (pair (CornerFiller a)) fs) =
  anchorBlobs out ++ [a].
Proof.
  rewrite anchorBlobs_app. f_equal.
  change ((AnchorScan, a) :: map (pair (CornerFiller a)) fs)
    with ([(AnchorScan, a)] ++ map (pair (CornerFiller a)) fs).
  rewrite anchorBlobs_app, anchorBlobs_fillers. reflexivity.
Qed.

Lemma fillerBlobs_step (out : list (Origin * Blob.t)) (a : Blob.t) (fs : list Blob.t) :
  fillerBlobs (out ++ (AnchorScan, a) :: map (pair (CornerFiller a)) fs) =
  fillerBlobs out ++ fs.
Proof.
  unfold fillerBlobs, blobsOf. rewrite filter_app, map_app. f_equal. simpl.
  induction fs as [|f fs IH]; [reflexivity|]. simpl. f_equal. exact IH.
Qed.

Lemma in_anchorBlobs (a : Blob.t) (out : list (Origin * Blob.t)) :
  In a (anchorBlobs out) <-> In (AnchorScan, a) out.
Proof.
  unfold anchorBlobs, blobsOf. rewrite in_map_iff. split.
  - intros [[o c] [E Hin]]. apply filter_In in Hin. destruct Hin as [Hin Ho].
    simpl in E. subst c. destruct o; [exact Hin|discriminate].
  - intros Hin. exists (AnchorScan, a). split; [reflexivity|].
    apply filter_In. split; [exact Hin|reflexivity].
Qed.

Lemma ScanInv_init (w h : nat) : ScanInv w h (filled h w false) [].
Proof.
  constructor.
  - apply hasShape_filled.
  - constructor.
  - intros cx cy. rewrite get2_filled. split; [discriminate|].
    intros [a [[] _]].
  - constructor.
  - intros p f [].
Qed.

Lemma inside_inGrid (w h : nat) (f p : Blob.t) :
  1 <= Blob.size f -> Blob.inside f p -> inGrid w h p -> inGrid w h f.
Proof.
  unfold Blob.inside, inGrid. lia.
Qed.

Section ScanFacts.

Variable settings : GlassDotsState.
Variable colorGrid : ColorGrid.
Variables w h : nat.

Lemma scanStep_inv visited out x0 y0 :
  ScanInv w h visited out -> x0 < w -> y0 < h ->
  let st' := scanStep settings colorGrid w h (visited, out) (x0, y0) in
  ScanInv w h (fst st') (snd st') /\
  get2 false (fst st') y0 x0 = true /\
  (forall cy cx, get2 false visited cy cx = true -> get2 false (fst st') cy cx = true).
Proof.
  intros Inv Hx Hy. cbv zeta. unfold scanStep.
  destruct (get2 false visited y0 x0) eqn:Hanchor.
  { simpl. auto. }
  destruct (findMaxBlobSize_spec settings colorGrid visited x0 y0 w h true Hanchor Hx Hy)
    as [Hgrid Hsq].
  set (size := findMaxBlobSize settings colorGrid visited x0 y0 w h true) in *.
  set (fillers := if Nat.ltb 1 size then cornerFillers settings x0 y0 size else []).
  assert (Hfill : Forall (fun f => 1 <= Blob.size f /\ Blob.inside f (Blob.mk x0 y0 size))
                         fillers).
  { unfold fillers. destruct (Nat.ltb 1 size); [apply cornerFillers_inside|constructor]. }
  destruct Hgrid as [Hs1 [Hsx Hsy]]. simpl in Hs1, Hsx, Hsy.
  destruct (markSquare_spec visited w h x0 y0 size (inv_shape _ _ _ _ Inv) Hsx Hsy)
    as [Hshape Hget].
  simpl. split; [constructor|split].
  - exact Hshape.
  - rewrite blobsOf_app. apply Forall_app. split; [apply Inv|].
    simpl. rewrite blobsOf_fillers. constructor.
    + unfold inGrid. simpl. lia.
    + eapply Forall_impl; [|exact Hfill].
      intros f [Hf1 Hfin]. eapply inside_inGrid; [exact Hf1|exact Hfin|].
      unfold inGrid. simpl. lia.
  - intros cx cy. rewrite Hget, orb_true_iff, anchorBlobs_step, coversb_covers.
    rewrite (inv_visited _ _ _ _ Inv). split.
    + intros [[a [Ha Hc]]|Hc].
      * exists a. split; [apply in_or_app; left; exact Ha|exact Hc].
      * exists (Blob.mk x0 y0 size). split; [apply in_or_app; right; left; reflexivity|exact Hc].
    + intros [a [Ha Hc]]. apply in_app_or in Ha. destruct Ha as [Ha|[<-|[]]].
      * left. exists a. auto.
      * right. exact Hc.
  - rewrite anchorBlobs_step. apply ForallOrdPairs_snoc; [apply Inv|].
    apply Forall_forall. intros a Ha cx cy [Hca Hcb].
    assert (Hv : get2 false visited cy cx = true).
    { apply (inv_visited _ _ _ _ Inv). exists a. auto. }
    unfold Blob.covers in Hcb. simpl in Hcb.
    specialize (Hsq (cx - x0) (cy - y0)).
    replace (x0 + (cx - x0)) with cx in Hsq by lia.
    replace (y0 + (cy - y0)) with cy in Hsq by lia.
    rewrite Hsq in Hv by lia. discriminate.
  - intros p f Hin. apply in_app_or in Hin. destruct Hin as [Hin|[Hin|Hin]].
    + destruct (inv_fillers _ _ _ _ Inv p f Hin) as [Hp Hf].
      split; [apply in_or_app; left; exact Hp|exact Hf].
    + discriminate.
    + apply in_map_iff in Hin. destruct Hin as [f' [E Hf']].
      inversion E; subst. split.
      * apply in_or_app. right. left. reflexivity.
      * rewrite Forall_forall in Hfill. apply Hfill. exact Hf'.
  - rewrite Hget. apply orb_true_iff. right. apply coversb_covers.
    unfold Blob.covers. simpl. lia.
  - intros cy cx Hv. rewrite Hget, Hv. reflexivity.
Qed.

Lemma scanFrom_inv cells : forall visited out,
  (forall p, In p cells -> fst p < w /\ snd p < h) ->
  ScanInv w h visited out ->
  let st' := scanFrom settings colorGrid w h (visited, out) cells in
  ScanInv w h (fst st') (snd st') /\
  (forall cy cx, get2 false visited cy cx = true -> get2 false (fst st') cy cx = true) /\
  (forall p, In p cells -> get2 false (fst st') (snd p) (fst p) = true).
Proof.
  induction cells as [|[x0 y0] cells IH]; intros visited out Hcells Inv; cbv zeta.
  - simpl. split; [exact Inv|]. split; [auto|]. intros p [].
  - destruct (Hcells (x0, y0)) as [Hx Hy]; [left; reflexivity|]. simpl in Hx, Hy.
    destruct (scanStep_inv visited out x0 y0 Inv Hx Hy) as [Inv1 [Hdone Hmono]].
    unfold scanFrom. cbn [fold_left].
    destruct (scanStep settings colorGrid w h (visited, out) (x0, y0))
      as [visited1 out1] eqn:E.
    simpl in Inv1, Hdone, Hmono.
    destruct (IH visited1 out1) as [Inv2 [Hmono2 Hdone2]];
      [intros p Hp; apply Hcells; right; exact Hp|exact Inv1|].
    unfold scanFrom in Inv2, Hmono2, Hdone2.
    split; [exact Inv2|]. split.
    + intros cy cx Hv. apply Hmono2, Hmono, Hv.
    + intros p [<-|Hp]; [apply Hmono2; exact Hdone|apply Hdone2; exact Hp].
Qed.

(** The state the pass ends in satisfies the invariant, and every cell
    of the grid has been visited: it lies in an anchor blob. *)
Lemma detectBlobs_inv :
  exists visited,
    ScanInv w h visited (detectBlobs settings colorGrid w h) /\
    forall cx cy, cx < w -> cy < h -> get2 false visited cy cx = true.
Proof.
  destruct (scanFrom_inv (rowMajor w h) (filled h w false) [])
    as [Inv [_ Hdone]].
  - intros [x0 y0] Hin. apply in_rowMajor in Hin. exact Hin.
  - apply ScanInv_init.
  - eexists. split; [exact Inv|].
    intros cx cy Hx Hy. apply (Hdone (cx, cy)). apply in_rowMajor. auto.
Qed.

End ScanFacts.

(** ** Counting cells *)

Lemma list_sum_const0 {A : Type} (l : list A) : list_sum (map (fun _ => 0) l) = 0.
Proof. induction l as [|a l IH]; simpl; auto. Qed.

Lemma list_sum_plus {A : Type} (f g : A -> nat) (l : list A) :
  list_sum (map (fun a => f a + g a) l) = list_sum (map f l) + list_sum (map g l).
Proof. induction l as [|a l IH]; simpl; lia. Qed.

Lemma list_sum_indicator {A : Type} (p : A -> bool) (c : nat) (l : list A) :
  list_sum (map (fun a => if p a then c else 0) l) = c * length (filter p l).
Proof.
  induction l as [|a l IH]; simpl; [lia|].
  destruct (p a); simpl; lia.
Qed.

Lemma list_sum_ext_in {A : Type} (f g : A -> nat) (l : list A) :
  (forall a, In a l -> f a = g a) -> list_sum (map f l) = list_sum (map g l).
Proof.
  intros H. f_equal. apply map_ext_in. exact H.
Qed.

Lemma filter_false {A : Type} (l : list A) : filter (fun _ => false) l = [].
Proof. induction l as [|a l IH]; simpl; auto. Qed.

Lemma filter_flat_map_length {A B : Type} (p : B -> bool) (f : A -> list B) (l : list A) :
  length (filter p (flat_map f l)) = list_sum (map (fun a => length (filter p (f a))) l).
Proof.
  induction l as [|a l IH]; simpl; [reflexivity|].
  rewrite filter_app, length_app, IH. reflexivity.
Qed.

Lemma filter_map_length {A B : Type} (p : B -> bool) (f : A -> B) (l : list A) :
  length (filter p (map f l)) = length (filter (fun a => p (f a)) l).
Proof.
  induction l as [|a l IH]; simpl; [reflexivity|].
  destruct (p (f a)); simpl; rewrite IH; reflexivity.
Qed.

(** The indices below [n] that lie in [lo, hi). *)
Lemma count_interval (lo hi n : nat) :
  lo <= hi ->
  length (filter (fun i => Nat.leb lo i && Nat.ltb i hi) (seq 0 n)) =
  Nat.min n hi - Nat.min n lo.
Proof.
  intros Hle. induction n as [|n IH]; [reflexivity|].
  rewrite seq_S, filter_app, length_app, IH. cbn [filter Nat.add].
  destruct (Nat.leb_spec lo n), (Nat.ltb_spec n hi); cbn [andb length]; lia.
Qed.

(** A blob inside the grid covers [size * size] cells of it. *)
Lemma cells_of_blob (w h : nat) (a : Blob.t) :
  inGrid w h a ->
  length (filter (fun c => Blob.coversb a (fst c) (snd c)) (rowMajor w h)) =
  Blob.size a * Blob.size a.
Proof.
  intros [H1 [Hx Hy]]. unfold rowMajor.
  rewrite filter_flat_map_length.
  rewrite (list_sum_ext_in _
             (fun y => if Nat.leb (Blob.y a) y && Nat.ltb y (Blob.y a + Blob.size a)
                       then Blob.size a else 0)).
  - rewrite list_sum_indicator, count_interval by lia. f_equal. lia.
  - intros y _. rewrite filter_map_length. simpl. unfold Blob.coversb.
    destruct (Nat.leb (Blob.y a) y && Nat.ltb y (Blob.y a + Blob.size a)) eqn:E.
    + rewrite (filter_ext _ (fun i => Nat.leb (Blob.x a) i &&
                                      Nat.ltb i (Blob.x a + Blob.size a))).
      * rewrite count_interval by lia. lia.
      * intros i. apply andb_true_iff in E. destruct E as [E1 E2].
        rewrite <- andb_assoc, E1, E2, !andb_true_r. reflexivity.
    + rewrite (filter_ext _ (fun _ => false)).
      * rewrite filter_false. reflexivity.
      * intros i. rewrite <- andb_assoc, E, andb_false_r. reflexivity.
Qed.

(** Summing, over the cells, the blobs that cover each cell is summing,
    over the blobs, the cells each blob covers. *)
Lemma cover_count_swap (bs : list Blob.t) (cells : list (nat * nat)) :
  list_sum (map (fun c => length (filter (fun a => Blob.coversb a (fst c) (snd c)) bs)) cells) =
  list_sum (map (fun a => length (filter (fun c => Blob.coversb a (fst c) (snd c)) cells)) bs).
Proof.
  induction bs as [|a bs IH]; simpl.
  - apply list_sum_const0.
  - rewrite <- IH.
    rewrite (list_sum_ext_in _
               (fun c => (if Blob.coversb a (fst c) (snd c) then 1 else 0) +
                         length (filter (fun a' => Blob.coversb a' (fst c) (snd c)) bs))).
    + rewrite list_sum_plus, list_sum_indicator. lia.
    + intros c _. destruct (Blob.coversb a (fst c) (snd c)); reflexivity.
Qed.

(** Among pairwise disjoint blobs, a covered cell is covered once. *)
Lemma covered_once (bs : list Blob.t) (cx cy : nat) :
  ForallOrdPairs Blob.disjoint bs ->
  (exists a, In a bs /\ Blob.covers a cx cy) ->
  length (filter (fun a => Blob.coversb a cx cy) bs) = 1.
Proof.
  induction 1 as [|a bs Ha Hbs IH]; intros [c [Hin Hc]]; [destruct Hin|].
  simpl. destruct (Blob.coversb a cx cy) eqn:E.
  - simpl. f_equal.
    rewrite (filter_ext_in _ (fun _ => false)).
    + rewrite filter_false. reflexivity.
    + intros a' Ha'. rewrite Forall_forall in Ha.
      destruct (Blob.coversb a' cx cy) eqn:E'; [|reflexivity].
      exfalso. apply (Ha a' Ha' cx cy). split; apply coversb_covers; assumption.
  - apply IH. destruct Hin as [<-|Hin].
    + apply coversb_covers in Hc. congruence.
    + exists c. auto.
Qed.

Lemma sumSquares_app (l1 l2 : list Blob.t) :
  sumSquares (l1 ++ l2) = sumSquares l1 + sumSquares l2.
Proof. induction l1 as [|a l1 IH]; simpl; lia. Qed.

Lemma sumSquares_list_sum (bs : list Blob.t) :
  sumSquares bs = list_sum (map (fun a => Blob.size a * Blob.size a) bs).
Proof. induction bs as [|a bs IH]; simpl; lia. Qed.

(** Blobs that lie in the grid, are pairwise disjoint and cover every
    cell have areas that add up to the area of the grid. *)
Lemma tiling_area (w h : nat) (bs : list Blob.t) :
  Forall (inGrid w h) bs ->
  ForallOrdPairs Blob.disjoint bs ->
  (forall cx cy, cx < w -> cy < h -> exists a, In a bs /\ Blob.covers a cx cy) ->
  sumSquares bs = w * h.
Proof.
  intros Hgrid Hdisj Hcover.
  rewrite sumSquares_list_sum.
  rewrite (list_sum_ext_in _
             (fun a => length (filter (fun c => Blob.coversb a (fst c) (snd c))
                                      (rowMajor w h)))).
  - rewrite <- cover_count_swap.
    rewrite (list_sum_ext_in _ (fun _ => 1)).
    + rewrite <- (rowMajor_length w h).
      induction (rowMajor w h); simpl; auto.
    + intros [cx cy] Hin. apply in_rowMajor in Hin. simpl.
      apply covered_once; [exact Hdisj|]. apply Hcover; tauto.
  - intros a Ha. symmetry. apply cells_of_blob.
    rewrite Forall_forall in Hgrid. auto.
Qed.

(** The output array is the anchor blobs and the corner fillers. *)
Lemma sumSquares_split (out : list (Origin * Blob.t)) :
  sumSquares (blobsOf out) = sumSquares (anchorBlobs out) + sumSquares (fillerBlobs out).
Proof.
  unfold anchorBlobs, fillerBlobs.
  induction out as [|[o a] out IH]; [reflexivity|].
  destruct o; simpl in *; lia.
Qed.

Lemma anchorBlobs_inGrid (w h : nat) (out : list (Origin * Blob.t)) :
  Forall (inGrid w h) (blobsOf out) -> Forall (inGrid w h) (anchorBlobs out).
Proof.
  rewrite !Forall_forall. intros H a Ha. apply H.
  apply in_anchorBlobs in Ha. unfold blobsOf.
  apply in_map_iff. exists (AnchorScan, a). auto.
Qed.

(** ** Exhaustive checks over a range of integers *)

Lemma forall_range_spec (p : positive) (f : Z -> bool) (lo : Z) :
  forall_range p f lo = true ->
  forall z, (lo <= z < lo + Zpos p)%Z -> f z = true.
Proof.
  revert lo. induction p as [q IH|q IH|]; intros lo H z Hz; simpl in H.
  - apply andb_true_iff in H. destruct H as [H H2].
    apply andb_true_iff in H. destruct H as [H0 H1].
    destruct (Z.eq_dec z lo) as [->|Hne]; [exact H0|].
    destruct (Z_lt_ge_dec z (lo + 1 + Zpos q)).
    + apply (IH _ H1). lia.
    + apply (IH _ H2). lia.
  - apply andb_true_iff in H. destruct H as [H1 H2].
    destruct (Z_lt_ge_dec z (lo + Zpos q)).
    + apply (IH _ H1). lia.
    + apply (IH _ H2). lia.
  - replace z with lo by lia. exact H.
Qed.

Lemma Blob_eqb_eq (a c : Blob.t) : Blob.eqb a c = true -> a = c.
Proof.
  destruct a, c. unfold Blob.eqb. simpl. rewrite !andb_true_iff, !Nat.eqb_eq.
  intros [[-> ->] ->]. reflexivity.
Qed.

Lemma blobs_eqb_eq (l1 l2 : list Blob.t) : blobs_eqb l1 l2 = true -> l1 = l2.
Proof.
  revert l2. induction l1 as [|a l1 IH]; intros [|c l2] H; simpl in H;
    try discriminate; [reflexivity|].
  apply andb_true_iff in H. destruct H as [H1 H2].
  f_equal; [apply Blob_eqb_eq; exact H1|apply IH; exact H2].
Qed.

(** Blob detection reads only [pixelGap] and [similaritySensitivity]. *)
Lemma detectBlobs_settings (res res' gap sens lim lim' : Z) (colorGrid : ColorGrid)
    (w h : nat) :
  detectBlobs (mkGlassDotsState res gap sens lim) colorGrid w h =
  detectBlobs (mkGlassDotsState res' gap sens lim') colorGrid w h.
Proof. reflexivity. Qed.

(** ** Grids of one colour *)

Lemma get2_filled_cases {A : Type} (d v : A) (h w y x : nat) :
  get2 d (filled h w v) y x = if Nat.ltb y h && Nat.ltb x w then v else d.
Proof.
  unfold get2, filled.
  destruct (Nat.ltb_spec y h) as [Hy|Hy]; simpl.
  - rewrite nth_repeat_lt by exact Hy.
    destruct (Nat.ltb_spec x w) as [Hx|Hx].
    + apply nth_repeat_lt; exact Hx.
    + apply nth_overflow. rewrite repeat_length. exact Hx.
  - rewrite (nth_overflow (repeat (repeat v w) h)) by (rewrite repeat_length; exact Hy).
    destruct x; reflexivity.
Qed.

Lemma subSelf_table : forall_range 256 subSelfOk 0 = true.
Proof. vm_compute. reflexivity. Qed.

Lemma byte_sub_self (v : Z) : isByte v -> (JS.ofZ v - JS.ofZ v)%float = 0%float.
Proof.
  intros Hv. apply FloatAxioms.Leibniz.eqb_spec.
  apply (forall_range_spec 256 subSelfOk 0 subSelf_table). unfold isByte in Hv. lia.
Qed.

(** A colour is at distance 0 from itself. *)
Lemma colorDistance_self (c : rgb) :
  byteColor c -> colorDistance (Some c) (Some c) = 0%float.
Proof.
  intros [Hr [Hg Hb]]. unfold colorDistance.
  rewrite (byte_sub_self _ Hr), (byte_sub_self _ Hg), (byte_sub_self _ Hb).
  vm_compute. reflexivity.
Qed.

Lemma forallb_pointwise {A : Type} (f1 f2 : A -> bool) (l : list A) :
  (forall a, f1 a = f2 a) -> forallb f1 l = forallb f2 l.
Proof.
  intros H. induction l as [|a l IH]; simpl; [reflexivity|].
  rewrite H, IH. reflexivity.
Qed.

Lemma growSquare_ext (c1 c2 : nat -> bool) (startX startY limitX limitY : nat) :
  (forall s, c1 s = c2 s) ->
  forall fuel cur,
    growSquare c1 startX startY limitX limitY fuel cur =
    growSquare c2 startX startY limitX limitY fuel cur.
Proof.
  intros Hc. induction fuel as [|fuel IH]; intros cur; simpl; [reflexivity|].
  rewrite Hc, IH. reflexivity.
Qed.

Section UniformGrid.

Variable settings : GlassDotsState.
Variables (c1 c2 : rgb) (h w : nat).
Hypothesis Hc1 : byteColor c1.
Hypothesis Hc2 : byteColor c2.

(** Between cells of a one-colour grid all distances are 0, whatever
    the colour; outside the grid they are infinite. *)
Lemma uniform_distance (y0 x0 cy cx : nat) :
  colorDistance (get2 None (filled h w (Some c1)) y0 x0)
                (get2 None (filled h w (Some c1)) cy cx) =
  colorDistance (get2 None (filled h w (Some c2)) y0 x0)
                (get2 None (filled h w (Some c2)) cy cx).
Proof.
  rewrite !get2_filled_cases.
  destruct (Nat.ltb y0 h && Nat.ltb x0 w); [|reflexivity].
  destruct (Nat.ltb cy h && Nat.ltb cx w); [|reflexivity].
  rewrite !colorDistance_self by assumption. reflexivity.
Qed.

Lemma findMaxBlobSize_uniform visited x0 y0 limitX limitY chk :
  findMaxBlobSize settings (filled h w (Some c1)) visited x0 y0 limitX limitY chk =
  findMaxBlobSize settings (filled h w (Some c2)) visited x0 y0 limitX limitY chk.
Proof.
  unfold findMaxBlobSize. destruct (_ =? 0)%Z; [reflexivity|].
  apply growSquare_ext. intros s. unfold canExpand.
  f_equal; apply forallb_pointwise; intros i; unfold cellJoins;
    rewrite uniform_distance; reflexivity.
Qed.

Lemma scanStep_uniform gridWidth gridHeight st p :
  scanStep settings (filled h w (Some c1)) gridWidth gridHeight st p =
  scanStep settings (filled h w (Some c2)) gridWidth gridHeight st p.
Proof.
  destruct st as [visited blobs], p as [x0 y0]. unfold scanStep.
  rewrite findMaxBlobSize_uniform. reflexivity.
Qed.

(** The blobs of a one-colour grid do not depend on the colour. *)
Lemma detectBlobs_uniform gridWidth gridHeight :
  detectBlobs settings (filled h w (Some c1)) gridWidth gridHeight =
  detectBlobs settings (filled h w (Some c2)) gridWidth gridHeight.
Proof.
  unfold detectBlobs, scanFrom. f_equal.
  generalize (filled gridHeight gridWidth false, @nil (Origin * Blob.t)) as st.
  induction (rowMajor gridWidth gridHeight) as [|p cells IH]; intros st; simpl.
  - reflexivity.
  - rewrite scanStep_uniform. apply IH.
Qed.

End UniformGrid.

(** ** The claims about the Blob-Merge engine *)

(** C10: every blob the pass emits fits inside the grid and is not
    empty; each corner filler lies inside the square of its parent, an
    anchor blob of the same pass; the anchor blobs alone are pairwise
    disjoint and every cell of the grid lies in one of them. *)
Theorem anchor_scan_tiles_grid (settings : GlassDotsState) (colorGrid : ColorGrid)
    (w h : nat) :
  let out := detectBlobs settings colorGrid w h in
  Forall (inGrid w h) (blobsOf out) /\
  (forall p f, In (CornerFiller p, f) out -> In (AnchorScan, p) out /\ Blob.inside f p) /\
  ForallOrdPairs Blob.disjoint (anchorBlobs out) /\
  (forall cx cy, cx < w -> cy < h ->
     exists a, In a (anchorBlobs out) /\ Blob.covers a cx cy).
Proof.
  cbv zeta. destruct (detectBlobs_inv settings colorGrid w h) as [visited [Inv Hall]].
  split; [apply Inv|]. split; [apply Inv|]. split; [apply Inv|].
  intros cx cy Hx Hy. apply (inv_visited _ _ _ _ Inv). apply Hall; assumption.
Qed.

(** C1, refuted as stated: the phone wallpaper at resolution 0 is a
    10 x 22 grid; on a solid image the first two blobs of the output, an
    anchor blob of edge 10 and its first corner filler, both contain the
    cell (0, 0), and the squared sizes add up to 244, not to 10 * 22. *)
Lemma fillers_overlap_parent :
  glassGridWidth (mkGlassDotsState 0 0 100 0) = Some 10%Z /\
  glassGridHeight 10 1260 2800 = Some 22%Z /\
  nth_error solidPass 0 = Some (AnchorScan, Blob.mk 0 0 10) /\
  nth_error solidPass 1 = Some (CornerFiller (Blob.mk 0 0 10), Blob.mk 0 0 1) /\
  Blob.covers (Blob.mk 0 0 10) 0 0 /\ Blob.covers (Blob.mk 0 0 1) 0 0 /\
  sumSquares (blobsOf solidPass) = 244 /\
  sumSquares (blobsOf solidPass) <> 10 * 22.
Proof.
  assert (E : sumSquares (blobsOf solidPass) = 244) by (vm_compute; reflexivity).
  rewrite E. unfold Blob.covers. simpl.
  repeat split; try lia; try (vm_compute; reflexivity).
Qed.

(** C1, amended: the anchor blobs of a pass lie in the grid, are
    pairwise disjoint and every cell of the grid lies in exactly one of
    them, so their squared sizes add up to [gridWidth * gridHeight]; the
    whole output adds the squared sizes of the corner fillers to that,
    each filler lying inside an anchor blob. *)
Theorem anchor_areas_sum_to_grid (settings : GlassDotsState) (colorGrid : ColorGrid)
    (w h : nat) :
  let out := detectBlobs settings colorGrid w h in
  Forall (inGrid w h) (anchorBlobs out) /\
  ForallOrdPairs Blob.disjoint (anchorBlobs out) /\
  (forall cx cy, cx < w -> cy < h ->
     length (filter (fun a => Blob.coversb a cx cy) (anchorBlobs out)) = 1) /\
  sumSquares (anchorBlobs out) = w * h /\
  sumSquares (blobsOf out) = w * h + sumSquares (fillerBlobs out) /\
  (forall f, In f (fillerBlobs out) ->
     exists p, In p (anchorBlobs out) /\ Blob.inside f p).
Proof.
  cbv zeta. destruct (detectBlobs_inv settings colorGrid w h) as [visited [Inv Hall]].
  set (out := detectBlobs settings colorGrid w h) in *.
  assert (Hgrid : Forall (inGrid w h) (anchorBlobs out))
    by (apply anchorBlobs_inGrid, Inv).
  assert (Hdisj : ForallOrdPairs Blob.disjoint (anchorBlobs out)) by apply Inv.
  assert (Hcover : forall cx cy, cx < w -> cy < h ->
            exists a, In a (anchorBlobs out) /\ Blob.covers a cx cy).
  { intros cx cy Hx Hy. apply (inv_visited _ _ _ _ Inv). apply Hall; assumption. }
  assert (Harea : sumSquares (anchorBlobs out) = w * h)
    by (apply tiling_area; assumption).
  split; [exact Hgrid|]. split; [exact Hdisj|]. split.
  { intros cx cy Hx Hy. apply covered_once; [exact Hdisj|]. apply Hcover; assumption. }
  split; [exact Harea|]. split.
  - rewrite sumSquares_split, Harea. reflexivity.
  - intros f Hf. unfold fillerBlobs, blobsOf in Hf.
    apply in_map_iff in Hf. destruct Hf as [[o f'] [E Hin]]. simpl in E. subst f'.
    apply filter_In in Hin. destruct Hin as [Hin Ho].
    destruct o as [|p]; [discriminate|].
    destruct (inv_fillers _ _ _ _ Inv p f Hin) as [Hp Hinside].
    exists p. split; [apply in_anchorBlobs; exact Hp|exact Hinside].
Qed.

(** C3: a 2 x 2 grid of one colour, solid red for instance, gives the
    single blob [{x:0, y:0, size:2}] at sensitivity 100, with no filler
    for any [pixelGap] in [0, 100], and four blobs of size 1 at
    sensitivity 0. *)
Theorem solid_2x2_blobs (res gap lim : Z) (c : rgb) :
  byteColor c -> (0 <= gap <= 100)%Z ->
  blobsOf (detectBlobs (mkGlassDotsState res gap 100 lim) (filled 2 2 (Some c)) 2 2) =
    [Blob.mk 0 0 2] /\
  blobsOf (detectBlobs (mkGlassDotsState res gap 0 lim) (filled 2 2 (Some c)) 2 2) =
    [Blob.mk 0 0 1; Blob.mk 1 0 1; Blob.mk 0 1 1; Blob.mk 1 1 1].
Proof.
  intros Hc Hgap.
  assert (Hred : byteColor (mkRgb 255 0 0)) by (unfold byteColor, isByte; simpl; lia).
  rewrite !(detectBlobs_uniform _ c (mkRgb 255 0 0) 2 2 Hc Hred). fold red.
  split.
  - rewrite (detectBlobs_settings res 0 gap 100 lim 0).
    apply blobs_eqb_eq.
    apply (forall_range_spec 101
             (fun gap' => blobs_eqb
                (blobsOf (detectBlobs (mkGlassDotsState 0 gap' 100 0) (filled 2 2 red) 2 2))
                [Blob.mk 0 0 2]) 0); [vm_compute; reflexivity|lia].
  - vm_compute. reflexivity.
Qed.

Lemma solid_2x2_blobs_witness :
  byteColor (mkRgb 255 0 0) /\ (0 <= 50 <= 100)%Z /\
  blobsOf (detectBlobs (mkGlassDotsState 0 50 100 0) (filled 2 2 red) 2 2) =
    [Blob.mk 0 0 2] /\
  blobsOf (detectBlobs (mkGlassDotsState 0 50 0 0) (filled 2 2 red) 2 2) =
    [Blob.mk 0 0 1; Blob.mk 1 0 1; Blob.mk 0 1 1; Blob.mk 1 1 1].
Proof.
  assert (Hred : byteColor (mkRgb 255 0 0)) by (unfold byteColor, isByte; simpl; lia).
  split; [exact Hred|]. split; [lia|].
  apply (solid_2x2_blobs 0 50 0 (mkRgb 255 0 0) Hred). lia.
Defined.

(** ** Similarity and sensitivity *)

Lemma SFltb_finite_mono (e1 : Z) (m1 : positive) (e2 : Z) (m2 : positive) (q : spec_float) :
  keyLe e1 m1 e2 m2 ->
  SFltb (S754_finite false m2 e2) q = true ->
  SFltb (S754_finite false m1 e1) q = true.
Proof.
  intros Hle. unfold SFltb, SFcompare.
  destruct q as [s|s| |s m e]; try (intros H; exact H).
  destruct s; [intros H; exact H|].
  fold (Pos.compare m2 m). fold (Pos.compare m1 m).
  destruct (Z.compare_spec e2 e) as [He|He|He]; try discriminate.
  - destruct (Pos.compare_spec m2 m) as [Hm|Hm|Hm]; try discriminate. intros _.
    destruct Hle as [Hlt|[Heq Hmle]].
    + destruct (Z.compare_spec e1 e); first [reflexivity|lia].
    + replace e1 with e by lia. rewrite Z.compare_refl.
      destruct (Pos.compare_spec m1 m); first [reflexivity|lia].
  - intros _. destruct Hle as [Hlt|[Heq Hmle]];
      destruct (Z.compare_spec e1 e) as [H1|H1|H1]; first [reflexivity|lia].
Qed.

Lemma threshold_steps : forall_range 99 thresholdStepOk 1 = true.
Proof. vm_compute. reflexivity. Qed.

Lemma threshold_step (s : Z) (q : float) :
  (1 <= s < 100)%Z ->
  JS.gtb q (thresholdOf (s + 1)) = true -> JS.gtb q (thresholdOf s) = true.
Proof.
  intros Hs. pose proof (forall_range_spec 99 thresholdStepOk 1 threshold_steps s) as Hok.
  unfold thresholdStepOk in Hok. unfold JS.gtb. rewrite !FloatAxioms.ltb_spec.
  destruct (Prim2SF (thresholdOf s)) as [| | |[] m1 e1];
    try (discriminate Hok; lia).
  destruct (Prim2SF (thresholdOf (s + 1))) as [| | |[] m2 e2];
    try (discriminate Hok; lia).
  apply SFltb_finite_mono.
  specialize (Hok ltac:(lia)).
  apply orb_true_iff in Hok. destruct Hok as [H|H].
  - left. apply Z.ltb_lt. exact H.
  - right. apply andb_true_iff in H. destruct H as [H1 H2].
    split; [apply Z.eqb_eq; exact H1|apply Pos.leb_le; exact H2].
Qed.

(** A cell too far from the anchor at a sensitivity is too far at every
    smaller one. *)
Lemma threshold_mono (s1 s2 : Z) (q : float) :
  (1 <= s1 <= s2)%Z -> (s2 <= 100)%Z ->
  JS.gtb q (thresholdOf s2) = true -> JS.gtb q (thresholdOf s1) = true.
Proof.
  intros H12 H2. replace s2 with (s1 + Z.of_nat (Z.to_nat (s2 - s1)))%Z by lia.
  assert (Hk : (s1 + Z.of_nat (Z.to_nat (s2 - s1)) <= 100)%Z) by lia.
  revert Hk. generalize (Z.to_nat (s2 - s1)) as k.
  induction k as [|k IH]; intros Hk.
  - rewrite Z.add_0_r. auto.
  - intros Hq. apply IH; [lia|].
    apply threshold_step; [lia|].
    replace (s1 + Z.of_nat k + 1)%Z with (s1 + Z.of_nat (S k))%Z by lia. exact Hq.
Qed.

Section SensitivityFacts.

Variables (res gap lim : Z) (colorGrid : ColorGrid).

Lemma canExpand_mono (s1 s2 : Z) visited anchorColor chk x0 y0 size :
  (1 <= s1 <= s2)%Z -> (s2 <= 100)%Z ->
  canExpand (mkGlassDotsState res gap s1 lim) colorGrid visited anchorColor chk x0 y0 size
    = true ->
  canExpand (mkGlassDotsState res gap s2 lim) colorGrid visited anchorColor chk x0 y0 size
    = true.
Proof.
  intros H12 H2.
  assert (Hcell : forall cx cy,
    cellJoins (mkGlassDotsState res gap s1 lim) colorGrid visited anchorColor chk cx cy = true ->
    cellJoins (mkGlassDotsState res gap s2 lim) colorGrid visited anchorColor chk cx cy = true).
  { intros cx cy. unfold cellJoins.
    destruct (get2 false visited cy cx); simpl; [auto|].
    destruct chk; simpl; [|auto].
    change (similarityThreshold (mkGlassDotsState res gap s1 lim)) with (thresholdOf s1).
    change (similarityThreshold (mkGlassDotsState res gap s2 lim)) with (thresholdOf s2).
    destruct (JS.gtb _ (thresholdOf s2)) eqn:E; [|reflexivity].
    rewrite (threshold_mono s1 s2 _ H12 H2 E). auto. }
  unfold canExpand. rewrite !andb_true_iff, !forallb_forall.
  intros [Hc Hr]. split; intros i Hi; apply Hcell; auto.
Qed.

End SensitivityFacts.

(** C4, refuted as stated: the desktop wallpaper at resolution 0 is a
    10 x 6 grid; raising the sensitivity from 10 to 20 on the patch
    image lets the first blob grow to edge 3 and breaks up the other
    three patches, and the average size falls from 52/48 to 54/52. *)
Lemma average_size_can_decrease :
  (10 <= 20)%Z /\
  glassGridWidth (mkGlassDotsState 0 0 10 0) = Some 10%Z /\
  glassGridHeight 10 3840 2160 = Some 6%Z /\
  sumSizes (patchPass 10) = 52 /\ length (patchPass 10) = 48 /\
  sumSizes (patchPass 20) = 54 /\ length (patchPass 20) = 52 /\
  Qlt (averageSize (patchPass 20)) (averageSize (patchPass 10)).
Proof.
  repeat split; try (vm_compute; reflexivity). lia.
Qed.

(** C4, amended: for a fixed grid, visited state and anchor cell, the
    size [findMaxBlobSize] returns never decreases when the sensitivity
    is raised within [0, 100]. *)
Theorem blob_size_monotone_in_sensitivity (res gap lim s1 s2 : Z) (colorGrid : ColorGrid)
    (visited : list (list bool)) (startX startY limitX limitY : nat) (chk : bool) :
  (0 <= s1 <= s2)%Z -> (s2 <= 100)%Z ->
  findMaxBlobSize (mkGlassDotsState res gap s1 lim) colorGrid visited
                  startX startY limitX limitY chk
  <= findMaxBlobSize (mkGlassDotsState res gap s2 lim) colorGrid visited
                     startX startY limitX limitY chk.
Proof.
  intros H12 H2. unfold findMaxBlobSize. simpl.
  destruct (Z.eqb_spec s1 0) as [->|H1].
  - destruct (s2 =? 0)%Z; [lia|]. apply growSquare_ge.
  - destruct (Z.eqb_spec s2 0) as [->|_]; [lia|].
    apply growSquare_mono. intros size. apply canExpand_mono; lia.
Qed.

Lemma blob_size_monotone_in_sensitivity_witness :
  (0 <= 10 <= 20)%Z /\ (20 <= 100)%Z /\
  findMaxBlobSize (mkGlassDotsState 0 0 10 0) patchGrid (filled 6 10 false) 0 0 10 6 true
  <= findMaxBlobSize (mkGlassDotsState 0 0 20 0) patchGrid (filled 6 10 false) 0 0 10 6 true.
Proof.
  split; [lia|]. split; [lia|].
  apply (blob_size_monotone_in_sensitivity 0 0 0 10 20); lia.
Defined.

(** ** Colour round trip and luminance remap *)

Lemma isSome_eq (o : option Z) (v : Z) : isSome o v = true -> o = Some v.
Proof.
  destruct o as [z|]; simpl; [|discriminate].
  intros H. apply Z.eqb_eq in H. congruence.
Qed.

Lemma unit255_table :
  forall_range 256 (fun a => forall_range 256 (unit255Ok a) 0) 0 = true.
Proof. vm_compute. reflexivity. Qed.

Lemma unit255_order (a c : Z) :
  (0 <= a <= 255)%Z -> (0 <= c <= 255)%Z ->
  PrimFloat.ltb (unit255 a) (unit255 c) = (a <? c)%Z /\
  PrimFloat.is_nan (unit255 a) = false.
Proof.
  intros Ha Hc.
  pose proof (forall_range_spec 256 _ 0 unit255_table a ltac:(lia)) as H.
  pose proof (forall_range_spec 256 _ 0 H c ltac:(lia)) as H'.
  unfold unit255Ok in H'. apply andb_true_iff in H'. destruct H' as [H1 H2].
  split; [apply eqb_prop; exact H1|apply negb_true_iff; exact H2].
Qed.

Lemma max_unit255 (a c : Z) :
  (0 <= a <= 255)%Z -> (0 <= c <= 255)%Z ->
  JS.max (unit255 a) (unit255 c) = unit255 (Z.max a c).
Proof.
  intros Ha Hc. unfold JS.max.
  destruct (unit255_order a c Ha Hc) as [Hac Hna].
  destruct (unit255_order c a Hc Ha) as [Hca Hnc].
  rewrite Hna, Hnc, Hac, Hca. simpl.
  destruct (Z.ltb_spec a c); [rewrite Z.max_r by lia; reflexivity|].
  destruct (Z.ltb_spec c a); [rewrite Z.max_l by lia; reflexivity|].
  assert (a = c) by lia. subst c. rewrite Z.max_id.
  destruct (PrimFloat.get_sign (unit255 a)); reflexivity.
Qed.

Lemma simulateCmyk_channels (r g b : Z) :
  (0 <= r <= 255)%Z -> (0 <= g <= 255)%Z -> (0 <= b <= 255)%Z ->
  simulateCmyk (JS.ofZ r) (JS.ofZ g) (JS.ofZ b) =
  let M := Z.max (Z.max r g) b in
  do r' <- channelRoundTrip r M;
  do g' <- channelRoundTrip g M;
  do b' <- channelRoundTrip b M;
  Some (r', g', b').
Proof.
  intros Hr Hg Hb. cbv zeta. unfold simulateCmyk, rgbToCmyk.
  fold (unit255 r). fold (unit255 g). fold (unit255 b).
  rewrite (max_unit255 r g Hr Hg), (max_unit255 (Z.max r g) b ltac:(lia) Hb).
  unfold channelRoundTrip.
  destruct (PrimFloat.eqb (1 - unit255 (Z.max (Z.max r g) b)) 1); reflexivity.
Qed.

Lemma channel_table :
  forall_range 256 (fun M => forall_range 256 (channelOk M) 0) 0 = true.
Proof. vm_compute. reflexivity. Qed.

Lemma channelRoundTrip_exact (v M : Z) :
  (0 <= v <= M)%Z -> (M <= 255)%Z -> channelRoundTrip v M = Some v.
Proof.
  intros Hv HM.
  pose proof (forall_range_spec 256 _ 0 channel_table M ltac:(lia)) as H.
  pose proof (forall_range_spec 256 _ 0 H v ltac:(lia)) as H'.
  unfold channelOk in H'. destruct (Z.ltb_spec M v); [lia|].
  apply isSome_eq. exact H'.
Qed.

Lemma simulateCmyk_exact (r g b : Z) :
  (0 <= r <= 255)%Z -> (0 <= g <= 255)%Z -> (0 <= b <= 255)%Z ->
  simulateCmyk (JS.ofZ r) (JS.ofZ g) (JS.ofZ b) = Some (r, g, b).
Proof.
  intros Hr Hg Hb. rewrite simulateCmyk_channels by assumption. cbv zeta.
  rewrite !channelRoundTrip_exact by lia. reflexivity.
Qed.

(** C5: converting a byte triple to CMYK and back gives each channel
    back within 1 of the original, and pure black takes the guarded
    branch ([k = 1], no division) and comes back as (0, 0, 0). *)
Theorem cmyk_round_trip (r g b : Z) :
  (0 <= r <= 255)%Z -> (0 <= g <= 255)%Z -> (0 <= b <= 255)%Z ->
  (exists r' g' b',
     simulateCmyk (JS.ofZ r) (JS.ofZ g) (JS.ofZ b) = Some (r', g', b') /\
     (Z.abs (r' - r) <= 1)%Z /\ (Z.abs (g' - g) <= 1)%Z /\ (Z.abs (b' - b) <= 1)%Z) /\
  rgbToCmyk (JS.ofZ 0) (JS.ofZ 0) (JS.ofZ 0) = (0, 0, 0, 1)%float /\
  simulateCmyk (JS.ofZ 0) (JS.ofZ 0) (JS.ofZ 0) = Some (0, 0, 0)%Z.
Proof.
  intros Hr Hg Hb. split.
  - exists r, g, b. split; [apply simulateCmyk_exact; assumption|lia].
  - split; vm_compute; reflexivity.
Qed.

Lemma cmyk_round_trip_witness :
  (0 <= 13 <= 255)%Z /\ (0 <= 200 <= 255)%Z /\ (0 <= 77 <= 255)%Z /\
  exists r' g' b',
    simulateCmyk (JS.ofZ 13) (JS.ofZ 200) (JS.ofZ 77) = Some (r', g', b') /\
    (Z.abs (r' - 13) <= 1)%Z /\ (Z.abs (g' - 200) <= 1)%Z /\ (Z.abs (b' - 77) <= 1)%Z.
Proof.
  split; [lia|]. split; [lia|]. split; [lia|].
  apply (cmyk_round_trip 13 200 77); lia.
Defined.

Lemma neutral_table : forall_range 256 neutralOk 0 = true.
Proof. vm_compute. reflexivity. Qed.

(** C6: at [exposure = 50] and [contrast = 50] the contrast factor is 1,
    the exposure term is 0, and the rounded, clamped remap is the
    identity on every integer luminance in [0, 255], in both the Value
    Aliasing transform and the Glyph Mirror transform. *)
Theorem neutral_remap_identity (luma : Z) :
  (0 <= luma <= 255)%Z ->
  calculatedContrast 50 = 1%float /\
  calculatedExposure 50 = 0%float /\
  remapGray 50 50 (JS.ofZ luma) = Some luma /\
  pfpFinalGray true 50 50 (GrayValue luma) = Some luma.
Proof.
  intros Hl.
  pose proof (forall_range_spec 256 _ 0 neutral_table luma ltac:(lia)) as H.
  unfold neutralOk in H. apply andb_true_iff in H. destruct H as [H1 H2].
  split; [vm_compute; reflexivity|]. split; [vm_compute; reflexivity|].
  split; apply isSome_eq; assumption.
Qed.

Lemma neutral_remap_identity_witness :
  (0 <= 128 <= 255)%Z /\
  calculatedContrast 50 = 1%float /\
  calculatedExposure 50 = 0%float /\
  remapGray 50 50 (JS.ofZ 128) = Some 128%Z /\
  pfpFinalGray true 50 50 (GrayValue 128) = Some 128%Z.
Proof.
  split; [lia|]. apply (neutral_remap_identity 128). lia.
Defined.

(** ** The circular coverage mask *)

Lemma diameter_table : forall_range 101 diameterOk 0 = true.
Proof. vm_compute. reflexivity. Qed.

Lemma pfpDiameter_range (resolution : Z) :
  (0 <= resolution <= 100)%Z ->
  exists d, In d pfpDiameters /\ pfpDiameter resolution = Some (Z.of_nat d).
Proof.
  intros Hr.
  pose proof (forall_range_spec 101 _ 0 diameter_table resolution ltac:(lia)) as H.
  unfold diameterOk in H. destruct (pfpDiameter resolution) as [d|]; [|discriminate].
  apply existsb_exists in H. destruct H as [d' [Hin E]].
  apply Z.eqb_eq in E. exists d'. split; [exact Hin|congruence].
Qed.

Lemma shortcut_table : forallb shortcutMaskOk pfpDiameters = true.
Proof. vm_compute. reflexivity. Qed.

(** C7, refuted as stated: at resolution 0 (diameter 9) the centre of
    cell (7, 7) lies within the radius, so the shortcut stores 1; only
    19 of its 25 sub-samples lie within the radius, so full
    supersampling would store 19/25. *)
Lemma shortcut_differs_from_supersampling :
  pfpDiameter 0 = Some 9%Z /\
  isOriginalPixel 9 7 7 = true /\
  get2 0%float (matrixMask 9 true) 7 7 = 1%float /\
  pointsInside 9 7 7 = 19 /\
  supersampledCoverage 9 7 7 = (19 / 25)%float /\
  supersampledCoverage 9 7 7 <> get2 0%float (matrixMask 9 true) 7 7.
Proof.
  repeat split; try (vm_compute; reflexivity).
  intros H.
  assert (E : PrimFloat.eqb (supersampledCoverage 9 7 7)
                            (get2 0%float (matrixMask 9 true) 7 7) = false)
    by (vm_compute; reflexivity).
  rewrite H in E. vm_compute in E. discriminate.
Qed.

(** C7, amended: for every resolution in [0, 100] and every cell the
    shortcut sets to 1, full supersampling finds between 13 and 25 of
    the 25 sub-samples inside, and all 25, the same coverage 1, when the
    cell centre is within [radius - 0.6] of the circle centre. *)
Theorem shortcut_bounds_supersampling (resolution : Z) (x y : nat) :
  (0 <= resolution <= 100)%Z ->
  exists d,
    pfpDiameter resolution = Some (Z.of_nat d) /\
    (x < d -> y < d -> isOriginalPixel d x y = true ->
     maskCell d true x y = 1%float /\
     13 <= pointsInside d x y <= 25 /\
     (PrimFloat.leb (centerDistance d x y) (radius d - 0.6)%float = true ->
      supersampledCoverage d x y = maskCell d true x y)).
Proof.
  intros Hr. destruct (pfpDiameter_range resolution Hr) as [d [Hd E]].
  exists d. split; [exact E|]. intros Hx Hy Hin.
  pose proof shortcut_table as T. rewrite forallb_forall in T.
  specialize (T d Hd). unfold shortcutMaskOk in T. rewrite forallb_forall in T.
  specialize (T y ltac:(apply in_seq; lia)). rewrite forallb_forall in T.
  specialize (T x ltac:(apply in_seq; lia)).
  unfold shortcutCellOk in T. rewrite Hin in T. cbn [implb] in T. cbv zeta in T.
  apply andb_true_iff in T. destruct T as [T T3].
  apply andb_true_iff in T. destruct T as [T1 T2].
  apply Nat.leb_le in T1, T2.
  assert (Hmask : maskCell d true x y = 1%float).
  { unfold maskCell. simpl. rewrite Hin. reflexivity. }
  split; [exact Hmask|]. split; [lia|].
  intros Hinner. rewrite Hinner in T3. cbn [implb] in T3. apply Nat.eqb_eq in T3.
  rewrite Hmask. unfold supersampledCoverage. rewrite T3. vm_compute. reflexivity.
Qed.

Lemma shortcut_bounds_supersampling_witness :
  (0 <= 0 <= 100)%Z /\
  exists d,
    pfpDiameter 0 = Some (Z.of_nat d) /\
    (7 < d -> 7 < d -> isOriginalPixel d 7 7 = true ->
     maskCell d true 7 7 = 1%float /\
     13 <= pointsInside d 7 7 <= 25 /\
     (PrimFloat.leb (centerDistance d 7 7) (radius d - 0.6)%float = true ->
      supersampledCoverage d 7 7 = maskCell d true 7 7)).
Proof.
  split; [lia|]. apply (shortcut_bounds_supersampling 0 7 7). lia.
Defined.

(** ** Transparent cells *)

Lemma nth_map_seq {A : Type} (f : nat -> A) (n i : nat) (d : A) :
  nth i (map f (seq 0 n)) d = if Nat.ltb i n then f i else d.
Proof.
  destruct (Nat.ltb_spec i n) as [Hi|Hi].
  - rewrite (nth_indep _ d (f 0)) by (rewrite length_map, length_seq; exact Hi).
    rewrite map_nth, seq_nth by exact Hi. reflexivity.
  - apply nth_overflow. rewrite length_map, length_seq. exact Hi.
Qed.

Lemma get2_map_seq {A : Type} (f : nat -> nat -> A) (w h y x : nat) (d : A) :
  get2 d (map (fun y' => map (fun x' => f x' y') (seq 0 w)) (seq 0 h)) y x =
  if Nat.ltb y h && Nat.ltb x w then f x y else d.
Proof.
  unfold get2. rewrite nth_map_seq.
  destruct (Nat.ltb y h); simpl.
  - apply (nth_map_seq (fun x' => f x' y)).
  - destruct x; reflexivity.
Qed.

(** A cell of [fullMatrix] is non-null only where the alpha byte is
    above the threshold. *)
Lemma fullMatrix_some (imageData : list Z) (w h x y : nat) (p : Pixel) :
  get2 None (fullMatrix imageData w h) y x = Some p ->
  x < w /\ y < h /\ (ALPHA_THRESHOLD < alphaAt imageData w x y)%Z.
Proof.
  unfold fullMatrix. rewrite get2_map_seq.
  destruct (Nat.ltb_spec y h); simpl; [|discriminate].
  destruct (Nat.ltb_spec x w); simpl; [|discriminate].
  unfold alphaAt.
  destruct (Z.leb_spec (nth ((y * w + x) * 4 + 3) imageData 0%Z) ALPHA_THRESHOLD);
    [discriminate|].
  intros _. auto.
Qed.

(** Every cell of the cropped [colorMatrix] is a cell of [fullMatrix],
    shifted by the corner of the bounding box. *)
Lemma colorMatrix_cells (imageData : list Z) (w h : nat) (m : PhotoWidgetColorMatrix) :
  colorMatrix imageData w h = Some m ->
  exists minX minY, forall x y p,
    get2 None m y x = Some p ->
    get2 None (fullMatrix imageData w h) (y + minY) (x + minX) = Some p.
Proof.
  unfold colorMatrix.
  destruct (contentBounds (fullMatrix imageData w h) w h) as [[[minX minY] maxX] maxY].
  destruct (maxX =? -1)%Z; [discriminate|].
  intros E. inversion E as [Hm]. clear E.
  exists (Z.to_nat minX), (Z.to_nat minY). intros x y p.
  rewrite get2_map_seq.
  destruct (_ && _); [auto|discriminate].
Qed.

(** A dot is painted only for a non-null cell, in the colour of that
    cell. *)
Lemma drawCell_nonnull width height gap circ aa (matrix : PhotoWidgetColorMatrix)
    (c : nat * nat) (dot : Dot) :
  In dot (drawCell width height gap circ aa matrix c) ->
  exists p, get2 None matrix (cellY dot) (cellX dot) = Some p /\
            fillStyle dot = (pr p, pg p, pb p).
Proof.
  destruct c as [x y]. unfold drawCell.
  destruct (get2 None matrix y x) as [p|] eqn:E; [|intros []].
  destruct circ.
  - destruct (JS.gtb _ _); [|intros []].
    intros [<-|[]]. exists p. simpl. auto.
  - destruct (_ && _); [|intros []].
    intros [<-|[]]. exists p. simpl. auto.
Qed.

Lemma drawPhotoWidgetMatrix_nonnull width height gap circ aa
    (matrix : PhotoWidgetColorMatrix) (dot : Dot) :
  In dot (drawPhotoWidgetMatrix width height gap circ aa matrix) ->
  exists p, get2 None matrix (cellY dot) (cellX dot) = Some p /\
            fillStyle dot = (pr p, pg p, pb p).
Proof.
  unfold drawPhotoWidgetMatrix. destruct (_ || _); [intros []|].
  rewrite in_flat_map. intros [c [_ Hin]].
  eapply drawCell_nonnull. exact Hin.
Qed.

(** C9, refuted as stated for the Glass Dots sampler: on a fully
    transparent image (alpha 0 in every cell, below the threshold) the
    sampled grid of the desktop wallpaper holds the colour (0, 0, 0) in
    cell (0, 0), not null, and the cell is given a blob. *)
Lemma glass_dots_sampler_ignores_alpha :
  (nth 3 clearImage 0%Z <= ALPHA_THRESHOLD)%Z /\
  get2 None (sampleColorGrid clearImage 10 6) 0 0 = Some (mkRgb 0 0 0) /\
  get2 None (sampleColorGrid clearImage 10 6) 0 0 <> None /\
  nth_error (blobsDrawn (glassDotsBlobs (mkGlassDotsState 0 0 0 0) 3840 2160
                                        (fun _ _ => clearImage))) 0 =
    Some (AnchorScan, Blob.mk 0 0 1).
Proof.
  repeat split; try (vm_compute; reflexivity).
  - vm_compute. discriminate.
  - vm_compute. discriminate.
Qed.

(** C9, amended: in the Photo Widget, a grid cell whose sampled alpha is
    at most 10 is null in the sampled matrix, and every dot the
    compositing pass paints is painted for a non-null matrix cell, in
    that cell's colour; through the crop, each painted dot comes from a
    sampled cell other than the transparent one, with alpha above 10. *)
Theorem transparent_cell_is_null_and_not_drawn (imageData : list Z) (w h x y : nat)
    (width height : float) (gap : Z) (circ aa : bool) :
  x < w -> y < h -> (alphaAt imageData w x y <= ALPHA_THRESHOLD)%Z ->
  get2 None (fullMatrix imageData w h) y x = None /\
  (forall matrix dot,
     In dot (drawPhotoWidgetMatrix width height gap circ aa matrix) ->
     get2 None matrix (cellY dot) (cellX dot) <> None) /\
  (forall dot,
     In dot (renderPhotoWidget width height gap circ aa imageData w h) ->
     exists sx sy p,
       get2 None (fullMatrix imageData w h) sy sx = Some p /\
       fillStyle dot = (pr p, pg p, pb p) /\
       (ALPHA_THRESHOLD < alphaAt imageData w sx sy)%Z /\
       (sx, sy) <> (x, y)).
Proof.
  intros Hx Hy Halpha. split; [|split].
  - destruct (get2 None (fullMatrix imageData w h) y x) as [p|] eqn:E; [|reflexivity].
    apply fullMatrix_some in E. lia.
  - intros matrix dot Hin.
    destruct (drawPhotoWidgetMatrix_nonnull _ _ _ _ _ _ _ Hin) as [p [E _]].
    congruence.
  - intros dot. unfold renderPhotoWidget.
    destruct (colorMatrix imageData w h) as [m|] eqn:Em; [|intros []].
    intros Hin.
    destruct (drawPhotoWidgetMatrix_nonnull _ _ _ _ _ _ _ Hin) as [p [E Hfill]].
    destruct (colorMatrix_cells _ _ _ _ Em) as [minX [minY Hcrop]].
    apply Hcrop in E.
    exists (cellX dot + minX), (cellY dot + minY), p.
    split; [exact E|]. split; [exact Hfill|].
    pose proof (fullMatrix_some _ _ _ _ _ _ E) as [_ [_ Ha]].
    split; [exact Ha|].
    intros Heq. inversion Heq; subst. lia.
Qed.

Lemma transparent_cell_is_null_and_not_drawn_witness :
  1 < 2 /\ 0 < 2 /\ (alphaAt twoByTwo 2 1 0 <= ALPHA_THRESHOLD)%Z /\
  get2 None (fullMatrix twoByTwo 2 2) 0 1 = None.
Proof.
  split; [lia|]. split; [lia|]. split; [vm_compute; discriminate|].
  apply (transparent_cell_is_null_and_not_drawn twoByTwo 2 2 1 0 1176 1176 0 true false);
    [lia|lia|vm_compute; discriminate].
Defined.

(** ** Marker selection *)

Lemma insertBySize_perm (e : nat * Blob.t) (l : list (nat * Blob.t)) :
  Permutation (insertBySize e l) (e :: l).
Proof.
  induction l as [|a l IH]; simpl; [apply Permutation_refl|].
  destruct (Nat.ltb _ _); [|apply Permutation_refl].
  eapply perm_trans; [apply perm_skip, IH|apply perm_swap].
Qed.

Lemma insertBySize_sorted (e : nat * Blob.t) (l : list (nat * Blob.t)) :
  Forall (fun c => fst e < fst c) l ->
  StronglySorted ranksBefore l -> StronglySorted ranksBefore (insertBySize e l).
Proof.
  intros Hidx. induction 1 as [|a l Hl IH Ha]; simpl.
  - constructor; constructor.
  - inversion Hidx as [|? ? Hea Hel]; subst.
    destruct (Nat.ltb_spec (Blob.size (snd e)) (Blob.size (snd a))) as [Hlt|Hge].
    + constructor; [apply IH; exact Hel|].
      eapply Permutation_Forall; [apply Permutation_sym, insertBySize_perm|].
      constructor; [left; exact Hlt|exact Ha].
    + constructor; [constructor; assumption|].
      rewrite Forall_forall in Ha, Hel. apply Forall_forall.
      intros c [<-|Hc].
      * unfold ranksBefore. lia.
      * specialize (Ha c Hc). specialize (Hel c Hc). unfold ranksBefore in *. lia.
Qed.

Lemma sortedAllBlobs_perm (blobs : list Blob.t) :
  Permutation (sortedAllBlobs blobs) (combine (seq 0 (length blobs)) blobs).
Proof.
  unfold sortedAllBlobs. induction (combine (seq 0 (length blobs)) blobs) as [|e l IH]; simpl.
  - constructor.
  - eapply perm_trans; [apply insertBySize_perm|apply perm_skip, IH].
Qed.

Lemma sortedFrom_sorted (blobs : list Blob.t) (s : nat) :
  StronglySorted ranksBefore
    (fold_right insertBySize [] (combine (seq s (length blobs)) blobs)) /\
  Forall (fun c => s <= fst c)
    (fold_right insertBySize [] (combine (seq s (length blobs)) blobs)).
Proof.
  revert s. induction blobs as [|a blobs IH]; intros s; simpl.
  - split; constructor.
  - destruct (IH (S s)) as [Hsorted Hidx]. split.
    + apply insertBySize_sorted; [|exact Hsorted].
      eapply Forall_impl; [|exact Hidx]. simpl. intros c Hc. lia.
    + eapply Permutation_Forall; [apply Permutation_sym, insertBySize_perm|].
      constructor; [simpl; lia|].
      eapply Forall_impl; [|exact Hidx]. simpl. intros c Hc. lia.
Qed.

Lemma sortedAllBlobs_sorted (blobs : list Blob.t) :
  StronglySorted ranksBefore (sortedAllBlobs blobs).
Proof.
  apply sortedFrom_sorted.
Qed.

Lemma sortedAllBlobs_length (blobs : list Blob.t) :
  length (sortedAllBlobs blobs) = length blobs.
Proof.
  rewrite (Permutation_length (sortedAllBlobs_perm blobs)).
  rewrite length_combine, length_seq. lia.
Qed.

Lemma in_combine_seq {A : Type} (l : list A) (s i : nat) (a : A) :
  In (i, a) (combine (seq s (length l)) l) <-> s <= i /\ nth_error l (i - s) = Some a.
Proof.
  revert s. induction l as [|c l IH]; intros s; simpl.
  - split; [intros []|]. intros [_ H]. destruct (i - s); discriminate.
  - rewrite IH. split.
    + intros [E|[Hs Hn]].
      * inversion E; subst. rewrite Nat.sub_diag. auto.
      * split; [lia|]. replace (i - s) with (S (i - S s)) by lia. exact Hn.
    + intros [Hs Hn]. destruct (Nat.eq_dec i s) as [->|Hne].
      * left. rewrite Nat.sub_diag in Hn. simpl in Hn. congruence.
      * right. split; [lia|].
        replace (i - s) with (S (i - S s)) in Hn by lia. exact Hn.
Qed.

Lemma combine_seq_fst {A : Type} (l : list A) (s : nat) :
  map fst (combine (seq s (length l)) l) = seq s (length l).
Proof.
  revert s. induction l as [|c l IH]; intros s; simpl; [reflexivity|].
  f_equal. apply IH.
Qed.

Lemma StronglySorted_app_order {A : Type} (R : A -> A -> Prop) (l1 l2 : list A) :
  StronglySorted R (l1 ++ l2) -> forall a c, In a l1 -> In c l2 -> R a c.
Proof.
  induction l1 as [|a1 l1 IH]; simpl; intros HS a c Ha Hc; [destruct Ha|].
  inversion HS as [|? ? Hs' Hf]; subst.
  destruct Ha as [<-|Ha].
  - rewrite Forall_forall in Hf. apply Hf, in_or_app. right. exact Hc.
  - apply IH; assumption.
Qed.

Lemma markerCount_table : forall_range 100001 markerCountOk 0 = true.
Proof. vm_compute. reflexivity. Qed.

Lemma markerCount_exact (n : nat) :
  (Z.of_nat n <= 100000)%Z ->
  markerCount (Z.of_nat n) = Some (Z.of_nat (Nat.min ((n + 24) / 25) 5)).
Proof.
  intros Hn.
  pose proof (forall_range_spec 100001 _ 0 markerCount_table (Z.of_nat n) ltac:(lia)) as H.
  apply isSome_eq in H. rewrite H. f_equal.
  rewrite Nat2Z.inj_min, Nat2Z.inj_div, Nat2Z.inj_add. reflexivity.
Qed.

(** C8: of all the blobs of a pass (at most 100000), exactly
    [min(ceil(4% of the count), 5)] are flagged; they are distinct
    blobs of the array, the first ones of the array sorted stably by
    decreasing size, so no unflagged blob is larger than a flagged one.
    The ranking is over the whole array [blobs]: the size filter, which
    depends on [lowerLimit], plays no part in it. *)
Theorem markers_are_top_ranked (blobs : list Blob.t) :
  (Z.of_nat (length blobs) <= 100000)%Z ->
  exists flagged,
    topBlobsForMarkers blobs = Some flagged /\
    length flagged = Nat.min ((length blobs + 24) / 25) 5 /\
    flagged = firstn (length flagged) (sortedAllBlobs blobs) /\
    Permutation (sortedAllBlobs blobs) (combine (seq 0 (length blobs)) blobs) /\
    StronglySorted ranksBefore (sortedAllBlobs blobs) /\
    NoDup (map fst flagged) /\
    (forall i a, In (i, a) flagged -> nth_error blobs i = Some a) /\
    (forall i a j c,
       In (i, a) flagged -> nth_error blobs j = Some c -> ~ In j (map fst flagged) ->
       Blob.size c <= Blob.size a).
Proof.
  intros Hn. set (k := Nat.min ((length blobs + 24) / 25) 5).
  assert (Hk : k <= length blobs).
  { unfold k. generalize (length blobs) as n. intros n.
    destruct (Nat.le_gt_cases 5 n); [lia|].
    do 5 (destruct n as [|n]; [vm_compute; lia|]). lia. }
  exists (firstn k (sortedAllBlobs blobs)).
  assert (Hlen : length (firstn k (sortedAllBlobs blobs)) = k).
  { rewrite length_firstn, sortedAllBlobs_length. lia. }
  pose proof (sortedAllBlobs_perm blobs) as Hperm.
  pose proof (sortedAllBlobs_sorted blobs) as Hsort.
  assert (Hin : forall i a, In (i, a) (sortedAllBlobs blobs) <-> nth_error blobs i = Some a).
  { intros i a. split.
    - intros H. apply (Permutation_in _ Hperm) in H.
      apply in_combine_seq in H. rewrite Nat.sub_0_r in H. apply H.
    - intros H. apply (Permutation_in _ (Permutation_sym Hperm)).
      apply in_combine_seq. rewrite Nat.sub_0_r. split; [lia|exact H]. }
  assert (Hnodup : NoDup (map fst (sortedAllBlobs blobs))).
  { eapply Permutation_NoDup; [apply Permutation_sym, Permutation_map, Hperm|].
    rewrite combine_seq_fst. apply seq_NoDup. }
  rewrite <- (firstn_skipn k (sortedAllBlobs blobs)) in Hsort, Hnodup.
  repeat split.
  - unfold topBlobsForMarkers. rewrite (markerCount_exact _ Hn). cbn [obind].
    unfold slice0. fold k.
    destruct (Z.ltb_spec (Z.of_nat k) 0); [lia|].
    rewrite Nat2Z.id. reflexivity.
  - exact Hlen.
  - rewrite Hlen. reflexivity.
  - exact Hperm.
  - apply sortedAllBlobs_sorted.
  - rewrite map_app in Hnodup. apply NoDup_app_remove_r in Hnodup. exact Hnodup.
  - intros i a H. apply Hin. rewrite <- (firstn_skipn k (sortedAllBlobs blobs)).
    apply in_or_app. left. exact H.
  - intros i a j c Hflag Hj Hnot.
    apply Hin in Hj. rewrite <- (firstn_skipn k (sortedAllBlobs blobs)) in Hj.
    apply in_app_or in Hj. destruct Hj as [Hj|Hj].
    + exfalso. apply Hnot. apply in_map_iff. exists (j, c). auto.
    + pose proof (StronglySorted_app_order _ _ _ Hsort (i, a) (j, c) Hflag Hj) as Hr.
      unfold ranksBefore in Hr. simpl in Hr. lia.
Qed.

(** A flagged blob need not survive the size filter: at sensitivity 20
    and [lowerLimit = 50] the patch image gives 52 blobs, three of them
    flagged; the second and third have size 1, below the threshold
    1.5. *)
Example flagged_blob_below_size_threshold :
  topBlobsForMarkers (patchPass 20) =
    Some [(0, Blob.mk 0 0 3); (1, Blob.mk 3 0 1); (2, Blob.mk 4 0 1)] /\
  sizeThreshold (mkGlassDotsState 0 0 20 50) (patchPass 20) = 1.5%float /\
  passesSizeFilter (mkGlassDotsState 0 0 20 50) (patchPass 20) (Blob.mk 3 0 1) = false.
Proof.
  repeat split; vm_compute; reflexivity.
Qed.

Lemma markers_are_top_ranked_witness :
  (Z.of_nat (length (blobsOf solidPass)) <= 100000)%Z /\
  exists flagged,
    topBlobsForMarkers (blobsOf solidPass) = Some flagged /\
    length flagged = Nat.min ((length (blobsOf solidPass) + 24) / 25) 5.
Proof.
  split; [vm_compute; discriminate|].
  destruct (markers_are_top_ranked (blobsOf solidPass)) as [flagged [H1 [H2 _]]];
    [vm_compute; discriminate|].
  exists flagged. split; assumption.
Defined.

(** ** Clamping *)

Lemma gridWidth_table : forall_range 101 gridWidthOk 0 = true.
Proof. vm_compute. reflexivity. Qed.



(** *** Order facts on numbers *)

Lemma SFcompare_antisym (x y : spec_float) :
  SFcompare x y = option_map CompOpp (SFcompare y x).
Proof.
  destruct x as [sx|sx| |sx mx ex], y as [sy|sy| |sy my ey]; simpl; try reflexivity;
    try (destruct sx; reflexivity); try (destruct sy; reflexivity);
    try (destruct sx, sy; reflexivity).
  destruct sx, sy; simpl; try reflexivity.
  - rewrite (Z.compare_antisym ey ex). destruct (ey ?= ex)%Z; simpl; try reflexivity.
    rewrite (Pos.compare_cont_antisym my mx Eq). simpl.
    destruct (Pos.compare_cont Eq my mx); reflexivity.
  - rewrite (Z.compare_antisym ey ex). destruct (ey ?= ex)%Z; simpl; try reflexivity.
    rewrite (Pos.compare_cont_antisym my mx Eq). reflexivity.
Qed.

Lemma ltb_leb (a c : float) : PrimFloat.ltb a c = true -> PrimFloat.leb a c = true.
Proof.
  rewrite FloatAxioms.ltb_spec, FloatAxioms.leb_spec. unfold SFltb, SFleb.
  destruct (SFcompare (Prim2SF a) (Prim2SF c)) as [[]|]; auto.
Qed.

Lemma not_nan_compare (a : float) :
  PrimFloat.is_nan a = false -> Prim2SF a <> S754_nan.
Proof.
  unfold PrimFloat.is_nan. rewrite FloatAxioms.eqb_spec. intros H E.
  rewrite E in H. discriminate.
Qed.

Lemma compare_defined (x y : spec_float) :
  x <> S754_nan -> y <> S754_nan -> SFcompare x y <> None.
Proof.
  destruct x as [sx|sx| |sx mx ex], y as [sy|sy| |sy my ey]; simpl;
    intros Hx Hy; try discriminate; congruence.
Qed.

Lemma not_ltb_leb (a c : float) :
  PrimFloat.is_nan a = false -> PrimFloat.is_nan c = false ->
  PrimFloat.ltb c a = false -> PrimFloat.leb a c = true.
Proof.
  intros Ha Hc. rewrite FloatAxioms.ltb_spec, FloatAxioms.leb_spec. unfold SFltb, SFleb.
  rewrite (SFcompare_antisym (Prim2SF a) (Prim2SF c)).
  pose proof (compare_defined _ _ (not_nan_compare c Hc) (not_nan_compare a Ha)) as Hd.
  destruct (SFcompare (Prim2SF c) (Prim2SF a)) as [[]|]; simpl; congruence.
Qed.






(** * Properties of the panels and of the rest of the core *)

(** ** Undo history *)

Section HistoryFacts.

Variables T P : Type.
Variable spread : T -> option P -> T.
Variable sameJson : T -> T -> bool.
Variable initialState : T.

Local Abbreviation hist := (History.t T).

Lemma pushState_wellFormed (s : T) (h : hist) : History.wellFormed (History.pushState s h).
Proof.
  unfold History.wellFormed, History.pushState; simpl.
  rewrite length_app; simpl; lia.
Qed.

Lemma pushState_length (s : T) (h : hist) :
  History.wellFormed h ->
  length (History.history (History.pushState s h)) = History.index h + 2 /\
  History.index (History.pushState s h) = History.index h + 1.
Proof.
  unfold History.wellFormed, History.pushState; simpl; intros H.
  rewrite length_app, length_firstn; simpl. lia.
Qed.

Lemma pushState_state (s : T) (h : hist) :
  History.wellFormed h -> History.state (History.pushState s h) = Some s.
Proof.
  intros H. unfold History.state.
  destruct (pushState_length s h H) as [_ Hi]. rewrite Hi.
  unfold History.pushState; simpl.
  rewrite nth_error_app2; rewrite length_firstn; unfold History.wellFormed in H.
  - replace (History.index h + 1 - Nat.min (History.index h + 1) (length (History.history h)))
      with 0 by lia. reflexivity.
  - lia.
Qed.

Lemma pushState_past (s : T) (h : hist) (i : nat) :
  History.wellFormed h -> i <= History.index h ->
  nth_error (History.history (History.pushState s h)) i = nth_error (History.history h) i.
Proof.
  unfold History.wellFormed; intros H Hi. unfold History.pushState; simpl.
  rewrite nth_error_app1 by (rewrite length_firstn; lia).
  rewrite nth_error_firstn.
  replace (Nat.ltb i (History.index h + 1)) with true by (symmetry; apply Nat.ltb_lt; lia).
  reflexivity.
Qed.

Lemma undo_wellFormed (h : hist) : History.wellFormed h -> History.wellFormed (History.undo h).
Proof.
  unfold History.wellFormed, History.undo; intros H.
  destruct (Nat.ltb 0 (History.index h)); simpl; lia.
Qed.

Lemma redo_wellFormed (h : hist) : History.wellFormed h -> History.wellFormed (History.redo h).
Proof.
  unfold History.wellFormed, History.redo; intros H.
  destruct (Nat.ltb_spec (History.index h) (length (History.history h) - 1)); simpl; lia.
Qed.

Lemma wellFormed_state (h : hist) :
  History.wellFormed h -> exists s, History.state h = Some s.
Proof.
  unfold History.wellFormed, History.state; intros H.
  destruct (nth_error (History.history h) (History.index h)) eqn:E; eauto.
  apply nth_error_None in E; lia.
Qed.

Lemma step_wellFormed (h : hist) (op : History.Op T P) :
  History.wellFormed h ->
  exists h', History.step spread sameJson initialState h op = Some h' /\ History.wellFormed h'.
Proof.
  intros H. destruct op as [action| | |o|s]; simpl.
  - unfold History.setState. destruct (wellFormed_state h H) as [cur ->]. cbn [obind].
    match goal with |- context [if ?c then _ else _] => destruct c end.
    + eauto.
    + eexists; split; [reflexivity|apply pushState_wellFormed].
  - eauto using undo_wellFormed.
  - eauto using redo_wellFormed.
  - eexists; split; [reflexivity|apply pushState_wellFormed].
  - eexists; split; [reflexivity|]. unfold History.wellFormed; simpl; lia.
Qed.

(** A render in which one callback is called schedules what the
    callback computes from the state. *)
Lemma render_one_call (h : hist) (op : History.Op T P) :
  History.render spread sameJson initialState [op] h =
  History.step spread sameJson initialState h op.
Proof.
  unfold History.render. cbn [History.calls].
  destruct op as [action| | |o|s]; cbn [History.writesOf History.step].
  - unfold History.setState.
    destruct (History.state h) as [current|]; [|reflexivity]. cbn [obind].
    match goal with |- context [if ?c then _ else _] => destruct c end.
    + cbn [obind]. destruct h; reflexivity.
    + reflexivity.
  - cbn [obind]. unfold History.undo.
    destruct (Nat.ltb 0 (History.index h)); [reflexivity|destruct h; reflexivity].
  - cbn [obind]. unfold History.redo.
    destruct (Nat.ltb (History.index h) (length (History.history h) - 1));
      [reflexivity|destruct h; reflexivity].
  - reflexivity.
  - reflexivity.
Qed.

Lemma renders_wellFormed (batches : list (list (History.Op T P))) : forall h : hist,
  Forall (fun ops => length ops <= 1) batches ->
  History.wellFormed h ->
  exists h', History.renders spread sameJson initialState batches h = Some h' /\
             History.wellFormed h'.
Proof.
  induction batches as [|ops batches IH]; intros h Hone H; cbn [History.renders].
  - eauto.
  - inversion Hone as [|? ? Hlen Hrest]; subst.
    destruct ops as [|op [|op' ops]]; [| |simpl in Hlen; lia].
    + cbn [History.render History.calls obind]. auto.
    + rewrite render_one_call.
      destruct (step_wellFormed h op H) as (h1 & -> & H1). cbn [obind]. auto.
Qed.

(** Two calls of one render: [undo] after [resetHistory] still sees the
    index of the render, which lies outside the new array when it was 2
    or more. *)
Lemma undo_in_the_render_of_resetHistory (h : hist) (s : T) :
  2 <= History.index h ->
  History.render spread sameJson initialState [History.OpResetHistory s; History.OpUndo] h =
    Some (History.mk [s] (History.index h - 1)) /\
  History.state (History.mk [s] (History.index h - 1)) = None.
Proof.
  intros Hi. unfold History.render. cbn [History.calls History.writesOf obind].
  replace (Nat.ltb 0 (History.index h)) with true
    by (symmetry; apply Nat.ltb_lt; lia).
  split; [reflexivity|].
  unfold History.state. cbn [History.history History.index].
  apply nth_error_None. simpl. lia.
Qed.

(** X1: when every render sees at most one call, which is then made
    with the callbacks of the render that followed the call before,
    the index stays inside the history array from
    [useHistory(initialState)] on, whatever the calls are, so the
    current state [history[index]] is never undefined. *)
Theorem history_state_always_defined (batches : list (list (History.Op T P))) :
  Forall (fun ops => length ops <= 1) batches ->
  exists h s,
    History.renders spread sameJson initialState batches (History.init initialState) = Some h /\
    History.index h < length (History.history h) /\
    History.state h = Some s.
Proof.
  intros Hone.
  destruct (renders_wellFormed batches (History.init initialState) Hone) as (h & Hr & Hw).
  - unfold History.wellFormed; simpl; lia.
  - destruct (wellFormed_state h Hw) as [s Hs]. exists h, s. auto.
Qed.

(** X2: [setState] with a state whose JSON text equals the current one
    changes nothing.  With any other state it makes that state current,
    keeps the entries up to the old index, drops every entry that could
    have been redone ([canRedo] is false), and can be undone: [undo]
    gives the old state back and [redo] after it the new one. *)
Theorem setState_undo_redo (h : hist) (current : T) (action : History.SetStateAction T) :
  History.state h = Some current ->
  let resolvedState :=
    match action with
    | History.Value v => v
    | History.Updater f => f current
    end in
  (sameJson resolvedState current = true ->
   History.setState sameJson action h = Some h) /\
  (sameJson resolvedState current = false ->
   exists h',
     History.setState sameJson action h = Some h' /\
     History.state h' = Some resolvedState /\
     History.canUndo h' = true /\ History.canRedo h' = false /\
     (forall i, i <= History.index h ->
        nth_error (History.history h') i = nth_error (History.history h) i) /\
     History.state (History.undo h') = Some current /\
     History.redo (History.undo h') = h').
Proof.
  intros Hs. cbv zeta.
  set (v := match action with
            | History.Value v => v
            | History.Updater f => f current
            end).
  assert (Hset : History.setState sameJson action h =
                 if sameJson v current then Some h else Some (History.pushState v h)).
  { unfold History.setState. rewrite Hs. reflexivity. }
  split; intros Hne; rewrite Hset, Hne; [reflexivity|].
  assert (Hw : History.wellFormed h).
  { unfold History.wellFormed. apply nth_error_Some. unfold History.state in Hs. congruence. }
  exists (History.pushState v h).
  destruct (pushState_length v h Hw) as [Hlen Hidx].
  split; [reflexivity|].
  split; [apply pushState_state; exact Hw|].
  assert (Hu : History.undo (History.pushState v h) =
               History.mk (History.history (History.pushState v h)) (History.index h)).
  { unfold History.undo. rewrite Hidx.
    replace (Nat.ltb 0 (History.index h + 1)) with true by (symmetry; apply Nat.ltb_lt; lia).
    f_equal; lia. }
  split; [unfold History.canUndo; rewrite Hidx; apply Nat.ltb_lt; lia|].
  split; [unfold History.canRedo; rewrite Hidx, Hlen; apply Nat.ltb_ge; lia|].
  split; [intros i Hi; apply pushState_past; assumption|].
  split.
  - rewrite Hu. unfold History.state; cbn [History.history History.index].
    rewrite pushState_past by (auto; lia). exact Hs.
  - rewrite Hu. unfold History.redo; cbn [History.history History.index]. rewrite Hlen.
    replace (Nat.ltb (History.index h) (History.index h + 2 - 1)) with true
      by (symmetry; apply Nat.ltb_lt; lia).
    destruct (History.pushState v h) as [hs i] eqn:E; simpl in *. subst i. reflexivity.
Qed.

(** X3: [undo] and [redo] never change the history array, and each
    reverses the other: [redo] after an [undo] that was possible, and
    [undo] after a [redo] that was possible, give the pair back. *)
Theorem undo_redo_inverse (h : hist) :
  History.index h < length (History.history h) ->
  (History.canUndo h = true -> History.redo (History.undo h) = h) /\
  (History.canRedo h = true -> History.undo (History.redo h) = h) /\
  History.history (History.undo h) = History.history h /\
  History.history (History.redo h) = History.history h.
Proof.
  destruct h as [hs i]. unfold History.canUndo, History.canRedo, History.undo, History.redo.
  simpl. intros Hw. repeat split.
  - intros Hu. rewrite Hu. simpl. apply Nat.ltb_lt in Hu.
    replace (Nat.ltb (i - 1) (length hs - 1)) with true by (symmetry; apply Nat.ltb_lt; lia).
    f_equal; lia.
  - intros Hr. rewrite Hr. simpl.
    replace (Nat.ltb 0 (i + 1)) with true by (symmetry; apply Nat.ltb_lt; lia).
    f_equal; lia.
  - destruct (Nat.ltb 0 i); reflexivity.
  - destruct (Nat.ltb i (length hs - 1)); reflexivity.
Qed.

(** X4: [reset] pushes the initial state with the override spread over
    it as a new entry, so it can be undone; [resetHistory] replaces the
    whole array, after which nothing can be undone or redone. *)
Theorem reset_can_be_undone (h : hist) (overrideState : option P) (newState : T) :
  History.index h < length (History.history h) ->
  let h' := History.reset spread initialState overrideState h in
  History.state h' = Some (spread initialState overrideState) /\
  History.canRedo h' = false /\
  History.state (History.undo h') = History.state h /\
  History.state (History.resetHistory newState h) = Some newState /\
  History.canUndo (History.resetHistory newState h) = false /\
  History.canRedo (History.resetHistory newState h) = false.
Proof.
  intros Hw h'. subst h'. unfold History.reset.
  destruct (pushState_length (spread initialState overrideState) h Hw) as [Hlen Hidx].
  split; [apply pushState_state; exact Hw|].
  split; [unfold History.canRedo; rewrite Hidx, Hlen; apply Nat.ltb_ge; lia|].
  split; [|repeat split].
  unfold History.undo. rewrite Hidx.
  replace (Nat.ltb 0 (History.index h + 1)) with true by (symmetry; apply Nat.ltb_lt; lia).
  unfold History.state; simpl.
  replace (History.index h + 1 - 1) with (History.index h) by lia.
  rewrite nth_error_app1 by (rewrite length_firstn; lia).
  rewrite nth_error_firstn.
  replace (Nat.ltb (History.index h) (History.index h + 1)) with true
    by (symmetry; apply Nat.ltb_lt; lia).
  reflexivity.
Qed.

End HistoryFacts.

Lemma history_state_always_defined_witness :
  exists h s,
    History.renders (fun i (o : option nat) => i) Nat.eqb 0
      [[History.OpSetState (History.Value 7)]; [History.OpUndo]; [];
       [History.OpResetHistory 3]; [History.OpReset None]]
      (History.init 0) = Some h /\
    History.index h < length (History.history h) /\
    History.state h = Some s.
Proof.
  apply (history_state_always_defined nat nat (fun i o => i) Nat.eqb 0).
  repeat (constructor; try (simpl; lia)).
Defined.

Lemma setState_undo_redo_witness :
  History.state (History.mk [1; 2; 3] 1) = Some 2 /\
  Nat.eqb 7 2 = false /\
  History.setState Nat.eqb (History.Value 7) (History.mk [1; 2; 3] 1) =
    Some (History.mk [1; 2; 7] 2) /\
  History.state (History.undo (History.mk [1; 2; 7] 2)) = Some 2.
Proof.
  split; [reflexivity|]. split; [reflexivity|].
  destruct (setState_undo_redo nat Nat.eqb (History.mk [1; 2; 3] 1) 2 (History.Value 7)
              eq_refl) as [_ H].
  destruct (H eq_refl) as [h' [Hset [_ [_ [_ [_ [Hundo _]]]]]]].
  assert (E : h' = History.mk [1; 2; 7] 2) by (cbv in Hset; congruence).
  subst h'. split; [exact Hset|exact Hundo].
Defined.

Lemma undo_redo_inverse_witness :
  History.canUndo (History.mk [1; 2; 3] 1) = true /\
  History.redo (History.undo (History.mk [1; 2; 3] 1)) = History.mk [1; 2; 3] 1.
Proof.
  split; [reflexivity|].
  destruct (undo_redo_inverse nat (History.mk [1; 2; 3] 1)) as [H _]; [simpl; lia|].
  apply H. reflexivity.
Defined.

Lemma reset_can_be_undone_witness :
  History.state
    (History.undo (History.reset (fun i (o : option nat) => i) 0 None (History.mk [1; 2; 3] 1))) =
  Some 2.
Proof.
  destruct (reset_can_be_undone nat nat (fun i o => i) 0 (History.mk [1; 2; 3] 1) None 5)
    as [_ [_ [H _]]]; [simpl; lia|].
  exact H.
Defined.

(** ** The paths from the controls to the core *)




(** ** Merging switched off *)

Lemma NoDup_rowMajor (w h : nat) : NoDup (rowMajor w h).
Proof.
  unfold rowMajor. generalize (seq_NoDup h 0). generalize (seq 0 h) as ys.
  induction ys as [|y ys IH]; intros Hnd; simpl; [constructor|].
  inversion Hnd as [|? ? Hy Hys]; subst.
  apply NoDup_app.
  - apply Finite.Injective_map_NoDup; [|apply seq_NoDup].
    intros a c E. congruence.
  - apply IH. exact Hys.
  - intros [x' y'] Hin1 Hin2. apply in_map_iff in Hin1. destruct Hin1 as [x0 [E _]].
    inversion E; subst. apply in_flat_map in Hin2. destruct Hin2 as [y0 [Hy0 Hin2]].
    apply in_map_iff in Hin2. destruct Hin2 as [x1 [E1 _]]. inversion E1; subst.
    contradiction.
Qed.

Section MergingOff.

Variable settings : GlassDotsState.
Variable colorGrid : ColorGrid.
Variables w h : nat.
Hypothesis sensitivity_zero : similaritySensitivity settings = 0%Z.

Lemma scanStep_unit visited out x0 y0 :
  get2 false visited y0 x0 = false ->
  scanStep settings colorGrid w h (visited, out) (x0, y0) =
  (markSquare visited x0 y0 1, out ++ [unitBlob (x0, y0)]).
Proof.
  intros Hv. unfold scanStep. rewrite Hv. unfold findMaxBlobSize.
  rewrite sensitivity_zero. reflexivity.
Qed.

Lemma scanFrom_unit cells : forall visited out,
  NoDup cells ->
  (forall p, In p cells -> fst p < w /\ snd p < h) ->
  hasShape visited w h ->
  (forall p, In p cells -> get2 false visited (snd p) (fst p) = false) ->
  snd (scanFrom settings colorGrid w h (visited, out) cells) = out ++ map unitBlob cells.
Proof.
  induction cells as [|[x0 y0] cells IH]; intros visited out Hnd Hcells Hshape Hfree.
  - simpl. rewrite app_nil_r. reflexivity.
  - inversion Hnd as [|? ? Hnotin Hnd']; subst.
    destruct (Hcells (x0, y0)) as [Hx Hy]; [left; reflexivity|]. simpl in Hx, Hy.
    unfold scanFrom. cbn [fold_left].
    rewrite scanStep_unit by (apply (Hfree (x0, y0)); left; reflexivity).
    destruct (markSquare_spec visited w h x0 y0 1 Hshape) as [Hshape' Hget]; [lia|lia|].
    fold (scanFrom settings colorGrid w h (markSquare visited x0 y0 1, out ++ [unitBlob (x0, y0)]) cells).
    rewrite IH; auto.
    + rewrite <- app_assoc. reflexivity.
    + intros p Hp. apply Hcells. right. exact Hp.
    + intros [x1 y1] Hp. simpl. rewrite Hget.
      pose proof (Hfree (x1, y1) (or_intror Hp)) as Hf. simpl in Hf. rewrite Hf. simpl.
      destruct (Blob.coversb (Blob.mk x0 y0 1) x1 y1) eqn:E; [|reflexivity].
      apply coversb_covers in E. unfold Blob.covers in E. simpl in E.
      assert (x1 = x0 /\ y1 = y0) as [-> ->] by lia. contradiction.
Qed.

Lemma detectBlobs_unit :
  detectBlobs settings colorGrid w h = map unitBlob (rowMajor w h).
Proof.
  unfold detectBlobs.
  rewrite (scanFrom_unit (rowMajor w h) (filled h w false) []).
  - reflexivity.
  - apply NoDup_rowMajor.
  - intros [x0 y0] Hin. apply in_rowMajor in Hin. exact Hin.
  - apply hasShape_filled.
  - intros p _. apply get2_filled.
Qed.

End MergingOff.

(** X5: at similarity sensitivity 0 merging is switched off: the pass
    pushes one blob of size 1 for every cell of the grid, in row-major
    order, and no corner filler. *)
Theorem sensitivity_zero_gives_unit_blobs (settings : GlassDotsState) (colorGrid : ColorGrid)
    (w h : nat) :
  similaritySensitivity settings = 0%Z ->
  detectBlobs settings colorGrid w h = map unitBlob (rowMajor w h) /\
  length (detectBlobs settings colorGrid w h) = w * h /\
  fillerBlobs (detectBlobs settings colorGrid w h) = [].
Proof.
  intros Hs. rewrite (detectBlobs_unit settings colorGrid w h Hs).
  split; [reflexivity|]. split.
  - rewrite length_map. apply rowMajor_length.
  - unfold fillerBlobs. generalize (rowMajor w h) as cells.
    induction cells as [|p cells IH]; [reflexivity|exact IH].
Qed.

Lemma sensitivity_zero_gives_unit_blobs_witness :
  detectBlobs (mkGlassDotsState 0 0 0 0) patchGrid 2 1 =
    [(AnchorScan, Blob.mk 0 0 1); (AnchorScan, Blob.mk 1 0 1)].
Proof.
  apply (sensitivity_zero_gives_unit_blobs (mkGlassDotsState 0 0 0 0) patchGrid 2 1).
  reflexivity.
Defined.

(** ** The gap-filling pass tiles what the circle leaves free *)

Lemma localCanExpand_unvisited localVisited lx ly s :
  unvisitedSquare localVisited lx ly s ->
  localCanExpand localVisited lx ly s = true ->
  unvisitedSquare localVisited lx ly (s + 1).
Proof.
  intros Hsq H. unfold localCanExpand in H.
  apply andb_true_iff in H. destruct H as [Hcol Hrow].
  rewrite forallb_forall in Hcol, Hrow.
  apply unvisitedSquare_grow; [exact Hsq| |]; intros i Hi.
  - apply negb_true_iff. apply Hcol. apply in_seq. lia.
  - apply negb_true_iff. apply Hrow. apply in_seq. lia.
Qed.

Lemma circleMask_shape (settings : GlassDotsState) (size : nat) :
  hasShape (circleMask settings size) size size.
Proof.
  unfold circleMask, hasShape. rewrite length_map, length_seq. split; [reflexivity|].
  apply Forall_forall. intros row Hrow. apply in_map_iff in Hrow.
  destruct Hrow as [ly [<- _]]. rewrite length_map, length_seq. reflexivity.
Qed.

Lemma FillInv_init (settings : GlassDotsState) (x0 y0 size : nat) :
  FillInv settings x0 y0 size (circleMask settings size) [].
Proof.
  constructor.
  - apply circleMask_shape.
  - constructor.
  - intros cx cy. split; [auto|]. intros [H|[f [[] _]]]. exact H.
  - constructor.
  - intros f cx cy [].
Qed.

Section FillFacts.

Variable settings : GlassDotsState.
Variables x0 y0 size : nat.

Lemma fillStep_inv localVisited fillers lx ly :
  FillInv settings x0 y0 size localVisited fillers -> lx < size -> ly < size ->
  let st' := fillStep x0 y0 size (localVisited, fillers) (lx, ly) in
  FillInv settings x0 y0 size (fst st') (snd st') /\
  get2 false (fst st') ly lx = true /\
  (forall cy cx, get2 false localVisited cy cx = true -> get2 false (fst st') cy cx = true).
Proof.
  intros Inv Hlx Hly. cbv zeta. unfold fillStep.
  destruct (get2 false localVisited ly lx) eqn:Hanchor.
  { simpl. auto. }
  set (ce := localCanExpand localVisited lx ly).
  set (sub := growSquare ce lx ly size size size 1).
  pose proof (growSquare_ge ce lx ly size size size 1) as Hge. fold sub in Hge.
  destruct (growSquare_limit ce lx ly size size size 1) as [Hsx Hsy]; [lia|lia|].
  fold sub in Hsx, Hsy.
  assert (Hsq : unvisitedSquare localVisited lx ly sub).
  { unfold sub. apply growSquare_invariant.
    - intros i j Hi Hj. replace i with 0 by lia. replace j with 0 by lia.
      rewrite !Nat.add_0_r. exact Hanchor.
    - intros s Hs Hce. apply localCanExpand_unvisited; assumption. }
  destruct (markSquare_spec localVisited size size lx ly sub (fill_shape _ _ _ _ _ _ Inv) Hsx Hsy)
    as [Hshape Hget].
  assert (Hloc : forall cx cy,
            Blob.covers (Blob.mk (x0 + lx) (y0 + ly) sub) (x0 + cx) (y0 + cy) <->
            Blob.covers (Blob.mk lx ly sub) cx cy).
  { intros cx cy. unfold Blob.covers. simpl. lia. }
  assert (Hfree : forall cx cy, Blob.covers (Blob.mk lx ly sub) cx cy ->
            get2 false localVisited cy cx = false).
  { intros cx cy Hc. unfold Blob.covers in Hc. simpl in Hc.
    specialize (Hsq (cx - lx) (cy - ly)).
    replace (lx + (cx - lx)) with cx in Hsq by lia.
    replace (ly + (cy - ly)) with cy in Hsq by lia.
    apply Hsq; lia. }
  cbn [fst snd]. split; [constructor|split].
  - exact Hshape.
  - apply Forall_app. split; [apply Inv|]. constructor; [|constructor].
    unfold Blob.inside. simpl. lia.
  - intros cx cy. rewrite Hget, orb_true_iff, coversb_covers.
    rewrite (fill_visited _ _ _ _ _ _ Inv). split.
    + intros [[Hc|[f [Hf Hc]]]|Hc].
      * left. exact Hc.
      * right. exists f. split; [apply in_or_app; left; exact Hf|exact Hc].
      * right. exists (Blob.mk (x0 + lx) (y0 + ly) sub).
        split; [apply in_or_app; right; left; reflexivity|apply Hloc; exact Hc].
    + intros [Hc|[f [Hf Hc]]].
      * left. left. exact Hc.
      * apply in_app_or in Hf. destruct Hf as [Hf|[<-|[]]].
        -- left. right. exists f. auto.
        -- right. apply Hloc. exact Hc.
  - apply ForallOrdPairs_snoc; [apply Inv|].
    apply Forall_forall. intros f Hf ax ay [Hcf Hcn].
    unfold Blob.covers in Hcn. simpl in Hcn.
    assert (Hv : get2 false localVisited (ay - y0) (ax - x0) = true).
    { apply (fill_visited _ _ _ _ _ _ Inv). right. exists f. split; [exact Hf|].
      replace (x0 + (ax - x0)) with ax by lia. replace (y0 + (ay - y0)) with ay by lia.
      exact Hcf. }
    rewrite Hfree in Hv; [discriminate|]. unfold Blob.covers. simpl. lia.
  - intros f cx cy Hf Hc. apply in_app_or in Hf. destruct Hf as [Hf|[<-|[]]].
    + eapply (fill_clear _ _ _ _ _ _ Inv); eassumption.
    + apply Hloc in Hc. apply Hfree in Hc.
      destruct (get2 false (circleMask settings size) cy cx) eqn:E; [|reflexivity].
      assert (Hv : get2 false localVisited cy cx = true).
      { apply (fill_visited _ _ _ _ _ _ Inv). left. exact E. }
      congruence.
  - rewrite Hget. apply orb_true_iff. right. apply coversb_covers.
    unfold Blob.covers. simpl. lia.
  - intros cy cx Hv. rewrite Hget, Hv. reflexivity.
Qed.

Lemma fillFrom_inv cells : forall localVisited fillers,
  (forall p, In p cells -> fst p < size /\ snd p < size) ->
  FillInv settings x0 y0 size localVisited fillers ->
  let st' := fold_left (fillStep x0 y0 size) cells (localVisited, fillers) in
  FillInv settings x0 y0 size (fst st') (snd st') /\
  (forall cy cx, get2 false localVisited cy cx = true -> get2 false (fst st') cy cx = true) /\
  (forall p, In p cells -> get2 false (fst st') (snd p) (fst p) = true).
Proof.
  induction cells as [|[lx ly] cells IH]; intros localVisited fillers Hcells Inv; cbv zeta.
  - simpl. split; [exact Inv|]. split; [auto|]. intros p [].
  - destruct (Hcells (lx, ly)) as [Hlx Hly]; [left; reflexivity|]. simpl in Hlx, Hly.
    destruct (fillStep_inv localVisited fillers lx ly Inv Hlx Hly) as [Inv1 [Hdone Hmono]].
    cbn [fold_left].
    destruct (fillStep x0 y0 size (localVisited, fillers) (lx, ly)) as [lv1 fs1] eqn:E.
    simpl in Inv1, Hdone, Hmono.
    destruct (IH lv1 fs1) as [Inv2 [Hmono2 Hdone2]];
      [intros p Hp; apply Hcells; right; exact Hp|exact Inv1|].
    split; [exact Inv2|]. split.
    + intros cy cx Hv. apply Hmono2, Hmono, Hv.
    + intros p [<-|Hp]; [apply Hmono2; exact Hdone|apply Hdone2; exact Hp].
Qed.

Lemma cornerFillers_inv :
  exists localVisited,
    FillInv settings x0 y0 size localVisited (cornerFillers settings x0 y0 size) /\
    forall cx cy, cx < size -> cy < size -> get2 false localVisited cy cx = true.
Proof.
  destruct (fillFrom_inv (rowMajor size size) (circleMask settings size) [])
    as [Inv [_ Hdone]].
  - intros [lx ly] Hin. apply in_rowMajor in Hin. exact Hin.
  - apply FillInv_init.
  - eexists. split; [exact Inv|].
    intros cx cy Hx Hy. apply (Hdone (cx, cy)). apply in_rowMajor. auto.
Qed.

End FillFacts.

Lemma circleMask_get (settings : GlassDotsState) (size cx cy : nat) :
  cx < size -> cy < size ->
  get2 false (circleMask settings size) cy cx = circleTouches settings size cx cy.
Proof.
  intros Hx Hy. unfold circleMask.
  rewrite (get2_map_seq (fun lx ly => circleTouches settings size lx ly)).
  apply Nat.ltb_lt in Hx, Hy. rewrite Hx, Hy. reflexivity.
Qed.

(** X6: the corner fillers of a blob are pairwise disjoint squares
    inside the blob; none of them covers a cell that the visual circle
    touches, and every cell of the blob that the circle does not touch
    is covered by one of them. *)
Theorem corner_fillers_tile_free_cells (settings : GlassDotsState) (x0 y0 size : nat) :
  let fillers := cornerFillers settings x0 y0 size in
  ForallOrdPairs Blob.disjoint fillers /\
  Forall (fun f => 1 <= Blob.size f /\ Blob.inside f (Blob.mk x0 y0 size)) fillers /\
  forall cx cy, cx < size -> cy < size ->
    if circleTouches settings size cx cy
    then forall f, In f fillers -> ~ Blob.covers f (x0 + cx) (y0 + cy)
    else exists f, In f fillers /\ Blob.covers f (x0 + cx) (y0 + cy).
Proof.
  cbv zeta. destruct (cornerFillers_inv settings x0 y0 size) as [lv [Inv Hall]].
  split; [apply Inv|]. split; [apply Inv|].
  intros cx cy Hx Hy. rewrite <- (circleMask_get settings size cx cy Hx Hy).
  destruct (get2 false (circleMask settings size) cy cx) eqn:E.
  - intros f Hf Hc. pose proof (fill_clear _ _ _ _ _ _ Inv f cx cy Hf Hc). congruence.
  - pose proof (Hall cx cy Hx Hy) as Hv.
    apply (fill_visited _ _ _ _ _ _ Inv) in Hv. destruct Hv as [Hv|Hv]; [congruence|exact Hv].
Qed.

(** ** The size filter *)

Lemma largestPasses_table : forall_range 101 largestPassesOk 0 = true.
Proof. vm_compute. reflexivity. Qed.

Lemma zeroLimit_table : forall_range 257 zeroLimitOk 0 = true.
Proof. vm_compute. reflexivity. Qed.

Lemma maxBlobSize_fold (blobs : list Blob.t) : forall m,
  m <= fold_left (fun m a => Nat.max m (Blob.size a)) blobs m /\
  Forall (fun a => Blob.size a <= fold_left (fun m a => Nat.max m (Blob.size a)) blobs m) blobs /\
  (fold_left (fun m a => Nat.max m (Blob.size a)) blobs m = m \/
   exists a, In a blobs /\ Blob.size a = fold_left (fun m a => Nat.max m (Blob.size a)) blobs m).
Proof.
  induction blobs as [|a blobs IH]; intros m; simpl.
  - split; [lia|]. split; [constructor|]. left. reflexivity.
  - destruct (IH (Nat.max m (Blob.size a))) as [Hge [Hall Hatt]].
    split; [lia|]. split; [constructor; [lia|exact Hall]|].
    destruct Hatt as [E|[c [Hc E]]].
    + destruct (Nat.max_spec m (Blob.size a)) as [[_ Em]|[_ Em]].
      * right. exists a. split; [left; reflexivity|]. lia.
      * left. lia.
    + right. exists c. split; [right; exact Hc|exact E].
Qed.

Lemma maxBlobSize_attained (blobs : list Blob.t) :
  blobs <> [] -> Forall (fun a => 1 <= Blob.size a) blobs ->
  exists a, In a blobs /\ Blob.size a = maxBlobSize blobs.
Proof.
  intros Hne Hpos. unfold maxBlobSize.
  destruct (maxBlobSize_fold blobs 1) as [Hge [Hall [E|Hatt]]]; [|exact Hatt].
  destruct blobs as [|a blobs]; [contradiction|].
  exists a. split; [left; reflexivity|].
  inversion Hpos; subst. inversion Hall; subst. lia.
Qed.

Lemma passes_largest (settings : GlassDotsState) (blobs : list Blob.t) (a : Blob.t) :
  (0 <= lowerLimit settings <= 100)%Z -> maxBlobSize blobs <= 256 ->
  Blob.size a = maxBlobSize blobs ->
  passesSizeFilter settings blobs a = true.
Proof.
  intros Hl Hm Ha. unfold passesSizeFilter, sizeThreshold. rewrite Ha.
  pose proof (forall_range_spec _ _ _ largestPasses_table (lowerLimit settings)) as Ht.
  unfold largestPassesOk in Ht.
  assert (H1 : 1 <= maxBlobSize blobs).
  { unfold maxBlobSize. apply (maxBlobSize_fold blobs 1). }
  apply (forall_range_spec _ _ _ (Ht ltac:(lia)) (Z.of_nat (maxBlobSize blobs))). lia.
Qed.

(** X9: on a grid of at most 256 columns and with a lower limit
    between 0 and 100, every blob of the largest size passes the size
    filter, so [filteredBlobs] is never empty. *)
Theorem size_filter_keeps_largest (settings : GlassDotsState) (colorGrid : ColorGrid)
    (w h : nat) :
  1 <= w <= 256 -> 1 <= h -> (0 <= lowerLimit settings <= 100)%Z ->
  let blobs := blobsOf (detectBlobs settings colorGrid w h) in
  (forall a, In a blobs -> Blob.size a = maxBlobSize blobs -> In a (filteredBlobs settings blobs)) /\
  (exists a, In a (filteredBlobs settings blobs) /\ Blob.size a = maxBlobSize blobs).
Proof.
  intros Hw Hh Hl. cbv zeta.
  destruct (detectBlobs_inv settings colorGrid w h) as [visited [Inv Hall]].
  set (blobs := blobsOf (detectBlobs settings colorGrid w h)).
  pose proof (inv_inGrid _ _ _ _ Inv) as Hgrid. fold blobs in Hgrid.
  assert (Hne : blobs <> []).
  { pose proof (Hall 0 0 ltac:(lia) ltac:(lia)) as Hv.
    apply (inv_visited _ _ _ _ Inv) in Hv. destruct Hv as [a [Ha _]].
    apply in_anchorBlobs in Ha. intros E.
    assert (Hin : In a blobs) by (unfold blobs, blobsOf; apply (in_map snd _ _ Ha)).
    rewrite E in Hin. exact Hin. }
  assert (Hpos : Forall (fun a => 1 <= Blob.size a) blobs).
  { eapply Forall_impl; [|exact Hgrid]. intros a Ha. apply Ha. }
  destruct (maxBlobSize_attained blobs Hne Hpos) as [a [Ha Emax]].
  assert (Hbound : maxBlobSize blobs <= 256).
  { rewrite <- Emax. rewrite Forall_forall in Hgrid. destruct (Hgrid a Ha) as [_ [Hx _]]. lia. }
  split.
  - intros c Hc Ec. apply filter_In. split; [exact Hc|].
    apply passes_largest; assumption.
  - exists a. split; [|exact Emax]. apply filter_In. split; [exact Ha|].
    apply passes_largest; assumption.
Qed.

Lemma size_filter_keeps_largest_witness :
  exists a, In a (filteredBlobs (mkGlassDotsState 0 0 20 100) (patchPass 20)) /\
            Blob.size a = maxBlobSize (patchPass 20).
Proof.
  apply (size_filter_keeps_largest (mkGlassDotsState 0 0 20 100) patchGrid 10 6);
    [lia|lia|simpl; lia].
Defined.

(** X10: at lower limit 0 the size filter removes nothing. *)
Theorem lower_limit_zero_keeps_all (settings : GlassDotsState) (colorGrid : ColorGrid)
    (w h : nat) :
  w <= 256 -> lowerLimit settings = 0%Z ->
  let blobs := blobsOf (detectBlobs settings colorGrid w h) in
  filteredBlobs settings blobs = blobs.
Proof.
  intros Hw Hl. cbv zeta.
  destruct (detectBlobs_inv settings colorGrid w h) as [visited [Inv _]].
  set (blobs := blobsOf (detectBlobs settings colorGrid w h)).
  pose proof (inv_inGrid _ _ _ _ Inv) as Hgrid. fold blobs in Hgrid.
  assert (Hsize : Forall (fun a => Blob.size a <= 256) blobs).
  { eapply Forall_impl; [|exact Hgrid]. intros a [_ [Hx _]]. lia. }
  assert (Hmax : maxBlobSize blobs <= 256).
  { unfold maxBlobSize. destruct (maxBlobSize_fold blobs 1) as [_ [_ [E|[a [Ha E]]]]].
    - rewrite E. lia.
    - rewrite <- E. rewrite Forall_forall in Hsize. apply Hsize. exact Ha. }
  unfold filteredBlobs. apply forallb_filter_id. apply forallb_forall. intros a Ha.
  unfold passesSizeFilter, sizeThreshold. rewrite Hl.
  pose proof (forall_range_spec _ _ _ zeroLimit_table (Z.of_nat (maxBlobSize blobs)) ltac:(lia))
    as Hz.
  pose proof (forall_range_spec _ _ _ zeroLimit_table (Z.of_nat (Blob.size a))) as Ha0.
  rewrite Forall_forall in Hsize. specialize (Hsize a Ha).
  specialize (Ha0 ltac:(lia)).
  unfold zeroLimitOk in Hz, Ha0.
  apply andb_true_iff in Hz, Ha0. destruct Hz as [Hz _]. destruct Ha0 as [_ Ha0].
  apply FloatAxioms.Leibniz.eqb_spec in Hz.
  unfold JS.ofNat. rewrite Hz. exact Ha0.
Qed.

Lemma lower_limit_zero_keeps_all_witness :
  filteredBlobs (mkGlassDotsState 0 0 20 0) (patchPass 20) = patchPass 20.
Proof.
  apply (lower_limit_zero_keeps_all (mkGlassDotsState 0 0 20 0) patchGrid 10 6);
    [lia|reflexivity].
Defined.

(** ** The whole pass on the two canvases *)

Lemma gridHeight_table : forall_range 101 gridHeightOk 0 = true.
Proof. vm_compute. reflexivity. Qed.

(** X11: for every resolution of the slider range and both canvases
    the grid is valid: [10 + resolution] cells wide, of the height that
    rounding [gridWidth * canvasHeight / canvasWidth] exactly gives; the
    pass runs on it, and its anchor blobs cover exactly its cells. *)
Theorem pass_on_canvas_tiles_grid (settings : GlassDotsState)
    (wallpaperType : ValueAliasingType) (imageData : nat -> nat -> list Z) :
  (0 <= resolution settings <= 100)%Z ->
  let gridWidth := (10 + resolution settings)%Z in
  let gridHeight := exactGridHeight wallpaperType gridWidth in
  let w := Z.to_nat gridWidth in
  let h := Z.to_nat gridHeight in
  let out := detectBlobs settings (sampleColorGrid (imageData w h) w h) w h in
  (0 < gridHeight)%Z /\
  glassDotsBlobs settings (fst (glassDotsCanvas wallpaperType))
                 (snd (glassDotsCanvas wallpaperType)) imageData = Some out /\
  sumSquares (anchorBlobs out) = w * h.
Proof.
  intros Hres. cbv zeta.
  pose proof (forall_range_spec _ _ _ gridWidth_table (resolution settings) ltac:(lia)) as Hw.
  pose proof (forall_range_spec _ _ _ gridHeight_table (resolution settings) ltac:(lia)) as Hh.
  unfold gridWidthOk in Hw. apply isSome_eq in Hw.
  unfold gridHeightOk in Hh. apply andb_true_iff in Hh. destruct Hh as [Hp Hd].
  apply isSome_eq in Hp, Hd.
  assert (Hpos : (0 < exactGridHeight wallpaperType (10 + resolution settings))%Z).
  { destruct wallpaperType; unfold exactGridHeight.
    - apply Z.div_str_pos; lia.
    - apply Z.div_str_pos; lia. }
  split; [exact Hpos|]. split.
  - unfold glassDotsBlobs.
    replace (glassGridWidth settings) with (Some (10 + resolution settings)%Z)
      by (rewrite <- Hw; reflexivity).
    cbn [obind].
    replace (glassGridHeight (10 + resolution settings)
               (fst (glassDotsCanvas wallpaperType)) (snd (glassDotsCanvas wallpaperType)))
      with (Some (exactGridHeight wallpaperType (10 + resolution settings)))
      by (destruct wallpaperType; cbn [glassDotsCanvas fst snd];
          [rewrite Hp|rewrite Hd]; reflexivity).
    cbn [obind].
    replace (10 + resolution settings <=? 0)%Z with false by (symmetry; apply Z.leb_gt; lia).
    replace (exactGridHeight wallpaperType (10 + resolution settings) <=? 0)%Z with false
      by (symmetry; apply Z.leb_gt; lia).
    reflexivity.
  - set (w := Z.to_nat (10 + resolution settings)).
    set (h := Z.to_nat (exactGridHeight wallpaperType (10 + resolution settings))).
    destruct (detectBlobs_inv settings (sampleColorGrid (imageData w h) w h) w h)
      as [visited [Inv Hall]].
    apply tiling_area.
    + apply anchorBlobs_inGrid. apply Inv.
    + apply Inv.
    + intros cx cy Hx Hy. apply (inv_visited _ _ _ _ Inv). apply Hall; assumption.
Qed.

Lemma pass_on_canvas_tiles_grid_witness :
  sumSquares (anchorBlobs
    (detectBlobs (mkGlassDotsState 0 0 100 0) (sampleColorGrid solidImage 10 22) 10 22)) = 10 * 22.
Proof.
  apply (pass_on_canvas_tiles_grid (mkGlassDotsState 0 0 100 0) phone (fun _ _ => solidImage)).
  simpl. lia.
Defined.

(** ** Blobs are squares of similar cells *)

Lemma forallb_false_exists {A : Type} (f : A -> bool) (l : list A) :
  forallb f l = false -> exists a, In a l /\ f a = false.
Proof.
  induction l as [|a l IH]; simpl; [discriminate|].
  intros H. apply andb_false_iff in H. destruct H as [H|H].
  - exists a. auto.
  - destruct (IH H) as [c [Hc Hf]]. exists c. auto.
Qed.

Section Homogeneity.

Variable settings : GlassDotsState.
Variable colorGrid : ColorGrid.

Lemma cellJoins_similar visited anchorColor cx cy :
  cellJoins settings colorGrid visited anchorColor true cx cy = true ->
  similarCell settings colorGrid anchorColor cx cy.
Proof.
  unfold cellJoins, similarCell. intros H. apply andb_true_iff in H. destruct H as [_ H].
  apply negb_true_iff in H. exact H.
Qed.

Lemma cellJoins_false visited anchorColor cx cy :
  cellJoins settings colorGrid visited anchorColor true cx cy = false ->
  blocksGrowth settings colorGrid visited anchorColor cx cy.
Proof.
  unfold cellJoins, blocksGrowth, similarCell. intros H.
  destruct (get2 false visited cy cx); [left; reflexivity|right].
  simpl in H. apply negb_false_iff in H. congruence.
Qed.

Lemma findMaxBlobSize_homogeneous visited x0 y0 w h :
  homogeneous settings colorGrid
    (Blob.mk x0 y0 (findMaxBlobSize settings colorGrid visited x0 y0 w h true)).
Proof.
  unfold findMaxBlobSize.
  set (anchorColor := get2 None colorGrid y0 x0).
  assert (Hgoal : forall s,
            (forall i j, i < s -> j < s -> (i, j) <> (0, 0) ->
               similarCell settings colorGrid anchorColor (x0 + i) (y0 + j)) ->
            homogeneous settings colorGrid (Blob.mk x0 y0 s)).
  { intros s Hs cx cy Hc Hne. unfold Blob.covers in Hc. simpl in Hc, Hne |- *.
    specialize (Hs (cx - x0) (cy - y0)).
    replace (x0 + (cx - x0)) with cx in Hs by lia.
    replace (y0 + (cy - y0)) with cy in Hs by lia.
    apply Hs; try lia. intros E. inversion E. apply Hne. f_equal; lia. }
  apply Hgoal.
  destruct (similaritySensitivity settings =? 0)%Z.
  - intros i j Hi Hj Hne. exfalso. apply Hne. f_equal; lia.
  - apply (growSquare_invariant
             (canExpand settings colorGrid visited anchorColor true x0 y0) x0 y0 w h
             (fun s => forall i j, i < s -> j < s -> (i, j) <> (0, 0) ->
                similarCell settings colorGrid anchorColor (x0 + i) (y0 + j))).
    + intros i j Hi Hj Hne. exfalso. apply Hne. f_equal; lia.
    + intros s Hs Hce i j Hi Hj Hne. unfold canExpand in Hce.
      apply andb_true_iff in Hce. destruct Hce as [Hcol Hrow].
      rewrite forallb_forall in Hcol, Hrow.
      destruct (Nat.eq_dec i s) as [->|Hi'].
      * eapply cellJoins_similar. apply Hcol. apply in_seq. lia.
      * destruct (Nat.eq_dec j s) as [->|Hj'].
        -- eapply cellJoins_similar. apply Hrow. apply in_seq. lia.
        -- apply Hs; try lia. exact Hne.
Qed.

Lemma canExpand_false visited anchorColor x0 y0 s :
  canExpand settings colorGrid visited anchorColor true x0 y0 s = false ->
  exists cx cy,
    ((cx = x0 + s /\ y0 <= cy <= y0 + s) \/ (cy = y0 + s /\ x0 <= cx < x0 + s)) /\
    blocksGrowth settings colorGrid visited anchorColor cx cy.
Proof.
  unfold canExpand. intros H. apply andb_false_iff in H. destruct H as [H|H].
  - apply forallb_false_exists in H. destruct H as [i [Hi Hf]]. apply in_seq in Hi.
    exists (x0 + s), (y0 + i). split; [left; lia|]. apply cellJoins_false. exact Hf.
  - apply forallb_false_exists in H. destruct H as [i [Hi Hf]]. apply in_seq in Hi.
    exists (x0 + i), (y0 + s). split; [right; lia|]. apply cellJoins_false. exact Hf.
Qed.

Lemma scanStep_homogeneous w h visited out p :
  Forall (homogeneous settings colorGrid) (anchorBlobs out) ->
  Forall (homogeneous settings colorGrid)
         (anchorBlobs (snd (scanStep settings colorGrid w h (visited, out) p))).
Proof.
  intros H. destruct p as [x0 y0]. unfold scanStep.
  destruct (get2 false visited y0 x0); [exact H|].
  cbn [snd]. rewrite anchorBlobs_step. apply Forall_app. split; [exact H|].
  constructor; [|constructor]. apply findMaxBlobSize_homogeneous.
Qed.

Lemma scanFrom_homogeneous w h cells : forall visited out,
  Forall (homogeneous settings colorGrid) (anchorBlobs out) ->
  Forall (homogeneous settings colorGrid)
         (anchorBlobs (snd (scanFrom settings colorGrid w h (visited, out) cells))).
Proof.
  induction cells as [|p cells IH]; intros visited out H; [exact H|].
  unfold scanFrom. cbn [fold_left].
  pose proof (scanStep_homogeneous w h visited out p H) as H1.
  destruct (scanStep settings colorGrid w h (visited, out) p) as [visited1 out1].
  apply (IH visited1 out1). exact H1.
Qed.

End Homogeneity.

(** ** Blobs and their anchor cell *)

Lemma zeroWithin_table : forall_range 101 zeroWithinOk 0 = true.
Proof. vm_compute. reflexivity. Qed.

(** For a sensitivity of the slider range a cell of a byte colour is
    similar to itself. *)
Lemma similarCell_self (settings : GlassDotsState) (colorGrid : ColorGrid)
    (c : rgb) (cx cy : nat) :
  (0 <= similaritySensitivity settings <= 100)%Z ->
  get2 None colorGrid cy cx = Some c -> byteColor c ->
  similarCell settings colorGrid (Some c) cx cy.
Proof.
  intros Hs Hc Hb. unfold similarCell. rewrite Hc, (colorDistance_self c Hb).
  pose proof (forall_range_spec 101 zeroWithinOk 0 zeroWithin_table
                (similaritySensitivity settings) ltac:(lia)) as H.
  unfold zeroWithinOk in H. apply negb_true_iff in H.
  destruct settings as [res gap sens lim]. exact H.
Qed.

Lemma homogeneous_allSimilar (settings : GlassDotsState) (colorGrid : ColorGrid)
    (a : Blob.t) (c : rgb) :
  (0 <= similaritySensitivity settings <= 100)%Z ->
  get2 None colorGrid (Blob.y a) (Blob.x a) = Some c -> byteColor c ->
  homogeneous settings colorGrid a -> allSimilar settings colorGrid a.
Proof.
  intros Hs Hc Hb Hh cx cy Hcov.
  destruct (Nat.eq_dec cx (Blob.x a)) as [Ex|Ex].
  - destruct (Nat.eq_dec cy (Blob.y a)) as [Ey|Ey].
    + subst cx cy. rewrite Hc. apply similarCell_self; assumption.
    + apply Hh; [exact Hcov|]. intros E. inversion E. contradiction.
  - apply Hh; [exact Hcov|]. intros E. inversion E. contradiction.
Qed.

(** The grid that [sampleColorGrid] reads from a buffer of bytes holds a
    byte colour in every cell. *)
Lemma sampleColorGrid_byteGrid (imageData : list Z) (w h : nat) :
  Forall isByte imageData -> byteGrid (sampleColorGrid imageData w h) w h.
Proof.
  intros Hbytes cx cy Hx Hy.
  assert (Hnth : forall i, isByte (nth i imageData 0%Z)).
  { intros i. destruct (Nat.lt_ge_cases i (length imageData)) as [Hi|Hi].
    - rewrite Forall_forall in Hbytes. apply Hbytes. apply nth_In. exact Hi.
    - rewrite nth_overflow by exact Hi. unfold isByte. lia. }
  unfold sampleColorGrid. rewrite get2_map_seq.
  replace (Nat.ltb cy h) with true by (symmetry; apply Nat.ltb_lt; exact Hy).
  replace (Nat.ltb cx w) with true by (symmetry; apply Nat.ltb_lt; exact Hx).
  cbn [andb]. eexists. split; [reflexivity|].
  unfold byteColor. cbn [r g b]. repeat split; apply Hnth.
Qed.

(** X7: at an unvisited anchor that holds a byte colour, with a
    sensitivity of the slider range other than 0, [findMaxBlobSize]
    returns the edge of a square that lies in the grid, holds no visited
    cell and only cells within the similarity threshold of the anchor
    cell; the square is maximal: one cell larger it leaves the grid, or
    its new column or row holds a visited or a dissimilar cell. *)
Theorem findMaxBlobSize_largest_similar_square (settings : GlassDotsState)
    (colorGrid : ColorGrid) (visited : list (list bool)) (x0 y0 w h : nat) (c : rgb) :
  get2 false visited y0 x0 = false -> x0 < w -> y0 < h ->
  (0 < similaritySensitivity settings <= 100)%Z ->
  get2 None colorGrid y0 x0 = Some c -> byteColor c ->
  let size := findMaxBlobSize settings colorGrid visited x0 y0 w h true in
  inGrid w h (Blob.mk x0 y0 size) /\
  unvisitedSquare visited x0 y0 size /\
  allSimilar settings colorGrid (Blob.mk x0 y0 size) /\
  (h < y0 + size + 1 \/ w < x0 + size + 1 \/
   exists cx cy,
     ((cx = x0 + size /\ y0 <= cy <= y0 + size) \/ (cy = y0 + size /\ x0 <= cx < x0 + size)) /\
     blocksGrowth settings colorGrid visited (Some c) cx cy).
Proof.
  intros Hv Hx Hy Hs Hc Hb. cbv zeta.
  destruct (findMaxBlobSize_spec settings colorGrid visited x0 y0 w h true Hv Hx Hy)
    as [Hgrid Hsq].
  split; [exact Hgrid|]. split; [exact Hsq|].
  split.
  { apply (homogeneous_allSimilar settings colorGrid _ c); [lia|exact Hc|exact Hb|].
    apply findMaxBlobSize_homogeneous. }
  assert (Hne : similaritySensitivity settings <> 0%Z) by lia.
  destruct (findMaxBlobSize_maximal settings colorGrid visited x0 y0 w h true Hne)
    as [[Hh|Hw]|Hce].
  - left. lia.
  - right. left. lia.
  - right. right. rewrite <- Hc. apply canExpand_false. exact Hce.
Qed.

Lemma findMaxBlobSize_largest_similar_square_witness :
  allSimilar (mkGlassDotsState 0 0 20 0) patchGrid
    (Blob.mk 0 0 (findMaxBlobSize (mkGlassDotsState 0 0 20 0) patchGrid
                    (filled 6 10 false) 0 0 10 6 true)).
Proof.
  apply (findMaxBlobSize_largest_similar_square (mkGlassDotsState 0 0 20 0) patchGrid
           (filled 6 10 false) 0 0 10 6 (mkRgb 0 0 0));
    [reflexivity|lia|lia|simpl; lia|reflexivity|unfold byteColor, isByte; simpl; lia].
Defined.

(** X8: for a sensitivity of the slider range and a grid of byte
    colours, every cell of a blob that the anchor scan outputs, the
    anchor cell included, is within the similarity threshold of the
    blob's anchor cell. *)
Theorem anchor_blobs_are_homogeneous (settings : GlassDotsState) (colorGrid : ColorGrid)
    (w h : nat) (a : Blob.t) :
  (0 <= similaritySensitivity settings <= 100)%Z ->
  byteGrid colorGrid w h ->
  In a (anchorBlobs (detectBlobs settings colorGrid w h)) ->
  allSimilar settings colorGrid a.
Proof.
  intros Hs Hg Ha.
  assert (Hin : inGrid w h a).
  { destruct (detectBlobs_inv settings colorGrid w h) as [visited [Inv _]].
    pose proof (anchorBlobs_inGrid w h _ (inv_inGrid _ _ _ _ Inv)) as Hall.
    rewrite Forall_forall in Hall. apply Hall. exact Ha. }
  destruct Hin as [H1 [Hx Hy]].
  destruct (Hg (Blob.x a) (Blob.y a) ltac:(lia) ltac:(lia)) as [c [Hc Hb]].
  apply (homogeneous_allSimilar settings colorGrid a c Hs Hc Hb).
  pose proof (scanFrom_homogeneous settings colorGrid w h (rowMajor w h)
                (filled h w false) [] (Forall_nil _)) as H.
  rewrite Forall_forall in H. apply H. exact Ha.
Qed.

Lemma anchor_blobs_are_homogeneous_witness :
  allSimilar (mkGlassDotsState 0 0 20 0) patchGrid (Blob.mk 0 0 3).
Proof.
  apply (anchor_blobs_are_homogeneous (mkGlassDotsState 0 0 20 0) patchGrid 10 6).
  - simpl. lia.
  - apply sampleColorGrid_byteGrid.
    apply Forall_forall. intros v Hv. unfold isByte.
    apply (proj1 (forallb_forall (fun v => (0 <=? v)%Z && (v <=? 255)%Z) patchImage)) in Hv;
      [|vm_compute; reflexivity].
    apply andb_true_iff in Hv. destruct Hv as [H1 H2].
    apply Z.leb_le in H1. apply Z.leb_le in H2. lia.
  - vm_compute. left. reflexivity.
Defined.

(** ** Presets of the Glass Dots panel *)

Lemma applyPreset_target (p : GlassDotsPanel.PresetDefinition)
    (targetType : ValueAliasingType) (s : GlassDotsPanel.Container) :
  GlassDotsPanel.lookup (GlassDotsPanel.applyPreset p targetType s) targetType =
  GlassDotsPanel.spread
    (GlassDotsPanel.spread
       (GlassDotsPanel.spread GlassDotsPanel.GLASSDOTS_INITIAL_STATE
          (GlassDotsPanel.currentCrop (GlassDotsPanel.lookup s targetType)))
       (GlassDotsPanel.presetSettings p targetType))
    GlassDotsPanel.grainEnabled.
Proof. destruct targetType; reflexivity. Qed.

Lemma update_other (s : GlassDotsPanel.Container) (targetType other : ValueAliasingType)
    (v : GlassDotsPanel.State) :
  other <> targetType ->
  GlassDotsPanel.lookup (GlassDotsPanel.update s targetType v) other =
  GlassDotsPanel.lookup s other.
Proof. intros Hne. destruct other, targetType; try contradiction; reflexivity. Qed.

Lemma update_update (s : GlassDotsPanel.Container) (targetType : ValueAliasingType)
    (v v' : GlassDotsPanel.State) :
  GlassDotsPanel.update (GlassDotsPanel.update s targetType v) targetType v' =
  GlassDotsPanel.update s targetType v'.
Proof. destruct targetType; reflexivity. Qed.

Lemma lookup_update (s : GlassDotsPanel.Container) (targetType : ValueAliasingType)
    (v : GlassDotsPanel.State) :
  GlassDotsPanel.lookup (GlassDotsPanel.update s targetType v) targetType = v.
Proof. destruct targetType; reflexivity. Qed.

Lemma presets_leave_crop (p : GlassDotsPanel.PresetDefinition)
    (targetType : ValueAliasingType) :
  In p GlassDotsPanel.PRESETS_DATA ->
  GlassDotsPanel.cropOffsetX_ (GlassDotsPanel.presetSettings p targetType) = None /\
  GlassDotsPanel.cropOffsetY_ (GlassDotsPanel.presetSettings p targetType) = None.
Proof.
  intros Hp. simpl in Hp.
  repeat (destruct Hp as [<-|Hp]; [destruct targetType; split; reflexivity|]).
  contradiction.
Qed.

(** X12: applying one of the nine presets to a device keeps the crop
    offsets of that device, switches grain on and fixes every other
    setting of the device to the preset's value whatever it was before;
    applying it again changes nothing, and the other device is left as
    it was. *)
Theorem preset_overrides_all_but_crop (p : GlassDotsPanel.PresetDefinition)
    (targetType : ValueAliasingType) (s s' : GlassDotsPanel.Container) :
  In p GlassDotsPanel.PRESETS_DATA ->
  GlassDotsPanel.cropOffsetX (GlassDotsPanel.lookup s targetType) =
    GlassDotsPanel.cropOffsetX (GlassDotsPanel.lookup s' targetType) ->
  GlassDotsPanel.cropOffsetY (GlassDotsPanel.lookup s targetType) =
    GlassDotsPanel.cropOffsetY (GlassDotsPanel.lookup s' targetType) ->
  let after := GlassDotsPanel.applyPreset p targetType s in
  GlassDotsPanel.lookup after targetType =
    GlassDotsPanel.lookup (GlassDotsPanel.applyPreset p targetType s') targetType /\
  GlassDotsPanel.cropOffsetX (GlassDotsPanel.lookup after targetType) =
    GlassDotsPanel.cropOffsetX (GlassDotsPanel.lookup s targetType) /\
  GlassDotsPanel.cropOffsetY (GlassDotsPanel.lookup after targetType) =
    GlassDotsPanel.cropOffsetY (GlassDotsPanel.lookup s targetType) /\
  GlassDotsPanel.isGrainEnabled (GlassDotsPanel.lookup after targetType) = true /\
  GlassDotsPanel.applyPreset p targetType after = after /\
  forall other, other <> targetType ->
    GlassDotsPanel.lookup after other = GlassDotsPanel.lookup s other.
Proof.
  intros Hp Hx Hy. cbv zeta.
  destruct (presets_leave_crop p targetType Hp) as [Hpx Hpy].
  unfold GlassDotsPanel.applyPreset.
  rewrite ?lookup_update, ?update_update.
  revert Hpx Hpy Hx Hy.
  generalize (GlassDotsPanel.presetSettings p targetType) as q.
  generalize (GlassDotsPanel.lookup s targetType) as c.
  generalize (GlassDotsPanel.lookup s' targetType) as c'.
  generalize (GlassDotsPanel.lookup GlassDotsPanel.FULL_GLASSDOTS_INITIAL_STATE targetType)
    as initial.
  intros initial c' c q Hpx Hpy Hx Hy.
  destruct q, c, c', initial.
  cbn [GlassDotsPanel.cropOffsetX_ GlassDotsPanel.cropOffsetY_
       GlassDotsPanel.cropOffsetX GlassDotsPanel.cropOffsetY] in Hpx, Hpy, Hx, Hy.
  subst.
  repeat split; try reflexivity.
  intros other Hne. apply update_other. exact Hne.
Qed.

Lemma findPreset_listed (p : GlassDotsPanel.PresetDefinition) :
  In p GlassDotsPanel.PRESETS_DATA ->
  GlassDotsPanel.presetToRestore (Some (GlassDotsPanel.id p)) = Some p.
Proof.
  intros Hp. simpl in Hp.
  repeat (destruct Hp as [<-|Hp]; [reflexivity|]).
  contradiction.
Qed.

(** X13: "reset" while one of the nine presets is active gives the
    settings that applying that preset gives and keeps the preset
    active; with no preset active it gives the initial settings with
    the crop offsets kept, and no active preset. *)
Theorem reset_restores_active_preset (wallpaperType : ValueAliasingType)
    (s : GlassDotsPanel.Container) :
  (forall p, In p GlassDotsPanel.PRESETS_DATA ->
     GlassDotsPanel.handleResetCurrent wallpaperType (Some (GlassDotsPanel.id p)) s =
     (GlassDotsPanel.applyPreset p wallpaperType s, Some (GlassDotsPanel.id p))) /\
  (forall activePresetId,
     GlassDotsPanel.presetToRestore activePresetId = None ->
     GlassDotsPanel.handleResetCurrent wallpaperType activePresetId s =
     (GlassDotsPanel.update s wallpaperType
        (GlassDotsPanel.spread GlassDotsPanel.GLASSDOTS_INITIAL_STATE
           (GlassDotsPanel.currentCrop (GlassDotsPanel.lookup s wallpaperType))),
      None)).
Proof.
  split.
  - intros p Hp. unfold GlassDotsPanel.handleResetCurrent.
    rewrite (findPreset_listed p Hp).
    destruct (presets_leave_crop p wallpaperType Hp) as [Hpx Hpy].
    f_equal. unfold GlassDotsPanel.applyPreset. f_equal.
    revert Hpx Hpy.
    generalize (GlassDotsPanel.presetSettings p wallpaperType) as q.
    generalize (GlassDotsPanel.lookup s wallpaperType) as c.
    generalize (GlassDotsPanel.lookup GlassDotsPanel.FULL_GLASSDOTS_INITIAL_STATE
                  wallpaperType) as initial.
    intros initial c q Hpx Hpy. destruct q, c, initial.
    cbn [GlassDotsPanel.cropOffsetX_ GlassDotsPanel.cropOffsetY_] in Hpx, Hpy.
    subst. reflexivity.
  - intros a Ha. unfold GlassDotsPanel.handleResetCurrent. rewrite Ha.
    destruct wallpaperType; reflexivity.
Qed.


Lemma preset_overrides_all_but_crop_witness :
  GlassDotsPanel.resolution
    (GlassDotsPanel.lookup
       (GlassDotsPanel.applyPreset
          (GlassDotsPanel.mkPreset 1
             (GlassDotsPanel.preset 24 32 0 90 20 64 0 64 true true false)
             (GlassDotsPanel.preset 8 36 0 90 24 64 0 40 true true false))
          phone GlassDotsPanel.FULL_GLASSDOTS_INITIAL_STATE) desktop) = 50%Z.
Proof.
  destruct (preset_overrides_all_but_crop
              (GlassDotsPanel.mkPreset 1
                 (GlassDotsPanel.preset 24 32 0 90 20 64 0 64 true true false)
                 (GlassDotsPanel.preset 8 36 0 90 24 64 0 40 true true false))
              phone GlassDotsPanel.FULL_GLASSDOTS_INITIAL_STATE
              GlassDotsPanel.FULL_GLASSDOTS_INITIAL_STATE)
    as [_ [_ [_ [_ [_ H]]]]]; [left; reflexivity|reflexivity|reflexivity|].
  rewrite (H desktop) by discriminate. reflexivity.
Defined.

(** ** Rounding a clamped number *)

Lemma digits2_pos_bound (m : positive) : (Zpos m < 2 ^ Zpos (digits2_pos m))%Z.
Proof.
  induction m as [m IH|m IH|]; simpl digits2_pos.
  - rewrite Pos2Z.inj_succ, Z.pow_succ_r by lia. lia.
  - rewrite Pos2Z.inj_succ, Z.pow_succ_r by lia. lia.
  - reflexivity.
Qed.

(** The mantissa of a number is below 2^53. *)
Lemma mantissa_bound (v : float) (s : bool) (m : positive) (e : Z) :
  Prim2SF v = S754_finite s m e -> (Zpos m < 2 ^ 53)%Z.
Proof.
  intros E. pose proof (FloatAxioms.Prim2SF_valid v) as Hv. rewrite E in Hv.
  unfold SpecFloat.valid_binary, bounded, canonical_mantissa, fexp in Hv.
  apply andb_true_iff in Hv. destruct Hv as [Hc _]. apply Z.eqb_eq in Hc.
  pose proof (digits2_pos_bound m) as Hd.
  assert (Hle : (Zpos (digits2_pos m) <= 53)%Z).
  { change FloatOps.prec with 53%Z in Hc. lia. }
  eapply Z.lt_le_trans; [exact Hd|]. apply Z.pow_le_mono_r; lia.
Qed.

Lemma round_byte (v : float) :
  PrimFloat.leb 0 v = true -> PrimFloat.leb v 255 = true ->
  exists k, JS.round v = Some k /\ (0 <= k <= 255)%Z.
Proof.
  intros H0 H255. unfold JS.round.
  rewrite FloatAxioms.leb_spec in H0, H255. unfold SFleb in H0, H255.
  change (Prim2SF 0) with (S754_zero false) in H0.
  change (Prim2SF 255) with (S754_finite false 8972014882652160 (-45)) in H255.
  destruct (Prim2SF v) as [s|s| |s m e] eqn:E.
  - exists 0%Z. split; [reflexivity|lia].
  - destruct s; simpl in H0, H255; discriminate.
  - simpl in H0. discriminate.
  - pose proof (mantissa_bound v s m e E) as Hm.
    destruct s; [simpl in H0; discriminate|].
    unfold SFcompare in H255. unfold JS.signed.
    destruct (Z.compare_spec e (-45)) as [He|He|He]; [| |discriminate].
    + subst e. eexists. split; [reflexivity|].
      assert (Hle : (Zpos m <= 8972014882652160)%Z).
      { rewrite Pos.compare_cont_spec in H255.
        destruct (Pos.compare_spec m 8972014882652160) as [C|C|C].
        - rewrite C. apply Z.le_refl.
        - apply Pos2Z.pos_lt_pos in C. apply Z.lt_le_incl. exact C.
        - discriminate H255. }
      clear H0 H255 Hm E.
      change (0 <=? -45)%Z with false. cbv iota.
      rewrite Z.shiftr_div_pow2 by lia.
      change (Z.shiftl 1 (- -45)) with 35184372088832%Z.
      change (2 ^ (1 - -45))%Z with 70368744177664%Z.
      split.
      * apply Z.div_pos; lia.
      * apply Z.lt_succ_r. apply Z.div_lt_upper_bound; lia.
    + eexists. split; [reflexivity|].
      replace (0 <=? e)%Z with false by (symmetry; apply Z.leb_gt; lia).
      rewrite Z.shiftr_div_pow2 by lia. rewrite Z.shiftl_mul_pow2 by lia.
      replace (1 - e)%Z with (Z.succ (- e)) by lia.
      rewrite Z.pow_succ_r by lia.
      assert (HP : (2 ^ 46 <= 2 ^ (- e))%Z) by (apply Z.pow_le_mono_r; lia).
      set (P := (2 ^ (- e))%Z) in *.
      change (2 ^ 46)%Z with 70368744177664%Z in HP.
      change (2 ^ 53)%Z with 9007199254740992%Z in Hm.
      split.
      * apply Z.div_pos; lia.
      * apply Z.lt_succ_r. apply Z.div_lt_upper_bound; lia.
Qed.

Lemma clamp255_cases (v : float) :
  PrimFloat.is_nan v = false ->
  JS.max 0 (JS.min 255 v) =
  if PrimFloat.ltb 255 v then 255%float else if PrimFloat.ltb 0 v then v else 0%float.
Proof.
  intros Hv. unfold JS.max, JS.min. rewrite Hv.
  change (PrimFloat.is_nan 255) with false. change (PrimFloat.is_nan 0) with false.
  change (PrimFloat.get_sign 255) with false. change (PrimFloat.get_sign 0) with false.
  simpl.
  destruct (PrimFloat.ltb 255 v) eqn:E1.
  - reflexivity.
  - replace (if PrimFloat.ltb v 255 then v else v) with v
      by (destruct (PrimFloat.ltb v 255); reflexivity).
    rewrite Hv. destruct (PrimFloat.ltb 0 v) eqn:E0; [reflexivity|].
    destruct (PrimFloat.ltb v 0); reflexivity.
Qed.

Lemma clamp255_range (v : float) :
  PrimFloat.is_nan v = false ->
  PrimFloat.leb 0 (JS.max 0 (JS.min 255 v)) = true /\
  PrimFloat.leb (JS.max 0 (JS.min 255 v)) 255 = true.
Proof.
  intros Hv. rewrite (clamp255_cases v Hv).
  destruct (PrimFloat.ltb 255 v) eqn:E1; [split; reflexivity|].
  destruct (PrimFloat.ltb 0 v) eqn:E0; [|split; reflexivity].
  split; [apply ltb_leb; exact E0|apply not_ltb_leb; auto].
Qed.

Lemma clamp255_nan (v : float) :
  PrimFloat.is_nan v = true -> JS.round (JS.max 0 (JS.min 255 v)) = None.
Proof.
  intros Hv. unfold JS.max, JS.min. rewrite Hv.
  change (PrimFloat.is_nan 255) with false. simpl. reflexivity.
Qed.

Lemma round_clamp_byte (v : float) :
  PrimFloat.is_nan v = false ->
  exists k, JS.round (JS.max 0 (JS.min 255 v)) = Some k /\ (0 <= k <= 255)%Z.
Proof.
  intros Hv. destruct (clamp255_range v Hv) as [H0 H255].
  apply round_byte; assumption.
Qed.

(** X14: [Math.round(Math.max(0, Math.min(255, adjusted)))] is an
    integer between 0 and 255 whenever [adjusted] is a number, for any
    luminance and any exposure and contrast; it is NaN only when
    [adjusted] is NaN. *)
Theorem final_gray_is_a_byte (exposure contrast : Z) (gray : float) :
  (PrimFloat.is_nan (adjustedGray exposure contrast gray) = false ->
   exists k, remapGray exposure contrast gray = Some k /\ (0 <= k <= 255)%Z) /\
  (PrimFloat.is_nan (adjustedGray exposure contrast gray) = true ->
   remapGray exposure contrast gray = None).
Proof.
  split; intros H.
  - apply (round_clamp_byte _ H).
  - apply (clamp255_nan _ H).
Qed.

(** ** The dots of Value Aliasing *)

Lemma remapGray_byte (exposure contrast : Z) (gray : float) (k : Z) :
  remapGray exposure contrast gray = Some k -> (0 <= k <= 255)%Z.
Proof.
  intros H. destruct (PrimFloat.is_nan (adjustedGray exposure contrast gray)) eqn:E.
  - pose proof (clamp255_nan _ E) as Hn. unfold remapGray in H. fold (adjustedGray exposure contrast gray) in H.
    congruence.
  - destruct (round_clamp_byte _ E) as [k' [Hk Hr]].
    unfold remapGray in H. fold (adjustedGray exposure contrast gray) in H.
    congruence.
Qed.

Lemma dotFill_bytes (outputType : OutputType) (r g b : Z) :
  (0 <= r <= 255)%Z -> (0 <= g <= 255)%Z -> (0 <= b <= 255)%Z ->
  dotFill outputType r g b = Some (r, g, b).
Proof.
  intros Hr Hg Hb. unfold dotFill. destruct (shouldSimulateCmyk outputType); [|reflexivity].
  apply simulateCmyk_exact; assumption.
Qed.

(** X15: the CMYK simulation of the print output changes no dot: on
    the same buffer and with the same cell geometry, print draws the
    discs that wallpaper draws, each with the same colour. *)
Theorem print_draws_the_wallpaper_dots (isEasterEggActive isMonochrome isPureValue : bool)
    (background : WallpaperBgKey) (exposure contrast lowerLimit : Z)
    (pxRenderW pxRenderH gap : float) (data : list Z) (gridWidth gridHeight : nat) :
  valueAliasingDots print isEasterEggActive isMonochrome isPureValue background
      exposure contrast lowerLimit pxRenderW pxRenderH gap data gridWidth gridHeight =
  valueAliasingDots wallpaper isEasterEggActive isMonochrome isPureValue background
      exposure contrast lowerLimit pxRenderW pxRenderH gap data gridWidth gridHeight.
Proof.
  unfold valueAliasingDots. apply flat_map_ext. intros [x y].
  unfold valueAliasingCell. destruct isMonochrome; [|reflexivity].
  unfold valueAliasingFinalGray.
  destruct (remapGray exposure contrast _) as [k|] eqn:E; [|reflexivity].
  apply remapGray_byte in E. cbv zeta.
  rewrite !(dotFill_bytes _ 0 0 0) by lia.
  destruct isEasterEggActive; [reflexivity|].
  destruct (JS.gtb _ _); [|reflexivity].
  destruct (useEffectivePureValue false isPureValue).
  - destruct background; rewrite !dotFill_bytes by lia; reflexivity.
  - rewrite !dotFill_bytes by lia. reflexivity.
Qed.

Lemma flat_map_all_nil {A B : Type} (f : A -> list B) (l : list A) :
  (forall a, In a l -> f a = []) -> flat_map f l = [].
Proof.
  induction l as [|a l IH]; intros H; simpl; [reflexivity|].
  rewrite (H a) by (left; reflexivity). apply IH. intros c Hc. apply H. right. exact Hc.
Qed.

Lemma fullLimit_table : forall_range 256 fullLimitOk 0 = true.
Proof. vm_compute. reflexivity. Qed.

(** X16: [drawValueAliasingMatrix] draws no dot at lower limit 100,
    and none when [isMonochrome] is off. *)
Theorem full_lower_limit_draws_nothing (outputType : OutputType)
    (isEasterEggActive isMonochrome isPureValue : bool)
    (background : WallpaperBgKey) (exposure contrast lowerLimit : Z)
    (pxRenderW pxRenderH gap : float) (data : list Z) (gridWidth gridHeight : nat) :
  lowerLimit = 100%Z \/ isMonochrome = false ->
  valueAliasingDots outputType isEasterEggActive isMonochrome isPureValue background
      exposure contrast lowerLimit pxRenderW pxRenderH gap data gridWidth gridHeight = [].
Proof.
  intros H. unfold valueAliasingDots.
  apply flat_map_all_nil. intros [x y] _.
  unfold valueAliasingCell. destruct isMonochrome; [|reflexivity].
  destruct H as [->|H]; [|discriminate].
  unfold valueAliasingFinalGray.
  destruct (remapGray exposure contrast _) as [k|] eqn:E; [|reflexivity].
  apply remapGray_byte in E. cbv zeta.
  pose proof (forall_range_spec _ _ _ fullLimit_table k ltac:(lia)) as Hk.
  unfold fullLimitOk in Hk. apply andb_true_iff in Hk. destruct Hk as [H1 H2].
  apply negb_true_iff in H1, H2.
  destruct isEasterEggActive.
  - rewrite H1. reflexivity.
  - destruct background; [rewrite H2|rewrite H1]; reflexivity.
Qed.

(** ** The grid of Value Aliasing *)

Lemma valueAliasingGridWidth_table : forall_range 101 valueAliasingGridWidthOk 0 = true.
Proof. vm_compute. reflexivity. Qed.

(** X17: on the slider range the grid width computed in doubles is
    the exact [10 + floor(resolution * 1.2 * 71.8848 / 100)] on the
    phone wallpaper and [10 + floor(resolution * 4 * 71.8848 / 100)] on
    the desktop wallpaper and in print: between 10 and 96, respectively
    297, and never smaller at a larger resolution. *)
Theorem value_aliasing_grid_width_exact (outputType : OutputType)
    (valueAliasingType : ValueAliasingType) (resolution : Z) :
  (0 <= resolution <= 100)%Z ->
  let w := exactValueAliasingGridWidth outputType valueAliasingType resolution in
  valueAliasingGridWidth outputType valueAliasingType resolution = Some w /\
  (10 <= w <= 297)%Z /\
  (outputType = wallpaper -> valueAliasingType = phone -> (w <= 96)%Z) /\
  forall resolution', (resolution <= resolution' <= 100)%Z ->
    (w <= exactValueAliasingGridWidth outputType valueAliasingType resolution')%Z.
Proof.
  intros Hres. cbv zeta.
  pose proof (forall_range_spec _ _ _ valueAliasingGridWidth_table resolution ltac:(lia)) as H.
  unfold valueAliasingGridWidthOk in H. rewrite forallb_forall in H.
  split.
  - assert (Ho : In outputType [wallpaper; print]) by (destruct outputType; simpl; auto).
    specialize (H outputType Ho). rewrite forallb_forall in H.
    assert (Ht : In valueAliasingType [phone; desktop])
      by (destruct valueAliasingType; simpl; auto).
    apply isSome_eq. apply H. exact Ht.
  - unfold exactValueAliasingGridWidth.
    split; [|split].
    + destruct outputType, valueAliasingType;
        (split; [pose proof (Z.div_pos (resolution * 8626176) 10000000);
                 pose proof (Z.div_pos (resolution * 2875392) 1000000); lia|]);
        first [ assert ((resolution * 8626176 / 10000000 <= 100 * 8626176 / 10000000)%Z)
                  by (apply Z.div_le_mono; lia);
                change (100 * 8626176 / 10000000)%Z with 86%Z in *; lia
              | assert ((resolution * 2875392 / 1000000 <= 100 * 2875392 / 1000000)%Z)
                  by (apply Z.div_le_mono; lia);
                change (100 * 2875392 / 1000000)%Z with 287%Z in *; lia ].
    + intros -> ->.
      assert ((resolution * 8626176 / 10000000 <= 100 * 8626176 / 10000000)%Z)
        by (apply Z.div_le_mono; lia).
      change (100 * 8626176 / 10000000)%Z with 86%Z in *. lia.
    + intros resolution' Hr'.
      destruct outputType, valueAliasingType;
        apply Z.add_le_mono_l; apply Z.div_le_mono; lia.
Qed.

Lemma final_gray_is_a_byte_witness :
  PrimFloat.is_nan (adjustedGray 100 100 (JS.ofZ 255)) = false /\
  exists k, remapGray 100 100 (JS.ofZ 255) = Some k /\ (0 <= k <= 255)%Z.
Proof.
  split; [reflexivity|].
  apply (final_gray_is_a_byte 100 100 (JS.ofZ 255)). reflexivity.
Defined.

Lemma full_lower_limit_draws_nothing_witness :
  valueAliasingDots wallpaper false true false black 50 50 100 10 10 0
    [255; 255; 255; 255]%Z 1 1 = [].
Proof.
  apply (full_lower_limit_draws_nothing wallpaper false true false black 50 50 100 10 10 0
           [255; 255; 255; 255]%Z 1 1).
  left. reflexivity.
Defined.

Lemma value_aliasing_grid_width_exact_witness :
  valueAliasingGridWidth wallpaper phone 100 = Some 96%Z.
Proof.
  apply (value_aliasing_grid_width_exact wallpaper phone 100). lia.
Defined.

(** ** The masks of Glyph Mirror *)

Lemma count_fold (f : nat -> bool) (l : list nat) : forall acc,
  fold_left (fun a i => if f i then S a else a) l acc = acc + length (filter f l).
Proof.
  induction l as [|i l IH]; intros acc; simpl; [lia|].
  rewrite IH. destruct (f i); simpl; lia.
Qed.

Lemma nested_count_fold (f : nat -> nat -> bool) (xs ys : list nat) : forall acc,
  fold_left (fun a sy => fold_left (fun a' sx => if f sx sy then S a' else a') xs a) ys acc =
  acc + list_sum (map (fun sy => length (filter (fun sx => f sx sy) xs)) ys).
Proof.
  induction ys as [|sy ys IH]; intros acc; simpl; [lia|].
  rewrite IH, (count_fold (fun sx => f sx sy)). lia.
Qed.

Lemma pointsInside_bound (d x y : nat) :
  pointsInside d x y <= 25 /\
  (subSampleInside d x y 2 2 = false -> pointsInside d x y <= 24).
Proof.
  unfold pointsInside. rewrite (nested_count_fold (subSampleInside d x y)).
  unfold ssFactor. change (seq 0 5) with [0; 1; 2; 3; 4].
  cbn [map list_sum].
  set (row := fun sy => length (filter (fun sx => subSampleInside d x y sx sy) [0; 1; 2; 3; 4])).
  change (0 + (row 0 + (row 1 + (row 2 + (row 3 + (row 4 + 0))))) <= 25 /\
          (subSampleInside d x y 2 2 = false ->
           0 + (row 0 + (row 1 + (row 2 + (row 3 + (row 4 + 0))))) <= 24)).
  assert (Hrow : forall sy, row sy <= 5).
  { intros sy. unfold row.
    apply (filter_length_le (fun sx => subSampleInside d x y sx sy) [0; 1; 2; 3; 4]). }
  pose proof (Hrow 0). pose proof (Hrow 1). pose proof (Hrow 2).
  pose proof (Hrow 3). pose proof (Hrow 4).
  split; [lia|]. intros Hmid.
  assert (H2' : row 2 <= 4).
  { unfold row. cbn [filter]. rewrite Hmid.
    destruct (subSampleInside d x y 0 2), (subSampleInside d x y 1 2),
             (subSampleInside d x y 3 2), (subSampleInside d x y 4 2); simpl; lia. }
  lia.
Qed.

Lemma middleSample_table : forall_range 41 middleSampleOk 0 = true.
Proof. vm_compute. reflexivity. Qed.

Lemma middleSample (x : nat) :
  x <= 40 ->
  (JS.ofNat x - 0.5 + subPixelStep * (JS.ofNat 2 + 0.5))%float = JS.ofNat x.
Proof.
  intros Hx. apply FloatAxioms.Leibniz.eqb_spec.
  apply (forall_range_spec _ _ _ middleSample_table (Z.of_nat x)). lia.
Qed.

Lemma subSampleInside_middle (d x y : nat) :
  x <= 40 -> y <= 40 -> subSampleInside d x y 2 2 = isOriginalPixel d x y.
Proof.
  intros Hx Hy. unfold subSampleInside, isOriginalPixel, centerDistance, JS.sq.
  rewrite (middleSample x Hx), (middleSample y Hy). reflexivity.
Qed.

Lemma coverage_table : forall_range 26 coverageOk 0 = true.
Proof. vm_compute. reflexivity. Qed.

(** X18: for every diameter up to 41, the largest the resolution
    slider gives, the anti-aliased mask lies between 0 and 1; it is 1 on
    exactly the cells of the hard mask, and on every other cell it is
    [k / 25] for some count [k] of at most 24 sub-samples, below 1. *)
Theorem antialiased_mask_extends_hard_mask (diameter x y : nat) :
  diameter <= 41 -> x < diameter -> y < diameter ->
  let hard := maskCell diameter false x y in
  let soft := maskCell diameter true x y in
  PrimFloat.leb 0 soft = true /\ PrimFloat.leb soft 1 = true /\
  (isOriginalPixel diameter x y = true -> hard = 1%float /\ soft = 1%float) /\
  (isOriginalPixel diameter x y = false ->
     hard = 0%float /\ PrimFloat.ltb soft 1 = true /\
     exists k, k <= 24 /\ soft = (JS.ofNat k / JS.ofNat totalSubPixels)%float).
Proof.
  intros Hd Hx Hy. cbv zeta. unfold maskCell. simpl negb. cbv iota.
  destruct (isOriginalPixel diameter x y) eqn:Horig.
  - split; [reflexivity|]. split; [reflexivity|]. split; [auto|discriminate].
  - destruct (pointsInside_bound diameter x y) as [_ H24].
    rewrite subSampleInside_middle in H24 by lia. specialize (H24 Horig).
    pose proof (forall_range_spec _ _ _ coverage_table
                  (Z.of_nat (pointsInside diameter x y)) ltac:(lia)) as Hc.
    unfold coverageOk in Hc. cbv zeta in Hc.
    fold (JS.ofNat (pointsInside diameter x y)) in Hc.
    apply andb_true_iff in Hc. destruct Hc as [Hc Hlt1].
    apply andb_true_iff in Hc. destruct Hc as [Hc Hgt0].
    apply andb_true_iff in Hc. destruct Hc as [Hge0 Hle1].
    replace (Z.of_nat (pointsInside diameter x y) <=? 24)%Z with true in Hlt1
      by (symmetry; apply Z.leb_le; lia).
    simpl in Hlt1.
    assert (Hsoft :
      (if PrimFloat.ltb (centerDistance diameter x y) (radius diameter + 1.5)
       then if Nat.ltb 0 (pointsInside diameter x y)
            then (JS.ofNat (pointsInside diameter x y) / JS.ofNat totalSubPixels)%float
            else 0%float
       else 0%float) = 0%float \/
      (if PrimFloat.ltb (centerDistance diameter x y) (radius diameter + 1.5)
       then if Nat.ltb 0 (pointsInside diameter x y)
            then (JS.ofNat (pointsInside diameter x y) / JS.ofNat totalSubPixels)%float
            else 0%float
       else 0%float) = (JS.ofNat (pointsInside diameter x y) / JS.ofNat totalSubPixels)%float).
    { destruct (PrimFloat.ltb (centerDistance diameter x y) (radius diameter + 1.5));
        [|left; reflexivity].
      destruct (Nat.ltb 0 (pointsInside diameter x y)); [right|left]; reflexivity. }
    destruct Hsoft as [E|E]; rewrite E.
    + split; [reflexivity|]. split; [reflexivity|]. split; [discriminate|].
      intros _. split; [reflexivity|]. split; [reflexivity|].
      exists 0. split; [lia|]. vm_compute. reflexivity.
    + split; [exact Hge0|]. split; [exact Hle1|]. split; [discriminate|].
      intros _. split; [reflexivity|]. split; [exact Hlt1|].
      exists (pointsInside diameter x y). split; [exact H24|reflexivity].
Qed.

Lemma antialiased_mask_extends_hard_mask_witness :
  PrimFloat.leb 0 (maskCell 9 true 7 7) = true /\ PrimFloat.leb (maskCell 9 true 7 7) 1 = true.
Proof.
  destruct (antialiased_mask_extends_hard_mask 9 7 7) as [H0 [H1 _]]; [lia|lia|lia|].
  split; assumption.
Defined.

Lemma get2_map_map {A B : Type} (f : A -> B) (m : list (list A)) (y x : nat) (dA : A) (dB : B) :
  y < length m -> x < length (nth y m []) ->
  get2 dB (map (map f) m) y x = f (get2 dA m y x).
Proof.
  intros Hy Hx. unfold get2.
  rewrite (nth_indep _ [] (map f []) ) by (rewrite length_map; exact Hy).
  rewrite (map_nth (map f) m [] y).
  rewrite (nth_indep _ dB (f dA)) by (rewrite length_map; exact Hx).
  apply map_nth.
Qed.

Lemma matrixMask_shape (diameter : nat) (isAntiAliased : bool) :
  hasShape (matrixMask diameter isAntiAliased) diameter diameter.
Proof.
  unfold matrixMask, hasShape. rewrite length_map, length_seq. split; [reflexivity|].
  apply Forall_forall. intros row Hrow. apply in_map_iff in Hrow.
  destruct Hrow as [y [<- _]]. rewrite length_map, length_seq. reflexivity.
Qed.

Lemma matrixMask_get (diameter : nat) (isAntiAliased : bool) (x y : nat) :
  x < diameter -> y < diameter ->
  get2 0%float (matrixMask diameter isAntiAliased) y x = maskCell diameter isAntiAliased x y.
Proof.
  intros Hx Hy. unfold matrixMask.
  rewrite (get2_map_seq (fun x' y' => maskCell diameter isAntiAliased x' y')).
  apply Nat.ltb_lt in Hx, Hy. rewrite Hx, Hy. reflexivity.
Qed.

(** X19: with no image loaded, every cell of positive coverage gets
    the colour rgb(107, 107, 107) and every other cell none, whatever
    the exposure and the contrast. *)
Theorem default_grid_ignores_sliders (diameter : nat) (isAntiAliased : bool)
    (exposure contrast : Z) (x y : nat) :
  x < diameter -> y < diameter ->
  get2 None
    (gridColors false exposure contrast
       (generateDefaultGridData (matrixMask diameter isAntiAliased))) y x =
  if JS.gtb (maskCell diameter isAntiAliased x y) 0 then Some (Some 107%Z) else None.
Proof.
  intros Hx Hy. unfold gridColors, generateDefaultGridData.
  destruct (matrixMask_shape diameter isAntiAliased) as [Hlen Hrows].
  assert (Hrow : length (nth y (matrixMask diameter isAntiAliased) []) = diameter).
  { rewrite Forall_forall in Hrows. apply Hrows. apply nth_In. lia. }
  set (toRaw := fun coverage : float =>
                  if JS.gtb coverage 0 then Some (GrayValue 107) else None).
  set (toColor := fun pixel : option RawPixel =>
                    match pixel with
                    | None => None
                    | Some p => Some (pfpFinalGray false exposure contrast p)
                    end).
  set (mask := matrixMask diameter isAntiAliased) in *.
  assert (Hrow' : length (nth y (map (map toRaw) mask) []) = diameter).
  { rewrite (nth_indep _ [] (map toRaw [])) by (rewrite length_map; lia).
    rewrite (map_nth (map toRaw) mask [] y), length_map. exact Hrow. }
  rewrite (get2_map_map toColor (map (map toRaw) mask) y x None None)
    by (rewrite ?length_map; lia).
  rewrite (get2_map_map toRaw mask y x 0%float None) by lia.
  unfold mask. rewrite matrixMask_get by assumption.
  unfold toColor, toRaw.
  destruct (JS.gtb (maskCell diameter isAntiAliased x y) 0); reflexivity.
Qed.

Lemma default_grid_ignores_sliders_witness :
  get2 None (gridColors false 0 100 (generateDefaultGridData (matrixMask 9 false))) 4 4 =
  if JS.gtb (maskCell 9 false 4 4) 0 then Some (Some 107%Z) else None.
Proof.
  apply (default_grid_ignores_sliders 9 false 0 100 4 4); lia.
Defined.

Lemma exactDiameter_table : forall_range 101 exactDiameterOk 0 = true.
Proof. vm_compute. reflexivity. Qed.

(** X20: on the slider range the diameter computed in doubles is the
    exact [2 * floor((16 * resolution + 450) / 100) + 1]: an odd number
    between 9 and 41, never smaller at a larger resolution. *)
Theorem diameter_is_odd_and_monotone (resolution : Z) :
  (0 <= resolution <= 100)%Z ->
  pfpDiameter resolution = Some (exactDiameter resolution) /\
  Z.odd (exactDiameter resolution) = true /\
  (9 <= exactDiameter resolution <= 41)%Z /\
  forall resolution', (resolution <= resolution' <= 100)%Z ->
    (exactDiameter resolution <= exactDiameter resolution')%Z.
Proof.
  intros Hres. split.
  - apply isSome_eq. apply (forall_range_spec _ _ _ exactDiameter_table). lia.
  - unfold exactDiameter. split; [|split].
    + rewrite Z.add_comm, Z.odd_add_mul_2. reflexivity.
    + assert ((450 / 100 <= (16 * resolution + 450) / 100)%Z) by (apply Z.div_le_mono; lia).
      assert (((16 * resolution + 450) / 100 <= 2050 / 100)%Z) by (apply Z.div_le_mono; lia).
      change (450 / 100)%Z with 4%Z in *. change (2050 / 100)%Z with 20%Z in *. lia.
    + intros r' Hr'.
      assert (((16 * resolution + 450) / 100 <= (16 * r' + 450) / 100)%Z)
        by (apply Z.div_le_mono; lia).
      lia.
Qed.

Lemma diameter_is_odd_and_monotone_witness :
  pfpDiameter 50 = Some 25%Z.
Proof.
  apply (diameter_is_odd_and_monotone 50). lia.
Defined.

(** ** The content box of the Photo Widget *)

Lemma photoWidgetGridWidth_table : forall_range 101 photoWidgetGridWidthOk 0 = true.
Proof. vm_compute. reflexivity. Qed.

(** X21: on the slider range the Photo Widget grid width computed in
    doubles is the exact [20 + floor(resolution * 0.6592 * 130 / 100)]:
    between 20 and 105, never smaller at a larger resolution. *)
Theorem photo_widget_grid_width_exact (resolution : Z) :
  (0 <= resolution <= 100)%Z ->
  photoWidgetGridWidth resolution = Some (20 + resolution * 85696 / 100000)%Z /\
  (20 <= 20 + resolution * 85696 / 100000 <= 105)%Z /\
  forall resolution', (resolution <= resolution' <= 100)%Z ->
    (20 + resolution * 85696 / 100000 <= 20 + resolution' * 85696 / 100000)%Z.
Proof.
  intros Hres. split.
  - apply isSome_eq. apply (forall_range_spec _ _ _ photoWidgetGridWidth_table). lia.
  - split.
    + assert ((0 / 100000 <= resolution * 85696 / 100000)%Z) by (apply Z.div_le_mono; lia).
      assert ((resolution * 85696 / 100000 <= 100 * 85696 / 100000)%Z)
        by (apply Z.div_le_mono; lia).
      change (0 / 100000)%Z with 0%Z in *. change (100 * 85696 / 100000)%Z with 85%Z in *. lia.
    + intros r' Hr'. apply Z.add_le_mono_l. apply Z.div_le_mono; lia.
Qed.

Lemma photo_widget_grid_width_exact_witness :
  photoWidgetGridWidth 50 = Some 62%Z.
Proof.
  apply (photo_widget_grid_width_exact 50). lia.
Defined.

Lemma boundsStep_spec (m : PhotoWidgetColorMatrix) (cells : list (nat * nat)) :
  forall minX0 minY0 maxX0 maxY0,
  let '(minX, minY, maxX, maxY) :=
    fold_left (boundsStep m) cells (minX0, minY0, maxX0, maxY0) in
  (minX <= minX0 /\ minY <= minY0 /\ maxX0 <= maxX /\ maxY0 <= maxY)%Z /\
  (forall x y, In (x, y) cells -> opaqueAt m x y ->
     (minX <= Z.of_nat x <= maxX /\ minY <= Z.of_nat y <= maxY)%Z) /\
  (minX = minX0 \/ exists x y, In (x, y) cells /\ opaqueAt m x y /\ Z.of_nat x = minX) /\
  (minY = minY0 \/ exists x y, In (x, y) cells /\ opaqueAt m x y /\ Z.of_nat y = minY) /\
  (maxX = maxX0 \/ exists x y, In (x, y) cells /\ opaqueAt m x y /\ Z.of_nat x = maxX) /\
  (maxY = maxY0 \/ exists x y, In (x, y) cells /\ opaqueAt m x y /\ Z.of_nat y = maxY).
Proof.
  induction cells as [|[cx cy] cells IH]; intros minX0 minY0 maxX0 maxY0.
  - simpl. split; [lia|]. split; [intros x y []|]. auto.
  - cbn [fold_left]. unfold boundsStep at 2.
    destruct (get2 None m cy cx) as [p|] eqn:E.
    + set (a := if (Z.of_nat cx <? minX0)%Z then Z.of_nat cx else minX0).
      set (b := if (Z.of_nat cy <? minY0)%Z then Z.of_nat cy else minY0).
      set (c := if (maxX0 <? Z.of_nat cx)%Z then Z.of_nat cx else maxX0).
      set (d := if (maxY0 <? Z.of_nat cy)%Z then Z.of_nat cy else maxY0).
      specialize (IH a b c d).
      destruct (fold_left (boundsStep m) cells (a, b, c, d)) as [[[minX minY] maxX] maxY].
      destruct IH as [Hmono [Hin [HminX [HminY [HmaxX HmaxY]]]]].
      assert (Hop : opaqueAt m cx cy) by (unfold opaqueAt; congruence).
      assert (Ha : (a <= minX0 /\ a <= Z.of_nat cx)%Z)
        by (unfold a; destruct (Z.ltb_spec (Z.of_nat cx) minX0); lia).
      assert (Hb : (b <= minY0 /\ b <= Z.of_nat cy)%Z)
        by (unfold b; destruct (Z.ltb_spec (Z.of_nat cy) minY0); lia).
      assert (Hc : (maxX0 <= c /\ Z.of_nat cx <= c)%Z)
        by (unfold c; destruct (Z.ltb_spec maxX0 (Z.of_nat cx)); lia).
      assert (Hd : (maxY0 <= d /\ Z.of_nat cy <= d)%Z)
        by (unfold d; destruct (Z.ltb_spec maxY0 (Z.of_nat cy)); lia).
      assert (Ha' : a = minX0 \/ a = Z.of_nat cx)
        by (unfold a; destruct (Z.of_nat cx <? minX0)%Z; auto).
      assert (Hb' : b = minY0 \/ b = Z.of_nat cy)
        by (unfold b; destruct (Z.of_nat cy <? minY0)%Z; auto).
      assert (Hc' : c = maxX0 \/ c = Z.of_nat cx)
        by (unfold c; destruct (maxX0 <? Z.of_nat cx)%Z; auto).
      assert (Hd' : d = maxY0 \/ d = Z.of_nat cy)
        by (unfold d; destruct (maxY0 <? Z.of_nat cy)%Z; auto).
      split; [lia|]. split.
      * intros x y [Ec|Hc0] Ho; [inversion Ec; subst; lia|apply Hin; assumption].
      * repeat split.
        -- destruct HminX as [->|[x [y [H1 [H2 H3]]]]].
           ++ destruct Ha' as [->| ->]; [left; reflexivity|right; exists cx, cy; simpl; auto].
           ++ right. exists x, y. simpl. auto.
        -- destruct HminY as [->|[x [y [H1 [H2 H3]]]]].
           ++ destruct Hb' as [->| ->]; [left; reflexivity|right; exists cx, cy; simpl; auto].
           ++ right. exists x, y. simpl. auto.
        -- destruct HmaxX as [->|[x [y [H1 [H2 H3]]]]].
           ++ destruct Hc' as [->| ->]; [left; reflexivity|right; exists cx, cy; simpl; auto].
           ++ right. exists x, y. simpl. auto.
        -- destruct HmaxY as [->|[x [y [H1 [H2 H3]]]]].
           ++ destruct Hd' as [->| ->]; [left; reflexivity|right; exists cx, cy; simpl; auto].
           ++ right. exists x, y. simpl. auto.
    + specialize (IH minX0 minY0 maxX0 maxY0).
      destruct (fold_left (boundsStep m) cells (minX0, minY0, maxX0, maxY0))
        as [[[minX minY] maxX] maxY].
      destruct IH as [Hmono [Hin [HminX [HminY [HmaxX HmaxY]]]]].
      split; [exact Hmono|]. split.
      * intros x y [Ec|Hc0] Ho; [inversion Ec; subst; unfold opaqueAt in Ho; congruence|].
        apply Hin; assumption.
      * repeat split.
        -- destruct HminX as [->|[x [y [H1 [H2 H3]]]]]; [left; reflexivity|].
           right. exists x, y. simpl. auto.
        -- destruct HminY as [->|[x [y [H1 [H2 H3]]]]]; [left; reflexivity|].
           right. exists x, y. simpl. auto.
        -- destruct HmaxX as [->|[x [y [H1 [H2 H3]]]]]; [left; reflexivity|].
           right. exists x, y. simpl. auto.
        -- destruct HmaxY as [->|[x [y [H1 [H2 H3]]]]]; [left; reflexivity|].
           right. exists x, y. simpl. auto.
Qed.

Lemma fullMatrix_opaque_inside (imageData : list Z) (w h x y : nat) :
  opaqueAt (fullMatrix imageData w h) x y -> x < w /\ y < h.
Proof.
  unfold opaqueAt. intros Ho.
  destruct (get2 None (fullMatrix imageData w h) y x) as [p|] eqn:E; [|congruence].
  apply fullMatrix_some in E. tauto.
Qed.

(** X22: [colorMatrix] is null exactly when the sampled matrix has no
    opaque cell.  Otherwise it is the sampled matrix cut to the
    bounding box of its opaque cells: it has the size of the box, its
    cells are the cells of the box, no opaque cell lies outside the
    box, and each of the four sides of the box holds an opaque cell. *)
Theorem color_matrix_is_tight_content_box (imageData : list Z) (w h : nat) :
  let full := fullMatrix imageData w h in
  match colorMatrix imageData w h with
  | None => forall x y, get2 None full y x = None
  | Some m =>
      exists minX minY maxX maxY,
        minX <= maxX < w /\ minY <= maxY < h /\
        hasShape m (maxX - minX + 1) (maxY - minY + 1) /\
        (forall x y, x <= maxX - minX -> y <= maxY - minY ->
           get2 None m y x = get2 None full (y + minY) (x + minX)) /\
        (forall x y, opaqueAt full x y -> minX <= x <= maxX /\ minY <= y <= maxY) /\
        (exists y, opaqueAt full minX y) /\ (exists y, opaqueAt full maxX y) /\
        (exists x, opaqueAt full x minY) /\ (exists x, opaqueAt full x maxY)
  end.
Proof.
  cbv zeta. unfold colorMatrix, contentBounds.
  pose proof (boundsStep_spec (fullMatrix imageData w h) (rowMajor w h)
                (Z.of_nat w) (Z.of_nat h) (-1) (-1)) as H.
  destruct (fold_left (boundsStep (fullMatrix imageData w h)) (rowMajor w h)
              (Z.of_nat w, Z.of_nat h, (-1)%Z, (-1)%Z)) as [[[minX minY] maxX] maxY].
  destruct H as [Hmono [Hin [HminX [HminY [HmaxX HmaxY]]]]].
  assert (Hcell : forall x y, opaqueAt (fullMatrix imageData w h) x y ->
            (minX <= Z.of_nat x <= maxX /\ minY <= Z.of_nat y <= maxY)%Z /\ x < w /\ y < h).
  { intros x y Ho. pose proof (fullMatrix_opaque_inside _ _ _ _ _ Ho) as Hxy.
    split; [|exact Hxy]. apply Hin; [|exact Ho]. apply in_rowMajor. exact Hxy. }
  destruct (Z.eqb_spec maxX (-1)) as [E|E].
  - intros x y. destruct (get2 None (fullMatrix imageData w h) y x) as [p|] eqn:Ep;
      [|reflexivity].
    assert (Ho : opaqueAt (fullMatrix imageData w h) x y) by (unfold opaqueAt; congruence).
    destruct (Hcell x y Ho) as [[Hx _] _]. lia.
  - destruct HmaxX as [->|[x1 [y1 [Hc1 [Ho1 Ex1]]]]]; [contradiction|].
    destruct (Hcell x1 y1 Ho1) as [[Hx1 Hy1] [Hw1 Hh1]].
    assert (HminX' : exists x y, opaqueAt (fullMatrix imageData w h) x y /\ Z.of_nat x = minX).
    { destruct HminX as [->|[x [y [_ [Ho Ex]]]]]; [lia|eauto]. }
    assert (HminY' : exists x y, opaqueAt (fullMatrix imageData w h) x y /\ Z.of_nat y = minY).
    { destruct HminY as [->|[x [y [_ [Ho Ex]]]]]; [lia|eauto]. }
    assert (HmaxY' : exists x y, opaqueAt (fullMatrix imageData w h) x y /\ Z.of_nat y = maxY).
    { destruct HmaxY as [->|[x [y [_ [Ho Ex]]]]]; [lia|eauto]. }
    destruct HminX' as [x2 [y2 [Ho2 Ex2]]]. destruct HminY' as [x3 [y3 [Ho3 Ey3]]].
    destruct HmaxY' as [x4 [y4 [Ho4 Ey4]]].
    destruct (Hcell x2 y2 Ho2) as [_ [Hw2 Hh2]]. destruct (Hcell x3 y3 Ho3) as [_ [Hw3 Hh3]].
    destruct (Hcell x4 y4 Ho4) as [_ [Hw4 Hh4]].
    exists x2, y3, x1, y4. subst minX minY maxX maxY.
    rewrite !Nat2Z.id.
    replace (Z.to_nat (Z.of_nat x1 - Z.of_nat x2 + 1)) with (x1 - x2 + 1) by lia.
    replace (Z.to_nat (Z.of_nat y4 - Z.of_nat y3 + 1)) with (y4 - y3 + 1) by lia.
    split; [lia|]. split; [lia|]. split; [|split; [|split]].
    + unfold hasShape. rewrite length_map, length_seq. split; [reflexivity|].
      apply Forall_forall. intros row Hrow. apply in_map_iff in Hrow.
      destruct Hrow as [y [<- _]]. rewrite length_map, length_seq. reflexivity.
    + intros x y Hx Hy.
      rewrite (get2_map_seq (fun x' y' => get2 None (fullMatrix imageData w h) (y' + y3) (x' + x2))).
      replace (Nat.ltb y (y4 - y3 + 1)) with true by (symmetry; apply Nat.ltb_lt; lia).
      replace (Nat.ltb x (x1 - x2 + 1)) with true by (symmetry; apply Nat.ltb_lt; lia).
      reflexivity.
    + intros x y Ho. destruct (Hcell x y Ho) as [[Hx Hy] _]. lia.
    + repeat split; eauto.
Qed.

(** ** The grain layer *)

Lemma grain_table : forall_range 101 grainOk 0 = true.
Proof. vm_compute. reflexivity. Qed.

(** X23: for every grain size of the slider range and each side of the
    two canvases, the noise canvas has the exact size
    [ceil(canvasSize / (1 + 0.0126 * grainSize))], at least 1 and at
    most the canvas side, which it equals at grain size 0; for every
    grain amount of the slider range the opacity of the grain layer lies
    between 0 and 0.35. *)
Theorem grain_layer_in_range (canvasSize v : Z) :
  In canvasSize [1260; 2800; 3840; 2160]%Z -> (0 <= v <= 100)%Z ->
  grainNoiseSize canvasSize v = Some (exactNoiseSize canvasSize v) /\
  (1 <= exactNoiseSize canvasSize v <= canvasSize)%Z /\
  exactNoiseSize canvasSize 0 = canvasSize /\
  PrimFloat.leb 0 (grainAlpha v) = true /\ PrimFloat.leb (grainAlpha v) 0.35 = true.
Proof.
  intros Hc Hv.
  pose proof (forall_range_spec _ _ _ grain_table v ltac:(lia)) as H.
  unfold grainOk in H.
  apply andb_true_iff in H. destruct H as [H Ha2].
  apply andb_true_iff in H. destruct H as [H Ha1].
  rewrite forallb_forall in H.
  split; [apply isSome_eq; apply H; exact Hc|].
  split; [|split; [|split; assumption]].
  - unfold exactNoiseSize.
    assert (Hpos : (0 < canvasSize)%Z) by (simpl in Hc; lia).
    split.
    + apply Z.div_le_lower_bound; lia.
    + apply Z.lt_succ_r. apply Z.div_lt_upper_bound; nia.
  - simpl in Hc. destruct Hc as [<-|[<-|[<-|[<-|[]]]]]; reflexivity.
Qed.

Lemma grain_layer_in_range_witness :
  grainNoiseSize 1260 100 = Some 558%Z.
Proof.
  apply (grain_layer_in_range 1260 100); [left; reflexivity|lia].
Defined.

(** ** The components of the CMYK conversion *)

Lemma rgbToCmyk_channels (r g b : Z) :
  (0 <= r <= 255)%Z -> (0 <= g <= 255)%Z -> (0 <= b <= 255)%Z ->
  rgbToCmyk (JS.ofZ r) (JS.ofZ g) (JS.ofZ b) =
  let M := Z.max (Z.max r g) b in
  (cmykChannel r M, cmykChannel g M, cmykChannel b M, cmykKey M).
Proof.
  intros Hr Hg Hb. cbv zeta. unfold rgbToCmyk.
  fold (unit255 r). fold (unit255 g). fold (unit255 b).
  rewrite (max_unit255 r g Hr Hg), (max_unit255 (Z.max r g) b ltac:(lia) Hb).
  unfold cmykChannel, cmykKey.
  destruct (PrimFloat.eqb (1 - unit255 (Z.max (Z.max r g) b)) 1); reflexivity.
Qed.

Lemma cmykChannel_table :
  forall_range 256 (fun M => forall_range 256 (cmykChannelOk M) 0) 0 = true.
Proof. vm_compute. reflexivity. Qed.

Lemma cmykChannel_unit (v M : Z) :
  (0 <= v <= M)%Z -> (M <= 255)%Z ->
  inUnit (cmykChannel v M) /\ inUnit (cmykKey M) /\ PrimFloat.eqb (cmykChannel M M) 0 = true.
Proof.
  intros Hv HM.
  pose proof (forall_range_spec 256 _ 0 cmykChannel_table M ltac:(lia)) as H.
  pose proof (forall_range_spec 256 _ 0 H v ltac:(lia)) as H'.
  unfold cmykChannelOk in H'. destruct (Z.ltb_spec M v); [lia|].
  apply andb_true_iff in H'. destruct H' as [H' K1].
  apply andb_true_iff in H'. destruct H' as [H' K0].
  apply andb_true_iff in H'. destruct H' as [H' Z0].
  apply andb_true_iff in H'. destruct H' as [C0 C1].
  unfold inUnit. auto.
Qed.

(** X24: for every byte triple the four components of [rgbToCmyk] lie
    between 0 and 1, and the component of a largest channel is 0. *)
Theorem cmyk_components_in_unit_interval (r g b : Z) :
  (0 <= r <= 255)%Z -> (0 <= g <= 255)%Z -> (0 <= b <= 255)%Z ->
  let '(c, m, y, k) := rgbToCmyk (JS.ofZ r) (JS.ofZ g) (JS.ofZ b) in
  inUnit c /\ inUnit m /\ inUnit y /\ inUnit k /\
  (PrimFloat.eqb c 0 = true \/ PrimFloat.eqb m 0 = true \/ PrimFloat.eqb y 0 = true).
Proof.
  intros Hr Hg Hb. rewrite rgbToCmyk_channels by assumption. cbv zeta.
  set (M := Z.max (Z.max r g) b).
  destruct (cmykChannel_unit r M ltac:(lia) ltac:(lia)) as [Hc [Hk Hz]].
  destruct (cmykChannel_unit g M ltac:(lia) ltac:(lia)) as [Hm _].
  destruct (cmykChannel_unit b M ltac:(lia) ltac:(lia)) as [Hy _].
  repeat (split; [assumption|]).
  assert (HM : M = r \/ M = g \/ M = b) by lia.
  clearbody M.
  destruct HM as [E|[E|E]]; [left|right; left|right; right]; rewrite <- E; exact Hz.
Qed.

Lemma cmyk_components_in_unit_interval_witness :
  inUnit (cmykChannel 13 200) /\ inUnit (cmykKey 200).
Proof.
  pose proof (cmyk_components_in_unit_interval 13 200 77) as H.
  rewrite rgbToCmyk_channels in H by lia. cbv zeta in H.
  change (Z.max (Z.max 13 200) 77) with 200%Z in H.
  destruct H as [Hc [_ [_ [Hk _]]]]; try lia.
  split; assumption.
Defined.

(** ** The code word *)

Section EasterEggFacts.
Import Ascii String EasterEgg.

Lemma append_empty_r (s : String.string) : String.append s String.EmptyString = s.
Proof. induction s as [|c s IH]; simpl; [reflexivity|rewrite IH; reflexivity]. Qed.

Lemma append_assoc (a b c : String.string) :
  String.append (String.append a b) c = String.append a (String.append b c).
Proof. induction a as [|x a IH]; simpl; [reflexivity|rewrite IH; reflexivity]. Qed.

Lemma prefix_append (a b : String.string) : String.prefix a (String.append a b) = true.
Proof.
  induction a as [|x a IH]; simpl; [destruct b; reflexivity|].
  destruct (Ascii.ascii_dec x x); [exact IH|congruence].
Qed.

Lemma prefix_split (a t : String.string) :
  String.prefix a t = true -> exists b, t = String.append a b.
Proof.
  revert t. induction a as [|x a IH]; intros t H.
  - exists t. reflexivity.
  - destruct t as [|y t]; simpl in H; [discriminate|].
    destruct (Ascii.ascii_dec x y) as [->|]; [|discriminate].
    destruct (IH t H) as [b ->]. exists b. reflexivity.
Qed.

Lemma append_length (a b : String.string) :
  String.length (String.append a b) = String.length a + String.length b.
Proof. induction a as [|x a IH]; simpl; [reflexivity|rewrite IH; reflexivity]. Qed.

Lemma typed_app (xs ys : list (Props * KeyboardEvent)) :
  typed (xs ++ ys) = String.append (typed xs) (typed ys).
Proof.
  induction xs as [|x xs IH]; simpl; [reflexivity|].
  unfold typed in *. simpl. rewrite IH, append_assoc. reflexivity.
Qed.

Lemma run_app xs ys st : run (xs ++ ys) st = run ys (run xs st).
Proof. unfold run. apply fold_left_app. Qed.

Lemma keydown_primed p e st : easterEggPrimed st = true -> keydown p e st = st.
Proof. intros H. unfold keydown. rewrite H. reflexivity. Qed.

(** What the handler does with a plain key press. *)
Lemma keydown_plain p e st :
  easterEggPrimed st = false -> listening (p, e) -> plain (p, e) ->
  keydown p e st =
  let newSequence := String.append (userInput st) (toLowerCase (key e)) in
  if startsWith targetSequence newSequence then
    if String.eqb newSequence targetSequence then mkState String.EmptyString true
    else mkState newSequence false
  else
    mkState (if startsWith targetSequence (toLowerCase (key e)) then toLowerCase (key e)
             else String.EmptyString) false.
Proof.
  intros Hp [Ha Hu] [Ht [Hi [Hl [Hm [Hc Hal]]]]]. simpl in *.
  unfold keydown. rewrite Hp, Ha, Hu, Ht, Hi, Hm, Hc, Hal. simpl.
  replace (1 <? String.length (key e)) with false
    by (symmetry; apply Nat.ltb_ge; exact Hl).
  reflexivity.
Qed.

(** A key press that is not plain clears the input. *)
Lemma keydown_not_plain p e st :
  easterEggPrimed st = false -> listening (p, e) -> ~ plain (p, e) ->
  keydown p e st = mkState String.EmptyString false.
Proof.
  intros Hp [Ha Hu] Hn. simpl in *.
  unfold keydown. rewrite Hp, Ha, Hu. simpl.
  destruct (activeTab p) eqn:Et; simpl; try reflexivity.
  destruct (truthy (imageSrc p)) eqn:Ei; simpl; [|reflexivity].
  destruct (Nat.ltb_spec 1 (String.length (key e))) as [Hl|Hl]; simpl; [reflexivity|].
  destruct (metaKey e) eqn:Em; simpl; [reflexivity|].
  destruct (ctrlKey e) eqn:Ec; simpl; [reflexivity|].
  destruct (altKey e) eqn:El; simpl; [reflexivity|].
  exfalso. apply Hn. unfold plain. simpl. rewrite Et, Ei, Em, Ec, El. repeat split. exact Hl.
Qed.

Lemma plain_dec pe : plain pe \/ ~ plain pe.
Proof.
  destruct pe as [p e]. unfold plain. simpl.
  destruct (activeTab p); try (right; intros [H _]; discriminate).
  destruct (truthy (imageSrc p)); [|right; intros [_ [H _]]; discriminate].
  destruct (le_dec (String.length (key e)) 1); [|right; intros [_ [_ [H _]]]; contradiction].
  destruct (metaKey e); [right; intros [_ [_ [_ [H _]]]]; discriminate|].
  destruct (ctrlKey e); [right; intros [_ [_ [_ [_ [H _]]]]]; discriminate|].
  destruct (altKey e); [right; intros [_ [_ [_ [_ [_ H]]]]]; discriminate|].
  left. repeat split. assumption.
Qed.

Lemma substring_append (a b : String.string) :
  String.substring 0 (String.length a) (String.append a b) = a.
Proof. induction a as [|x a IH]; simpl; [destruct b; reflexivity|rewrite IH; reflexivity]. Qed.

Lemma prefix_in_prefixes (a t : String.string) :
  String.prefix a t = true -> In a (prefixes t).
Proof.
  intros H. destruct (prefix_split a t H) as [b ->].
  unfold prefixes. apply in_map_iff. exists (String.length a). split.
  - apply substring_append.
  - apply in_seq. rewrite append_length. lia.
Qed.

Lemma lastChar_append (u : String.string) (c : Ascii.ascii) :
  lastChar (String.append u (String.String c String.EmptyString)) = Some c.
Proof. induction u as [|x u IH]; simpl; [reflexivity|rewrite IH; reflexivity]. Qed.

Lemma f_only_first : forallb (onlyFirstIs "f"%char) (prefixes targetSequence) = true.
Proof. vm_compute. reflexivity. Qed.

Lemma append_f_prefix (u : String.string) :
  startsWith targetSequence (String.append u "f"%string) = true ->
  u = String.EmptyString.
Proof.
  intros H. apply prefix_in_prefixes in H.
  pose proof f_only_first as T. rewrite forallb_forall in T.
  specialize (T _ H). unfold onlyFirstIs in T.
  rewrite lastChar_append, Ascii.eqb_refl in T.
  apply Nat.eqb_eq in T. rewrite append_length in T. simpl in T.
  destruct u; [reflexivity|simpl in T; lia].
Qed.

(** From any input the letter [f] leaves the input [f]. *)
Lemma keydown_f pe st :
  easterEggPrimed st = false -> listening pe -> types pe "f"%char ->
  keydown (fst pe) (snd pe) st = mkState "f"%string false.
Proof.
  destruct pe as [p e]. intros Hp Hl [Hpl Hk]. simpl in *.
  rewrite (keydown_plain p e st Hp Hl Hpl). cbv zeta. rewrite Hk.
  destruct (startsWith targetSequence (String.append (userInput st) "f"%string)) eqn:E.
  - rewrite (append_f_prefix _ E). reflexivity.
  - reflexivity.
Qed.

(** With the input [v] and the rest [w] of the code word still to type,
    typing [w] primes the theme. *)
Lemma type_rest (w : list Ascii.ascii) :
  forall (word : list (Props * KeyboardEvent)) (v : String.string) (st : State),
  w <> [] ->
  String.append v (String.string_of_list_ascii w) = targetSequence ->
  userInput st = v -> easterEggPrimed st = false ->
  Forall listening word -> Forall2 types word w ->
  run word st = mkState String.EmptyString true.
Proof.
  induction w as [|c w IH]; intros word v st Hne Hv Hu Hp Hl Hw; [congruence|].
  inversion Hw as [|pe c' word' w' Hpe Hrest]; subst.
  inversion Hl as [|? ? Hlpe Hlrest]; subst.
  destruct pe as [p e]. destruct Hpe as [Hpl Hk]. simpl in Hk.
  unfold run. simpl. fold (run word' (keydown p e st)).
  rewrite (keydown_plain p e st Hp Hlpe Hpl). cbv zeta. rewrite Hk.
  set (v' := String.append (userInput st) (String.String c String.EmptyString)).
  assert (Hv' : String.append v' (String.string_of_list_ascii w) = targetSequence).
  { unfold v'. rewrite append_assoc. exact Hv. }
  assert (Hpre : startsWith targetSequence v' = true).
  { unfold startsWith. rewrite <- Hv'. apply prefix_append. }
  rewrite Hpre.
  destruct w as [|d w].
  - simpl in Hv'. rewrite append_empty_r in Hv'. rewrite Hv', String.eqb_refl.
    inversion Hrest; subst. reflexivity.
  - assert (Hneq : String.eqb v' targetSequence = false).
    { apply String.eqb_neq. intros E.
      assert (L : String.length (String.append v' (String.string_of_list_ascii (d :: w))) =
                  String.length targetSequence) by (rewrite Hv'; reflexivity).
      rewrite append_length, E in L. simpl in L. lia. }
    rewrite Hneq.
    apply (IH word' v'); try assumption; [discriminate|reflexivity|reflexivity].
Qed.

(** X25: while the community theme is neither primed, active nor
    unlocked, typing the fourteen letters of the code word, each in
    either case, in the Value Aliasing tab with an image primes the
    theme and clears the input, whatever the input was before. *)
Theorem code_word_primes (word : list (Props * KeyboardEvent)) (st : State) :
  easterEggPrimed st = false ->
  Forall listening word ->
  Forall2 types word (String.list_ascii_of_string targetSequence) ->
  run word st = mkState String.EmptyString true.
Proof.
  intros Hp Hl Hw.
  change (String.list_ascii_of_string targetSequence)
    with ("f"%char :: String.list_ascii_of_string "eelingnothing"%string) in Hw.
  inversion Hw as [|pe c word' w' Hpe Hrest]; subst.
  inversion Hl as [|? ? Hlpe Hlrest]; subst.
  unfold run. simpl fold_left at 1.
  change (fold_left _ word' ?s) with (run word' s).
  rewrite (keydown_f pe st Hp Hlpe Hpe).
  apply (type_rest (String.list_ascii_of_string "eelingnothing"%string) word' "f"%string);
    try assumption; try reflexivity.
  discriminate.
Qed.

(** The input is the text of the plain key presses since the last key
    press that was not, or a later part of it. *)
Lemma input_is_typed (events : list (Props * KeyboardEvent)) :
  Forall listening events ->
  let st := run events initialState in
  if easterEggPrimed st then
    exists pre word post, events = pre ++ word ++ post /\
      Forall plain word /\ typed word = targetSequence
  else
    exists pre word, events = pre ++ word /\
      Forall plain word /\ typed word = userInput st.
Proof.
  induction events as [|[p e] events IH] using rev_ind; intros Hl; cbv zeta.
  - simpl. exists [], []. repeat split; constructor.
  - apply Forall_app in Hl. destruct Hl as [Hl He].
    inversion He as [|? ? Hlpe _]; subst.
    specialize (IH Hl). cbv zeta in IH.
    rewrite run_app. simpl. set (st := run events initialState) in *.
    change (run [(p, e)] st) with (keydown p e st).
    destruct (easterEggPrimed st) eqn:Hp.
    + rewrite (keydown_primed p e st Hp), Hp.
      destruct IH as [pre [word [post [-> [Hw Ht]]]]].
      exists pre, word, (post ++ [(p, e)]).
      repeat split; try assumption. rewrite <- !app_assoc. reflexivity.
    + destruct IH as [pre [word [-> [Hw Ht]]]].
      destruct (plain_dec (p, e)) as [Hpl|Hnp].
      * rewrite (keydown_plain p e st Hp Hlpe Hpl). cbv zeta.
        assert (Hword : typed (word ++ [(p, e)]) =
                        String.append (userInput st) (toLowerCase (key e))).
        { rewrite typed_app, Ht. unfold typed at 1. simpl.
          rewrite append_empty_r. reflexivity. }
        destruct (startsWith targetSequence
                    (String.append (userInput st) (toLowerCase (key e)))) eqn:Es.
        -- destruct (String.eqb_spec
                       (String.append (userInput st) (toLowerCase (key e))) targetSequence)
             as [Et|Et]; cbn [userInput easterEggPrimed].
           ++ exists pre, (word ++ [(p, e)]), [].
              rewrite ?app_nil_r, <- ?app_assoc. repeat split.
              ** apply Forall_app. split; [assumption|]. constructor; [assumption|constructor].
              ** rewrite Hword. exact Et.
           ++ exists pre, (word ++ [(p, e)]).
              rewrite ?app_nil_r, <- ?app_assoc. repeat split.
              ** apply Forall_app. split; [assumption|]. constructor; [assumption|constructor].
              ** exact Hword.
        -- destruct (startsWith targetSequence (toLowerCase (key e)));
             cbn [userInput easterEggPrimed].
           ++ exists (pre ++ word), [(p, e)].
              rewrite ?app_nil_r, <- ?app_assoc. repeat split.
              ** constructor; [assumption|constructor].
              ** unfold typed. simpl. apply append_empty_r.
           ++ exists (pre ++ word ++ [(p, e)]), [].
              rewrite ?app_nil_r, <- ?app_assoc. repeat split. constructor.
      * rewrite (keydown_not_plain p e st Hp Hlpe Hnp). cbn [userInput easterEggPrimed].
        exists (pre ++ word ++ [(p, e)]), [].
        rewrite ?app_nil_r, <- ?app_assoc. repeat split. constructor.
Qed.

Lemma code_word_primes_witness :
  run codeWordExample (mkState "fee"%string false) = mkState EmptyString true.
Proof.
  apply (code_word_primes codeWordExample (mkState "fee"%string false)).
  - reflexivity.
  - repeat constructor.
  - repeat constructor.
Defined.

(** X26: from the start of a session of ASCII key presses, with the
    theme neither active nor unlocked, the theme is primed only if some
    run of consecutive key presses, each in the Value Aliasing tab with
    an image, of at most one character and without modifier, spells the
    code word in lower or upper case. *)
Theorem primed_only_by_code_word (events : list (Props * KeyboardEvent)) :
  Forall listening events ->
  Forall (fun pe => isAscii (key (snd pe)) = true) events ->
  easterEggPrimed (run events initialState) = true ->
  exists pre word post, events = pre ++ word ++ post /\
    Forall plain word /\ typed word = targetSequence.
Proof.
  intros Hl _ Hp. pose proof (input_is_typed events Hl) as H. cbv zeta in H.
  rewrite Hp in H. exact H.
Qed.

Lemma primed_only_by_code_word_witness :
  exists pre word post, sessionExample = pre ++ word ++ post /\
    Forall plain word /\ typed word = targetSequence.
Proof.
  apply (primed_only_by_code_word sessionExample).
  - repeat constructor.
  - repeat constructor.
  - reflexivity.
Defined.

End EasterEggFacts.

(** ** The share toasts *)

Section ShareToastFacts.
Import ShareToast.

Lemma count_cons {A} (f : A -> bool) (x : A) (l : list A) :
  length (filter f (x :: l)) = (if f x then 1 else 0) + length (filter f l).
Proof. simpl. destruct (f x); reflexivity. Qed.

(** With nothing in flight, a download and its file are one
    [download]. *)
Lemma toasts_download (sp isS : bool) (events : list Event) (st : State) :
  toasts (startDownload sp isS :: finishDownload 0 :: events) (mkApp st []) =
  None :: snd (download sp isS st) :: toasts events (mkApp (fst (download sp isS st)) []).
Proof. reflexivity. Qed.

(** Induction over the events of downloads one at a time. *)
Lemma oneAtATime_ind (P : list Event -> Prop) :
  P [] ->
  (forall sp isS events, oneAtATime events = true -> P events ->
     P (startDownload sp isS :: finishDownload 0 :: events)) ->
  (forall e events, (e = closeShareToast \/ e = closeSpecialShareToast \/
                     e = unlockSpecialTheme) ->
     oneAtATime events = true -> P events -> P (e :: events)) ->
  forall events, oneAtATime events = true -> P events.
Proof.
  intros Hnil Hdl Hother.
  assert (H : forall n events, length events <= n -> oneAtATime events = true -> P events).
  { induction n as [|n IH]; intros events Hlen Hone.
    - destruct events; [exact Hnil|simpl in Hlen; lia].
    - destruct events as [|e events]; [exact Hnil|].
      simpl in Hlen. destruct e as [sp isS|k| | |].
      + destruct events as [|[sp' isS'|[|k]| | |] events]; simpl in Hone; try discriminate.
        apply Hdl; [exact Hone|]. apply IH; [simpl in Hlen; lia|exact Hone].
      + discriminate.
      + apply Hother; [auto|exact Hone|]. apply IH; [lia|exact Hone].
      + apply Hother; [auto|exact Hone|]. apply IH; [lia|exact Hone].
      + apply Hother; [auto|exact Hone|]. apply IH; [lia|exact Hone]. }
  intros events. apply (H (length events)). lia.
Qed.

(** What one download does to the marks. *)
Lemma download_shown (sp isS : bool) (st : State) :
  hasShownShareToastInSession st = true ->
  isShareToast (snd (download sp isS st)) = false /\
  hasShownShareToastInSession (fst (download sp isS st)) = true.
Proof.
  intros H. unfold download, triggerShareToast. rewrite H.
  destruct (isS && justUnlockedSpecialTheme st && negb (hasDownloadedSpecialTheme st));
    cbn [fst snd commit written toHasShownShareToastInSession
         hasShownShareToastInSession isShareToast].
  - rewrite andb_false_r. auto.
  - auto.
Qed.

Lemma download_raises_share (sp isS : bool) (st : State) :
  isShareToast (snd (download sp isS st)) = true ->
  hasShownShareToastInSession (fst (download sp isS st)) = true.
Proof.
  unfold download, triggerShareToast.
  destruct (isS && justUnlockedSpecialTheme st && negb (hasDownloadedSpecialTheme st));
    [discriminate|].
  destruct (hasShownShareToastInSession st); [discriminate|].
  destruct (downloadCount st + 1 =? 2)%Z; [destruct sp; reflexivity|discriminate].
Qed.

Lemma download_special (sp isS : bool) (st : State) :
  hasDownloadedSpecialTheme st = true ->
  isSpecialToast (snd (download sp isS st)) = false /\
  hasDownloadedSpecialTheme (fst (download sp isS st)) = true.
Proof.
  intros H. unfold download, triggerShareToast. rewrite H, andb_false_r.
  destruct (hasShownShareToastInSession st); [auto|].
  destruct (downloadCount st + 1 =? 2)%Z; [destruct sp|]; auto.
Qed.

Lemma download_raises_special (sp isS : bool) (st : State) :
  isSpecialToast (snd (download sp isS st)) = true ->
  hasDownloadedSpecialTheme (fst (download sp isS st)) = true.
Proof.
  unfold download, triggerShareToast.
  destruct (isS && justUnlockedSpecialTheme st && negb (hasDownloadedSpecialTheme st));
    [reflexivity|].
  destruct (hasShownShareToastInSession st); [discriminate|].
  destruct (downloadCount st + 1 =? 2)%Z; [destruct sp; discriminate|discriminate].
Qed.

(** The other events raise nothing and leave the marks. *)
Lemma other_event (e : Event) (st : State) :
  e = closeShareToast \/ e = closeSpecialShareToast \/ e = unlockSpecialTheme ->
  exists st',
    step e (mkApp st []) = (mkApp st' [], None) /\
    hasShownShareToastInSession st' = hasShownShareToastInSession st /\
    hasDownloadedSpecialTheme st' = hasDownloadedSpecialTheme st.
Proof.
  intros [E | [E | E]]; subst e; eexists; (split; [reflexivity|split; reflexivity]).
Qed.

(** Once the share toast is marked as shown no download raises it. *)
Lemma shown_stays (events : list Event) :
  oneAtATime events = true ->
  forall st, hasShownShareToastInSession st = true ->
  length (filter isShareToast (toasts events (mkApp st []))) = 0.
Proof.
  revert events.
  apply (oneAtATime_ind (fun events => forall st, hasShownShareToastInSession st = true ->
           length (filter isShareToast (toasts events (mkApp st []))) = 0)).
  - reflexivity.
  - intros sp isS events Hone IH st H.
    rewrite toasts_download, !count_cons.
    destruct (download_shown sp isS st H) as [K1 K2].
    rewrite K1, (IH _ K2). reflexivity.
  - intros e events He Hone IH st H.
    destruct (other_event e st He) as [st' [E [K _]]].
    cbn [toasts]. rewrite E. cbn [fst snd]. rewrite count_cons.
    cbn [isShareToast]. apply IH. congruence.
Qed.

(** Once the special theme is marked as downloaded no download raises
    the special toast. *)
Lemma special_stays (events : list Event) :
  oneAtATime events = true ->
  forall st, hasDownloadedSpecialTheme st = true ->
  length (filter isSpecialToast (toasts events (mkApp st []))) = 0.
Proof.
  revert events.
  apply (oneAtATime_ind (fun events => forall st, hasDownloadedSpecialTheme st = true ->
           length (filter isSpecialToast (toasts events (mkApp st []))) = 0)).
  - reflexivity.
  - intros sp isS events Hone IH st H.
    rewrite toasts_download, !count_cons.
    destruct (download_special sp isS st H) as [K1 K2].
    rewrite K1, (IH _ K2). reflexivity.
  - intros e events He Hone IH st H.
    destruct (other_event e st He) as [st' [E [_ K]]].
    cbn [toasts]. rewrite E. cbn [fst snd]. rewrite count_cons.
    cbn [isSpecialToast]. apply IH. congruence.
Qed.

(** X27: when downloads run one at a time (each gets its file before
    another download starts, a toast is closed or the community theme
    is unlocked), then from any state of the App at most one download
    raises the share toast (that of the App or that of the full-screen
    preview) and at most one raises the special share toast. *)
Theorem each_share_toast_at_most_once (events : list Event) (st : State) :
  oneAtATime events = true ->
  length (filter isShareToast (toasts events (mkApp st []))) <= 1 /\
  length (filter isSpecialToast (toasts events (mkApp st []))) <= 1.
Proof.
  intros Hone. revert st. revert events Hone.
  apply (oneAtATime_ind (fun events => forall st,
           length (filter isShareToast (toasts events (mkApp st []))) <= 1 /\
           length (filter isSpecialToast (toasts events (mkApp st []))) <= 1)).
  - intros st. simpl. lia.
  - intros sp isS events Hone IH st.
    rewrite toasts_download, !count_cons. cbn [isShareToast isSpecialToast].
    destruct (IH (fst (download sp isS st))) as [IH1 IH2].
    split.
    + destruct (isShareToast (snd (download sp isS st))) eqn:E; [|simpl; exact IH1].
      rewrite (shown_stays events Hone); [simpl; lia|].
      apply download_raises_share. exact E.
    + destruct (isSpecialToast (snd (download sp isS st))) eqn:E; [|simpl; exact IH2].
      rewrite (special_stays events Hone); [simpl; lia|].
      apply download_raises_special. exact E.
  - intros e events He Hone IH st.
    destruct (other_event e st He) as [st' [E _]].
    cbn [toasts]. rewrite E. cbn [fst snd]. rewrite !count_cons.
    cbn [isShareToast isSpecialToast]. apply IH.
Qed.

Lemma each_share_toast_at_most_once_witness :
  length (filter isShareToast
            (toasts (downloadOf (false, false) ++ [unlockSpecialTheme] ++
                     downloadOf (true, true) ++ downloadOf (false, false))
                    initialApp)) <= 1.
Proof.
  apply (each_share_toast_at_most_once
           (downloadOf (false, false) ++ [unlockSpecialTheme] ++
            downloadOf (true, true) ++ downloadOf (false, false)) initialState).
  reflexivity.
Defined.

(** Downloads that overlap are not covered: two downloads started when
    one has been counted both read the count 1, and both raise the
    share toast. *)
Lemma overlapping_downloads_raise_two_toasts :
  oneAtATime overlappingDownloads = false /\
  toasts overlappingDownloads oneCounted = [None; None; Some shareToast; Some shareToast].
Proof. split; reflexivity. Qed.

(** With the share toast marked as shown and the community theme not
    unlocked, downloads raise nothing. *)
Lemma quiet_after_toast (ds : list (bool * bool)) :
  forall st, hasShownShareToastInSession st = true ->
  justUnlockedSpecialTheme st = false ->
  toasts (flat_map downloadOf ds) (mkApp st []) = repeat None (2 * length ds).
Proof.
  induction ds as [|d ds IH]; intros st H J; [reflexivity|].
  cbn [flat_map downloadOf app]. rewrite toasts_download.
  replace (2 * length (d :: ds)) with (S (S (2 * length ds))) by (simpl; lia).
  cbn [repeat].
  assert (E : download (fst d) (snd d) st = (st, None)).
  { unfold download, triggerShareToast. rewrite H, J, andb_false_r. cbn [andb fst snd].
    destruct st; reflexivity. }
  rewrite E. cbn [fst snd]. rewrite (IH st H J). reflexivity.
Qed.

Lemma first_download (d : bool * bool) :
  download (fst d) (snd d) initialState = (mkState 1 false false false false false, None).
Proof. destruct d as [[|] [|]]; reflexivity. Qed.

Lemma second_download (d : bool * bool) :
  download (fst d) (snd d) (mkState 1 false false false false false) =
  (mkState 2 (negb (fst d)) true false false false, secondDownload (fst d)).
Proof. destruct d as [[|] [|]]; reflexivity. Qed.

(** X28: in a row of downloads from the start of a session, each getting
    its file before the next starts, and with the community theme not
    unlocked, the second download raises the share toast when it gets
    its file, that of the full-screen preview if the panel passed it
    and that of the App otherwise, and no other download raises a
    toast. *)
Theorem second_download_raises_toast (d1 d2 : bool * bool) (ds : list (bool * bool)) :
  toasts (flat_map downloadOf (d1 :: d2 :: ds)) initialApp =
  [None; None; None; secondDownload (fst d2)] ++ repeat None (2 * length ds).
Proof.
  cbn [flat_map downloadOf app]. unfold initialApp.
  rewrite toasts_download, first_download. cbn [fst snd].
  rewrite toasts_download, second_download. cbn [fst snd].
  rewrite quiet_after_toast by reflexivity. reflexivity.
Qed.

End ShareToastFacts.
